(** * The Tailscale update checker ([update.ts]) of unraid-6.12-tailscale

    A shallow embedding of the update script and the properties of its
    update workflow.  The repository holds two revisions of the script:
    [src/update.ts] and a second one ([src/unnamed/part_003]).  They agree
    on everything except the version comparator, the checksum fetcher and a
    constant; what they share is defined once, and what differs lives in
    the modules [UpdateTs] and [Part003].

    Conventions of the embedding:
    - a JavaScript string is the list of its UTF-16 code units ([jsstring]);
    - a number is the double that [Number] reads from a run of digits: an
      integer after rounding to 53 bits, or [Infinity];
    - the configuration is the object that [JSON.parse] builds, with its
      properties in the order of enumeration; [JSON.parse] and
      [JSON.stringify] follow ECMAScript, except that the printing of
      numbers is left open ([print_number]);
    - the outside world (network, file system, clock, subprocess) is
      reached through the requests of a small free monad ([prog]); a
      [World] answers them, and a run yields the trace of what happened
      together with the way the process ended;
    - console output is not part of the model.

    The first part of the file holds the definitions, the second part the
    properties: the pattern of [extractVersion], the fallback source of
    the version, the comparison of the stored and the latest version, the
    shape of every run of [main], the date, the latest version of a
    listing, the checksum, the round trip of the configuration file, and
    the adequacy of the fuel of the two scanners; then the runs that end
    early, the requests and the exit status of every run, the token of
    the checksum file, the versions of any listing, a second run after an
    update, and the order of the dates. *)

From Stdlib Require Import List NArith ZArith Bool Lia String Ascii.
Import ListNotations.

Set Warnings "-register-all".
Local Open Scope N_scope.

(* ===================================================================== *)
(** ** JavaScript strings *)
(* ===================================================================== *)

Definition jsstring := list N.

(** A literal of the source, as code units. *)
Definition str (s : string) : jsstring :=
  List.map N_of_ascii (list_ascii_of_string s).

Fixpoint jsstring_eqb (a b : jsstring) : bool :=
  match a, b with
  | [], [] => true
  | x :: a', y :: b' => N.eqb x y && jsstring_eqb a' b'
  | _, _ => false
  end.

(** [\d] of a regular expression (without the [u] flag): [0-9]. *)
Definition is_digit (c : N) : bool := (48 <=? c) && (c <=? 57).

(** [s.startsWith(p)], returning what follows the prefix. *)
Fixpoint strip_prefix (p s : jsstring) : option jsstring :=
  match p with
  | [] => Some s
  | c :: p' =>
      match s with
      | [] => None
      | d :: s' => if N.eqb c d then strip_prefix p' s' else None
      end
  end.

(** The longest run of digits at the front of [s], and what follows it. *)
Fixpoint span_digits (s : jsstring) : jsstring * jsstring :=
  match s with
  | [] => ([], [])
  | c :: s' =>
      if is_digit c
      then let (d, r) := span_digits s' in (c :: d, r)
      else ([], s)
  end.

(** [\d+] at the front of [s].  The quantifier is greedy, and in both
    patterns of the script it is followed by a character that is not a
    digit ([.] or [_]), so the only run that can lead to a match is the
    longest one. *)
Definition digits1 (s : jsstring) : option (jsstring * jsstring) :=
  match span_digits s with
  | ([], _) => None
  | (d, r) => Some (d, r)
  end.

(** One attempt of [/tailscale_(\d+\.\d+\.\d+)_amd64<tail>/] at the front
    of [s]: the capture group and the text after the match. *)
Definition match_version_at (tail s : jsstring)
  : option (jsstring * jsstring) :=
  match strip_prefix (str "tailscale_") s with
  | None => None
  | Some s1 =>
  match digits1 s1 with
  | None => None
  | Some (d1, s2) =>
  match strip_prefix (str ".") s2 with
  | None => None
  | Some s3 =>
  match digits1 s3 with
  | None => None
  | Some (d2, s4) =>
  match strip_prefix (str ".") s4 with
  | None => None
  | Some s5 =>
  match digits1 s5 with
  | None => None
  | Some (d3, s6) =>
  match strip_prefix (str "_amd64" ++ tail) s6 with
  | None => None
  | Some s7 => Some (d1 ++ str "." ++ d2 ++ str "." ++ d3, s7)
  end end end end end end end.

(** [s.match(re)] for a pattern without the [g] flag: the capture group of
    the leftmost match, if there is one. *)
Fixpoint regex_match (tail s : jsstring) : option jsstring :=
  match match_version_at tail s with
  | Some (v, _) => Some v
  | None =>
      match s with
      | [] => None
      | _ :: s' => regex_match tail s'
      end
  end.

(** [extractVersion], [update.ts] lines 196-199:
    [tailscaleVersion.match(/tailscale_(\d+\.\d+\.\d+)_amd64/)],
    then [match[1]] when there is a match, and the empty string when
    there is none. *)
Definition extractVersion (tailscaleVersion : jsstring) : jsstring :=
  match regex_match [] tailscaleVersion with
  | Some v => v
  | None => []
  end.

(** [[...html.matchAll(re)].map(m => m[1])] for the pattern with the [g]
    flag: the scan resumes after each match, and one position further
    where there is none.  Every step consumes a code unit, so a fuel of
    the length of the text (plus one) is never used up. *)
Fixpoint matchAll_fuel (fuel : nat) (tail s : jsstring) : list jsstring :=
  match fuel with
  | O => []
  | S fuel' =>
      match match_version_at tail s with
      | Some (v, rest) => v :: matchAll_fuel fuel' tail rest
      | None =>
          match s with
          | [] => []
          | _ :: s' => matchAll_fuel fuel' tail s'
          end
      end
  end.

Definition matchAll (tail s : jsstring) : list jsstring :=
  matchAll_fuel (S (List.length s)) tail s.

(** What follows a maximal run of digits does not start with a digit. *)
Definition stops (r : jsstring) : Prop :=
  match r with
  | [] => True
  | c :: _ => is_digit c = false
  end.

(* ===================================================================== *)
(** ** What the pattern means *)
(* ===================================================================== *)

(** A non-empty run of digits. *)
Definition digit_run (d : jsstring) : Prop :=
  d <> [] /\ Forall (fun c => is_digit c = true) d.

(** [s] holds [tailscale_<d1>.<d2>.<d3>_amd64] right after [pre]. *)
Definition occurs_at (s pre d1 d2 d3 post : jsstring) : Prop :=
  digit_run d1 /\ digit_run d2 /\ digit_run d3 /\
  s = pre ++ str "tailscale_" ++ d1 ++ str "." ++ d2 ++ str "." ++ d3
          ++ str "_amd64" ++ post.

(** No occurrence starts before the one after [pre]. *)
Definition leftmost (s pre : jsstring) : Prop :=
  forall pre' d1 d2 d3 post,
    occurs_at s pre' d1 d2 d3 post -> (List.length pre <= List.length pre')%nat.

Definition contains_version (s : jsstring) : Prop :=
  exists pre d1 d2 d3 post, occurs_at s pre d1 d2 d3 post.

(* ===================================================================== *)
(** ** Numbers *)
(* ===================================================================== *)

(** The numbers the script computes with: [Number] of a run of decimal
    digits is a non-negative integer that a double represents, or
    [Infinity]; [NaN] comes from arithmetic on [undefined]. *)
Inductive number : Type :=
| Fin (n : N)
| Infinity
| NaN.

Fixpoint digits_value_from (acc : N) (s : jsstring) : N :=
  match s with
  | [] => acc
  | c :: s' => digits_value_from (10 * acc + (c - 48)) s'
  end.

(** The integer a run of decimal digits denotes. *)
Definition digits_value (s : jsstring) : N := digits_value_from 0 s.

(** The double nearest to the integer [n], ties to the even significand
    (53 bits); from [2^1024 - 2^970] on the result is [Infinity]. *)
Definition round_to_double (n : N) : number :=
  if n <? 2 ^ 53 then Fin n
  else
    let e := N.log2 n - 52 in
    let q := n / 2 ^ e in
    let r := n mod 2 ^ e in
    let half := 2 ^ (e - 1) in
    let q' := if (half <? r) || ((r =? half) && N.odd q) then q + 1 else q in
    if 2 ^ 1024 <=? q' * 2 ^ e then Infinity else Fin (q' * 2 ^ e).

(** [Number(s)] on the strings the script applies it to: a non-empty run
    of decimal digits is read as the nearest double, and the empty string
    is [0].  The other numeric literals of JavaScript (signs, fractions,
    exponents, radix prefixes, surrounding white space) never reach
    [Number] here (see [matchAll_parts_digit_runs]) and are not modelled:
    the last branch is not meant for them. *)
Definition Number (s : jsstring) : number :=
  match s with
  | [] => Fin 0
  | _ => if forallb is_digit s then round_to_double (digits_value s) else NaN
  end.

(** [s.split('.')]. *)
Fixpoint split_on (sep : N) (s : jsstring) : list jsstring :=
  match s with
  | [] => [[]]
  | c :: s' =>
      if c =? sep then [] :: split_on sep s'
      else match split_on sep s' with
           | t :: ts => (c :: t) :: ts
           | [] => [[c]]
           end
  end.

(** [a.split('.').map(Number)]. *)
Definition version_parts (a : jsstring) : list number :=
  List.map Number (split_on 46 a).

(** [parts[i]]: [None] is [undefined]. *)
Definition part (parts : list number) (i : nat) : option number :=
  nth_error parts i.

(** [x !== y] on numbers and [undefined]. *)
Definition strict_neq (x y : option number) : bool :=
  match x, y with
  | None, None => false
  | Some (Fin a), Some (Fin b) => negb (a =? b)
  | Some Infinity, Some Infinity => false
  | _, _ => true
  end.

(** What a comparator hands to [sort]: the sort only looks at the sign of
    the number, and takes [NaN] for [0]. *)
Inductive sign : Type := Negative | Zero | Positive | NotANumber.

(** The sign of [y - x]. *)
Definition sign_of_difference (y x : option number) : sign :=
  match y, x with
  | Some (Fin b), Some (Fin a) =>
      match N.compare b a with
      | Lt => Negative
      | Eq => Zero
      | Gt => Positive
      end
  | Some Infinity, Some (Fin _) => Positive
  | Some (Fin _), Some Infinity => Negative
  | _, _ => NotANumber
  end.

(** [x || 0]. *)
Definition or_zero (x : option number) : option number :=
  match x with
  | None | Some NaN | Some (Fin 0) => Some (Fin 0)
  | _ => x
  end.

(** [arr.sort(compareFn)].  The sort of ECMAScript is stable, and with a
    comparator that is a consistent order its result is determined: it is
    the one of this insertion sort.  [compareFn(x, y) > 0] puts [y]
    first; anything else (also [NaN]) leaves [x] before [y]. *)
Section Sort.
Context {A : Type} (compareFn : A -> A -> sign).

Definition comes_after (x y : A) : bool :=
  match compareFn x y with
  | Positive => true
  | _ => false
  end.

Fixpoint insert_sorted (x : A) (l : list A) : list A :=
  match l with
  | [] => [x]
  | y :: l' => if comes_after x y then y :: insert_sorted x l' else x :: l
  end.

Definition sort (l : list A) : list A := fold_right insert_sorted [] l.
End Sort.

(** [[...new Set(versions)]]: the first occurrence of each string, in the
    order of insertion. *)
Fixpoint unique_from (seen l : list jsstring) : list jsstring :=
  match l with
  | [] => []
  | x :: l' =>
      if existsb (jsstring_eqb x) seen then unique_from seen l'
      else x :: unique_from (x :: seen) l'
  end.

Definition unique (l : list jsstring) : list jsstring := unique_from [] l.

(* ===================================================================== *)
(** ** JSON values, [JSON.parse] and [JSON.stringify] *)
(* ===================================================================== *)

(** The values [JSON.parse] builds.  A number is kept as the text it was
    read from; the properties of an object are listed in the order in
    which JavaScript enumerates them. *)
Inductive json : Type :=
| JNull
| JBool (b : bool)
| JNum (lexeme : jsstring)
| JStr (s : jsstring)
| JArr (elements : list json)
| JObj (props : list (jsstring * json)).

Definition properties := list (jsstring * json).

(** *** Objects *)

(** [obj[key]] for an own property. *)
Fixpoint obj_get (key : jsstring) (props : properties) : option json :=
  match props with
  | [] => None
  | (k, v) :: ps => if jsstring_eqb k key then Some v else obj_get key ps
  end.

(** The property is there already: its value is replaced in place. *)
Fixpoint obj_replace (key : jsstring) (v : json) (props : properties)
  : properties :=
  match props with
  | [] => []
  | (k, v') :: ps =>
      if jsstring_eqb k key then (k, v) :: ps
      else (k, v') :: obj_replace key v ps
  end.

(** An array index: the canonical decimal form of an integer up to
    [2^32 - 2].  Such keys are enumerated first, in ascending order. *)
Definition array_index (key : jsstring) : option N :=
  match key with
  | [] => None
  | c :: key' =>
      if forallb is_digit key
         && (negb (c =? 48) || match key' with [] => true | _ => false end)
         && (digits_value key <=? 4294967294)
      then Some (digits_value key)
      else None
  end.

Fixpoint obj_insert_index (n : N) (key : jsstring) (v : json)
  (props : properties) : properties :=
  match props with
  | [] => [(key, v)]
  | (k, v') :: ps =>
      match array_index k with
      | Some m =>
          if m <? n then (k, v') :: obj_insert_index n key v ps
          else (key, v) :: props
      | None => (key, v) :: props
      end
  end.

(** [obj[key] = v] on an object that came from [JSON.parse] (no setters,
    nothing inherited under the keys in use); also the way [JSON.parse]
    adds a member, so that of two members with one key the later value
    stays, at the place of the first. *)
Definition obj_set (key : jsstring) (v : json) (props : properties)
  : properties :=
  match obj_get key props with
  | Some _ => obj_replace key v props
  | None =>
      match array_index key with
      | Some n => obj_insert_index n key v props
      | None => props ++ [(key, v)]
      end
  end.

(** *** Reading *)

Inductive parsed (A : Type) : Type :=
| Ok (a : A) (rest : jsstring)
| SyntaxError
| OutOfFuel.
Arguments Ok {A} a rest.
Arguments SyntaxError {A}.
Arguments OutOfFuel {A}.

(** White space of the JSON grammar: tab, line feed, carriage return,
    space. *)
Definition is_json_ws (c : N) : bool :=
  (c =? 9) || (c =? 10) || (c =? 13) || (c =? 32).

Fixpoint skip_ws (s : jsstring) : jsstring :=
  match s with
  | [] => []
  | c :: s' => if is_json_ws c then skip_ws s' else s
  end.

Definition hex_value (c : N) : option N :=
  if is_digit c then Some (c - 48)
  else if (97 <=? c) && (c <=? 102) then Some (c - 87)
  else if (65 <=? c) && (c <=? 70) then Some (c - 55)
  else None.

Definition hex4_value (h1 h2 h3 h4 : N) : option N :=
  match hex_value h1, hex_value h2, hex_value h3, hex_value h4 with
  | Some a, Some b, Some c, Some d => Some (((a * 16 + b) * 16 + c) * 16 + d)
  | _, _, _, _ => None
  end.

(** The character after a backslash, other than [u]. *)
Definition unescape (e : N) : option N :=
  if (e =? 34) || (e =? 92) || (e =? 47) then Some e
  else if e =? 98 then Some 8
  else if e =? 102 then Some 12
  else if e =? 110 then Some 10
  else if e =? 114 then Some 13
  else if e =? 116 then Some 9
  else None.

Definition cons_char (c : N) (r : option (jsstring * jsstring))
  : option (jsstring * jsstring) :=
  match r with
  | Some (t, rest) => Some (c :: t, rest)
  | None => None
  end.

(** A string after its opening quote: its value and what follows the
    closing quote. *)
Fixpoint parse_string_chars (s : jsstring) : option (jsstring * jsstring) :=
  match s with
  | [] => None
  | c :: s' =>
      if c =? 34 then Some ([], s')
      else if c =? 92 then
        match s' with
        | [] => None
        | e :: s'' =>
            if e =? 117 then
              match s'' with
              | h1 :: h2 :: h3 :: h4 :: s5 =>
                  match hex4_value h1 h2 h3 h4 with
                  | Some u => cons_char u (parse_string_chars s5)
                  | None => None
                  end
              | _ => None
              end
            else
              match unescape e with
              | Some u => cons_char u (parse_string_chars s'')
              | None => None
              end
        end
      else if c <? 32 then None
      else cons_char c (parse_string_chars s')
  end.

(** The exponent of a number, if there is one. *)
Definition parse_exponent (acc s : jsstring) : option (jsstring * jsstring) :=
  match s with
  | e :: s1 =>
      if (e =? 101) || (e =? 69) then
        let (sg, s2) :=
          match s1 with
          | c :: s1' => if (c =? 43) || (c =? 45) then ([c], s1') else ([], s1)
          | [] => ([], s1)
          end in
        match digits1 s2 with
        | Some (d, r) => Some (acc ++ e :: sg ++ d, r)
        | None => None
        end
      else Some (acc, s)
  | [] => Some (acc, s)
  end.

(** The fraction of a number, if there is one, and then the exponent. *)
Definition parse_fraction (acc s : jsstring) : option (jsstring * jsstring) :=
  match s with
  | c :: s1 =>
      if c =? 46 then
        match digits1 s1 with
        | Some (d, r) => parse_exponent (acc ++ 46 :: d) r
        | None => None
        end
      else parse_exponent acc s
  | [] => parse_exponent acc s
  end.

(** A number: its text and what follows it. *)
Definition parse_number (s : jsstring) : option (jsstring * jsstring) :=
  let (sg, s1) :=
    match s with
    | c :: s' => if c =? 45 then ([c], s') else ([], s)
    | [] => ([], s)
    end in
  match s1 with
  | [] => None
  | c :: s2 =>
      if c =? 48 then parse_fraction (sg ++ [c]) s2
      else
        match digits1 s1 with
        | Some (d, r) => parse_fraction (sg ++ d) r
        | None => None
        end
  end.

Definition parse_literal (word : jsstring) (v : json) (s : jsstring)
  : parsed json :=
  match strip_prefix word s with
  | Some r => Ok v r
  | None => SyntaxError
  end.

(** One value, given the parsers for what follows [{] and [[]. *)
Definition value_step (members : properties -> jsstring -> parsed json)
  (elements : list json -> jsstring -> parsed json) (s : jsstring)
  : parsed json :=
  match skip_ws s with
  | [] => SyntaxError
  | c :: s1 =>
      if c =? 34 then
        match parse_string_chars s1 with
        | Some (t, r) => Ok (JStr t) r
        | None => SyntaxError
        end
      else if c =? 123 then
        match strip_prefix [125] (skip_ws s1) with
        | Some r => Ok (JObj []) r
        | None => members [] s1
        end
      else if c =? 91 then
        match strip_prefix [93] (skip_ws s1) with
        | Some r => Ok (JArr []) r
        | None => elements [] s1
        end
      else if c =? 116 then parse_literal (str "true") (JBool true) (c :: s1)
      else if c =? 102 then
        parse_literal (str "false") (JBool false) (c :: s1)
      else if c =? 110 then parse_literal (str "null") JNull (c :: s1)
      else
        match parse_number (c :: s1) with
        | Some (l, r) => Ok (JNum l) r
        | None => SyntaxError
        end
  end.

(** The members of an object from a key on, after the members [acc]. *)
Definition members_step (value : jsstring -> parsed json)
  (members : properties -> jsstring -> parsed json) (acc : properties)
  (s : jsstring) : parsed json :=
  match strip_prefix [34] (skip_ws s) with
  | None => SyntaxError
  | Some s1 =>
  match parse_string_chars s1 with
  | None => SyntaxError
  | Some (key, s2) =>
  match strip_prefix [58] (skip_ws s2) with
  | None => SyntaxError
  | Some s3 =>
  match value s3 with
  | SyntaxError => SyntaxError
  | OutOfFuel => OutOfFuel
  | Ok v s4 =>
      match skip_ws s4 with
      | [] => SyntaxError
      | c :: s5 =>
          if c =? 44 then members (obj_set key v acc) s5
          else if c =? 125 then Ok (JObj (obj_set key v acc)) s5
          else SyntaxError
      end
  end end end end.

(** The elements of an array from a value on, after the elements
    [acc]. *)
Definition elements_step (value : jsstring -> parsed json)
  (elements : list json -> jsstring -> parsed json) (acc : list json)
  (s : jsstring) : parsed json :=
  match value s with
  | SyntaxError => SyntaxError
  | OutOfFuel => OutOfFuel
  | Ok v s1 =>
      match skip_ws s1 with
      | [] => SyntaxError
      | c :: s2 =>
          if c =? 44 then elements (acc ++ [v]) s2
          else if c =? 93 then Ok (JArr (acc ++ [v])) s2
          else SyntaxError
      end
  end.

(** Recursive descent over the text.  Every call consumes fuel; a text of
    [n] code units never needs more than [2 * n + 1]
    (see [JSON_parse_fuel]). *)
Fixpoint parse_value (fuel : nat) (s : jsstring) {struct fuel} : parsed json :=
  match fuel with
  | O => OutOfFuel
  | S fuel' => value_step (parse_members fuel') (parse_elements fuel') s
  end

with parse_members (fuel : nat) (acc : properties) (s : jsstring)
       {struct fuel} : parsed json :=
  match fuel with
  | O => OutOfFuel
  | S fuel' => members_step (parse_value fuel') (parse_members fuel') acc s
  end

with parse_elements (fuel : nat) (acc : list json) (s : jsstring)
       {struct fuel} : parsed json :=
  match fuel with
  | O => OutOfFuel
  | S fuel' => elements_step (parse_value fuel') (parse_elements fuel') acc s
  end.

(** [JSON.parse(text)]: [None] is the [SyntaxError] it throws. *)
Definition JSON_parse (text : jsstring) : option json :=
  match parse_value (S (2 * List.length text)) text with
  | Ok v rest =>
      match skip_ws rest with
      | [] => Some v
      | _ => None
      end
  | _ => None
  end.

(** Whether the double a number is read as is zero: its digits are all
    zero, or it is at most [2^-1075], half the least positive double. *)
Definition number_is_zero (lexeme : jsstring) : bool :=
  let body := match lexeme with
              | c :: l => if c =? 45 then l else lexeme
              | [] => lexeme
              end in
  let (int_part, r1) := span_digits body in
  let (frac_part, r2) :=
    match r1 with
    | c :: r => if c =? 46 then span_digits r else ([], r1)
    | [] => ([], r1)
    end in
  let exponent : Z :=
    match r2 with
    | _ :: c :: r =>
        if c =? 45 then (- Z.of_N (digits_value r))%Z
        else if c =? 43 then Z.of_N (digits_value r)
        else Z.of_N (digits_value (c :: r))
    | _ => 0%Z
    end in
  let m := digits_value (int_part ++ frac_part) in
  let e := (exponent - Z.of_nat (List.length frac_part))%Z in
  (m =? 0) || ((e <? 0)%Z && (m * 2 ^ 1075 <=? 10 ^ Z.to_N (- e))).

(** [!!v]. *)
Definition truthy (v : json) : bool :=
  match v with
  | JNull => false
  | JBool b => b
  | JNum l => negb (number_is_zero l)
  | JStr s => match s with [] => false | _ => true end
  | JArr _ | JObj _ => true
  end.

(** *** Writing *)

Definition hex_digit (d : N) : N := if d <? 10 then 48 + d else 87 + d.

(** [\uXXXX], with lower-case hexadecimal digits. *)
Definition unicode_escape (c : N) : jsstring :=
  [92; 117;
   hex_digit (c / 4096 mod 16); hex_digit (c / 256 mod 16);
   hex_digit (c / 16 mod 16); hex_digit (c mod 16)].

Definition is_high_surrogate (c : N) : bool := (55296 <=? c) && (c <=? 56319).
Definition is_low_surrogate (c : N) : bool := (56320 <=? c) && (c <=? 57343).

(** A code unit that is not part of a surrogate pair, inside a string
    literal. *)
Definition escape_char (c : N) : jsstring :=
  if c =? 8 then str "\b"
  else if c =? 9 then str "\t"
  else if c =? 10 then str "\n"
  else if c =? 12 then str "\f"
  else if c =? 13 then str "\r"
  else if c =? 34 then [92; 34]
  else if c =? 92 then [92; 92]
  else if (c <? 32) || is_high_surrogate c || is_low_surrogate c
       then unicode_escape c
  else [c].

(** The inside of [QuoteJSONString]: the string is read code point by code
    point, so that a surrogate pair stays as it is and a lone surrogate is
    escaped. *)
Fixpoint quote_chars (s : jsstring) : jsstring :=
  match s with
  | [] => []
  | c :: s' =>
      if is_high_surrogate c then
        match s' with
        | d :: s'' =>
            if is_low_surrogate d then c :: d :: quote_chars s''
            else escape_char c ++ quote_chars s'
        | [] => escape_char c
        end
      else escape_char c ++ quote_chars s'
  end.

Definition QuoteJSONString (s : jsstring) : jsstring :=
  34 :: quote_chars s ++ [34].

(** [parts.join(sep)]. *)
Fixpoint join (sep : jsstring) (parts : list jsstring) : jsstring :=
  match parts with
  | [] => []
  | [x] => x
  | x :: rest => x ++ sep ++ join sep rest
  end.

Section Stringify.
(** What [JSON.stringify] prints for the number read from a text: the
    shortest decimal form of the double, [null] when it is not finite.
    No property below depends on it, so it is left open. *)
Variable print_number : jsstring -> jsstring.

(** The indentation unit, [gap]. *)
Variable gap : jsstring.

(** [SerializeJSONProperty] with a non-empty [gap]; [indent] is the
    indentation of the enclosing line. *)
Fixpoint serialize (indent : jsstring) (v : json) : jsstring :=
  match v with
  | JNull => str "null"
  | JBool true => str "true"
  | JBool false => str "false"
  | JNum l => print_number l
  | JStr s => QuoteJSONString s
  | JArr [] => str "[]"
  | JArr elements =>
      let inner := indent ++ gap in
      str "[" ++ [10] ++ inner
        ++ join (str "," ++ [10] ++ inner) (List.map (serialize inner) elements)
        ++ [10] ++ indent ++ str "]"
  | JObj [] => str "{}"
  | JObj props =>
      let inner := indent ++ gap in
      str "{" ++ [10] ++ inner
        ++ join (str "," ++ [10] ++ inner)
             (List.map (fun kv => QuoteJSONString (fst kv) ++ str ": "
                                    ++ serialize inner (snd kv)) props)
        ++ [10] ++ indent ++ str "}"
  end.
End Stringify.

(** [JSON.stringify(value, null, 4)]. *)
Definition JSON_stringify4 (print_number : jsstring -> jsstring) (v : json)
  : jsstring :=
  serialize print_number (str "    ") [] v.

(* ===================================================================== *)
(** ** More of the string library *)
(* ===================================================================== *)

(** [WhiteSpace] and [LineTerminator] of ECMAScript: what [trim] removes
    and what [\s] matches. *)
Definition is_space (c : N) : bool :=
  ((9 <=? c) && (c <=? 13)) || (c =? 32) || (c =? 160) || (c =? 5760)
  || ((8192 <=? c) && (c <=? 8202)) || (c =? 8232) || (c =? 8233)
  || (c =? 8239) || (c =? 8287) || (c =? 12288) || (c =? 65279).

Fixpoint trimStart (s : jsstring) : jsstring :=
  match s with
  | [] => []
  | c :: s' => if is_space c then trimStart s' else s
  end.

(** [s.trim()]. *)
Definition trim (s : jsstring) : jsstring :=
  rev (trimStart (rev (trimStart s))).

(** [s.split(/\s+/)]: [in_space] tells that the scan is inside a run of
    white space, which separates two parts once. *)
Fixpoint split_spaces (in_space : bool) (s : jsstring) : list jsstring :=
  match s with
  | [] => [[]]
  | c :: s' =>
      if is_space c then
        if in_space then split_spaces true s' else [] :: split_spaces true s'
      else
        match split_spaces false s' with
        | t :: ts => (c :: t) :: ts
        | [] => [[c]]
        end
  end.

(** [text.trim().split(/\s+/)[0]]; the array is never empty. *)
Definition first_token (text : jsstring) : jsstring :=
  hd [] (split_spaces false (trim text)).

(** [[a-f0-9]] under the [i] flag. *)
Definition is_hex (c : N) : bool :=
  is_digit c || ((97 <=? c) && (c <=? 102)) || ((65 <=? c) && (c <=? 70)).

(** [/^[a-f0-9]{64}$/i.test(s)]. *)
Definition is_sha256_hex (s : jsstring) : bool :=
  (List.length s =? 64)%nat && forallb is_hex s.

(** [[a-f0-9]{n}] at the front of [s]. *)
Fixpoint take_hex (n : nat) (s : jsstring) : option jsstring :=
  match n with
  | O => Some []
  | S n' =>
      match s with
      | [] => None
      | c :: s' =>
          if is_hex c then
            match take_hex n' s' with
            | Some h => Some (c :: h)
            | None => None
            end
          else None
      end
  end.

(** [line.match(/([a-f0-9]{64})/i)]: the leftmost run of 64 hexadecimal
    digits. *)
Fixpoint match_hex64 (s : jsstring) : option jsstring :=
  match take_hex 64 s with
  | Some h => Some h
  | None =>
      match s with
      | [] => None
      | _ :: s' => match_hex64 s'
      end
  end.

(** [s.includes(p)]. *)
Fixpoint includes (p s : jsstring) : bool :=
  match strip_prefix p s with
  | Some _ => true
  | None =>
      match s with
      | [] => false
      | _ :: s' => includes p s'
      end
  end.

(** [s.padStart(n, c)] with a filler of one code unit. *)
Definition padStart (n : nat) (c : N) (s : jsstring) : jsstring :=
  repeat c (n - List.length s) ++ s.

Fixpoint decimal_from (fuel : nat) (n : N) (acc : jsstring) : jsstring :=
  match fuel with
  | O => acc
  | S fuel' =>
      let acc' := (48 + n mod 10) :: acc in
      if n <? 10 then acc' else decimal_from fuel' (n / 10) acc'
  end.

(** [String(z)] for an integer [z]: its decimal digits.  The number of
    binary digits bounds the number of decimal ones. *)
Definition String_of_Z (z : Z) : jsstring :=
  let n := Z.to_N (Z.abs z) in
  let digits := decimal_from (S (N.to_nat (N.log2 n))) n [] in
  if (z <? 0)%Z then 45 :: digits else digits.

(* ===================================================================== *)
(** ** The world around the script *)
(* ===================================================================== *)

(** What [await fetch(url)] gives: the promise is rejected, or there is a
    response with its [ok] flag; [text = None] is a body that cannot be
    read ([response.text()] and [response.json()] are rejected). *)
Inductive fetch_result : Type :=
| FetchRejected
| Response (ok : bool) (text : option jsstring).

(** The local date of [new Date()], as its getters return it (months from
    [0]). *)
Record Date : Type := {
  getFullYear : Z;
  getMonth : Z;
  getDate : Z
}.

(** The requests of the script, each with the continuation that receives
    the answer.  [Exit] is [Deno.exit(code)]; [Throw] is an exception that
    nothing catches. *)
Inductive prog (A : Type) : Type :=
| Ret (a : A)
| Fetch (url : jsstring) (k : fetch_result -> prog A)
| ReadTextFile (path : jsstring) (k : option jsstring -> prog A)
| WriteTextFile (path content : jsstring) (k : bool -> prog A)
| NewDate (k : Date -> prog A)
| CommandOutput (command : jsstring) (args : list jsstring) (cwd : jsstring)
    (k : option Z -> prog A)
| Exit (code : Z)
| Throw.
Arguments Ret {A} a.
Arguments Fetch {A} url k.
Arguments ReadTextFile {A} path k.
Arguments WriteTextFile {A} path content k.
Arguments NewDate {A} k.
Arguments CommandOutput {A} command args cwd k.
Arguments Exit {A} code.
Arguments Throw {A}.

Fixpoint bind {A B : Type} (p : prog A) (f : A -> prog B) : prog B :=
  match p with
  | Ret a => f a
  | Fetch url k => Fetch url (fun r => bind (k r) f)
  | ReadTextFile path k => ReadTextFile path (fun r => bind (k r) f)
  | WriteTextFile path content k =>
      WriteTextFile path content (fun r => bind (k r) f)
  | NewDate k => NewDate (fun r => bind (k r) f)
  | CommandOutput c a d k => CommandOutput c a d (fun r => bind (k r) f)
  | Exit code => Exit code
  | Throw => Throw
  end.

Declare Scope prog_scope.
Delimit Scope prog_scope with prog.
Notation "x <- p ;; q" := (bind p (fun x => q))
  (at level 61, p at next level, right associativity) : prog_scope.

(** What a run leaves behind: each request with its answer.  For a file
    write and for the subprocess the answer is whether the call came back
    ([false] and [None]: it threw). *)
Inductive event : Type :=
| EvFetch (url : jsstring) (r : fetch_result)
| EvReadTextFile (path : jsstring) (r : option jsstring)
| EvWriteTextFile (path content : jsstring) (written : bool)
| EvNewDate (d : Date)
| EvCommandOutput (command : jsstring) (args : list jsstring) (cwd : jsstring)
    (code : option Z).

Definition trace := list event.

(** The world answers a request knowing all that happened before. *)
Record World : Type := {
  on_fetch : trace -> jsstring -> fetch_result;
  on_readTextFile : trace -> jsstring -> option jsstring;
  on_writeTextFile : trace -> jsstring -> jsstring -> bool;
  on_newDate : trace -> Date;
  on_commandOutput : trace -> jsstring -> list jsstring -> jsstring -> option Z
}.

(** How a program ends. *)
Inductive outcome (A : Type) : Type :=
| Returned (a : A)
| Exited (code : Z)
| Uncaught.
Arguments Returned {A} a.
Arguments Exited {A} code.
Arguments Uncaught {A}.

(** [run w p t]: the program [p] run in the world [w] after the events
    [t]; the result is the trace at the end and the way [p] ended. *)
Fixpoint run {A : Type} (w : World) (p : prog A) (t : trace)
  : trace * outcome A :=
  match p with
  | Ret a => (t, Returned a)
  | Fetch url k =>
      let r := on_fetch w t url in run w (k r) (t ++ [EvFetch url r])
  | ReadTextFile path k =>
      let r := on_readTextFile w t path in
      run w (k r) (t ++ [EvReadTextFile path r])
  | WriteTextFile path content k =>
      let r := on_writeTextFile w t path content in
      run w (k r) (t ++ [EvWriteTextFile path content r])
  | NewDate k =>
      let r := on_newDate w t in run w (k r) (t ++ [EvNewDate r])
  | CommandOutput c a d k =>
      let r := on_commandOutput w t c a d in
      run w (k r) (t ++ [EvCommandOutput c a d r])
  | Exit code => (t, Exited code)
  | Throw => (t, Uncaught)
  end.

(** The exit status of the Deno process whose main module ends this way:
    [0] when [main] returns, the argument of [Deno.exit], and [1] after an
    uncaught exception. *)
Definition exit_status {A : Type} (o : outcome A) : Z :=
  match o with
  | Returned _ => 0%Z
  | Exited code => code
  | Uncaught => 1%Z
  end.

Definition is_write (e : event) : bool :=
  match e with
  | EvWriteTextFile _ _ _ => true
  | _ => false
  end.

Definition is_command (e : event) : bool :=
  match e with
  | EvCommandOutput _ _ _ _ => true
  | _ => false
  end.

Definition is_fetch (e : event) : bool :=
  match e with
  | EvFetch _ _ => true
  | _ => false
  end.

(** The file writes of a trace. *)
Definition writes (t : trace) : trace := filter is_write t.

(* ===================================================================== *)
(** ** The script *)
(* ===================================================================== *)

Local Open Scope prog_scope.

Definition CONFIG_PATH : jsstring := str "./tools/plugin/tailscale.json".
Definition TAILSCALE_STABLE_URL : jsstring := str "https://pkgs.tailscale.com/stable/".
Definition GITHUB_API_URL : jsstring :=
  str "https://api.github.com/repos/tailscale/tailscale/releases/latest".
Definition TOOLS_DIR : jsstring := str "./tools".

(** [tagName.startsWith('v') ? tagName.substring(1) : tagName]. *)
Definition strip_v (tagName : jsstring) : jsstring :=
  match strip_prefix (str "v") tagName with
  | Some rest => rest
  | None => tagName
  end.

(** [fetchLatestVersionFromGitHub].  Everything that goes wrong inside the
    [try] ends in [null]: a rejected fetch, a response that is not [ok], a
    body that is not JSON, and the [TypeError] of [data.tag_name] on
    [null] or of [tagName.startsWith] on anything but a string. *)
Definition fetchLatestVersionFromGitHub : prog (option jsstring) :=
  Fetch GITHUB_API_URL (fun response =>
    match response with
    | Response true (Some body) =>
        match JSON_parse body with
        | Some (JObj data) =>
            match obj_get (str "tag_name") data with
            | Some (JStr tagName) => Ret (Some (strip_v tagName))
            | _ => Ret None
            end
        | _ => Ret None
        end
    | _ => Ret None
    end).

(** [readConfig]: the parsed file, or [null]. *)
Definition readConfig : prog json :=
  ReadTextFile CONFIG_PATH (fun content =>
    match content with
    | Some content =>
        match JSON_parse content with
        | Some config => Ret config
        | None => Ret JNull
        end
    | None => Ret JNull
    end).

(** [getCurrentDate] after [new Date()]: the text for the date [now]. *)
Definition date_text (now : Date) : jsstring :=
  let year := String_of_Z (getFullYear now) in
  let month := padStart 2 48 (String_of_Z (getMonth now + 1)) in
  let day := padStart 2 48 (String_of_Z (getDate now)) in
  year ++ str "." ++ month ++ str "." ++ day.

(** [getCurrentDate]. *)
Definition getCurrentDate : prog jsstring :=
  NewDate (fun now => Ret (date_text now)).

Section Script.
(** See [Stringify]. *)
Variable print_number : jsstring -> jsstring.

(** The parts in which the two revisions of the script differ. *)
Variable BUILD_SCRIPT : jsstring.
Variable compareVersions : jsstring -> jsstring -> sign.
Variable fetchSHA256 : jsstring -> prog (option jsstring).

(** [fetchLatestTailscaleVersion] from the text of the listing on: all
    versions of the page, without repetitions, sorted, and the first of
    them; [null] when the page names no version. *)
Definition latestInListing (html : jsstring) : option jsstring :=
  let versions := matchAll (str ".tgz") html in
  match versions with
  | [] => None
  | _ =>
      let uniqueVersions := sort compareVersions (unique versions) in
      match uniqueVersions with
      | latestVersion :: _ => Some latestVersion
      | [] => None
      end
  end.

(** [fetchLatestTailscaleVersion]: the [catch] block, which asks GitHub,
    is entered when the fetch is rejected, when the response is not
    [ok] and when its body cannot be read. *)
Definition fetchLatestTailscaleVersion : prog (option jsstring) :=
  Fetch TAILSCALE_STABLE_URL (fun response =>
    match response with
    | Response true (Some html) => Ret (latestInListing html)
    | _ => fetchLatestVersionFromGitHub
    end).

(** [writeConfig]. *)
Definition writeConfig (config : json) : prog bool :=
  let content := JSON_stringify4 print_number config in
  WriteTextFile CONFIG_PATH (content ++ [10]) (fun written => Ret written).

(** [buildPlugin]: [sh BUILD_SCRIPT] in the tools directory. *)
Definition buildPlugin : prog bool :=
  CommandOutput (str "sh") [BUILD_SCRIPT] TOOLS_DIR (fun output =>
    match output with
    | Some code => Ret (code =? 0)%Z
    | None => Ret false
    end).

(** The three assignments of [main] to [config]. *)
Definition updated (config : properties) (date latestVersion sha256 : jsstring)
  : properties :=
  obj_set (str "tailscaleSHA256") (JStr sha256)
    (obj_set (str "tailscaleVersion")
       (JStr (str "tailscale_" ++ latestVersion ++ str "_amd64"))
       (obj_set (str "version") (JStr date) config)).

(** [main] from "Update available" on. *)
Definition update (config : properties) (latestVersion : jsstring)
  : prog unit :=
  let amd64Package := str "tailscale_" ++ latestVersion ++ str "_amd64.tgz" in
  sha256 <- fetchSHA256 amd64Package ;;
  match sha256 with
  | None | Some [] => Exit 1
  | Some sha256 =>
      date <- getCurrentDate ;;
      written <- writeConfig (JObj (updated config date latestVersion sha256)) ;;
      if negb written then Exit 1
      else
        built <- buildPlugin ;;
        if negb built then Exit 1 else Ret tt
  end.

(** [main] once the configuration is read.  [extractVersion] calls
    [match] on [config.tailscaleVersion]: when that is not a string
    (the property is missing, or [config] is not an object) the call is
    a [TypeError], which nothing catches. *)
Definition check (config : json) : prog unit :=
  if negb (truthy config) then Exit 1
  else
    match config with
    | JObj props =>
        match obj_get (str "tailscaleVersion") props with
        | Some (JStr tailscaleVersion) =>
            let currentVersion := extractVersion tailscaleVersion in
            latestVersion <- fetchLatestTailscaleVersion ;;
            match latestVersion with
            | None | Some [] => Exit 1
            | Some latestVersion =>
                if jsstring_eqb currentVersion latestVersion then Exit 0
                else update props latestVersion
            end
        | _ => Throw
        end
    | _ => Throw
    end.

(** [main]. *)
Definition main : prog unit :=
  config <- readConfig ;;
  check config.
End Script.

(** *** [src/update.ts] *)
Module UpdateTs.
Definition BUILD_SCRIPT : jsstring := str "./build-plugin.sh".

(** [for (let i = 0; i < 3; i++)] of the comparator, from [i] on with
    [todo] rounds to go. *)
Fixpoint compare_from (aParts bParts : list number) (todo i : nat) : sign :=
  match todo with
  | O => Zero
  | S todo' =>
      if strict_neq (part aParts i) (part bParts i)
      then sign_of_difference (part bParts i) (part aParts i)
      else compare_from aParts bParts todo' (S i)
  end.

(** The comparator handed to [sort], lines 93-103. *)
Definition compareVersions (a b : jsstring) : sign :=
  let aParts := version_parts a in
  let bParts := version_parts b in
  compare_from aParts bParts 3 0.

(** The loop over the lines of the listing, lines 147-155. *)
Fixpoint find_hash (packageName : jsstring) (lines : list jsstring)
  : option jsstring :=
  match lines with
  | [] => None
  | line :: rest =>
      if includes packageName line then
        match match_hex64 line with
        | Some hash => Some hash
        | None => find_hash packageName rest
        end
      else find_hash packageName rest
  end.

(** [fetchSHA256], lines 120-163: the first token of the [.sha256] file
    when the response is [ok]; otherwise the listing is searched. *)
Definition fetchSHA256 (packageName : jsstring) : prog (option jsstring) :=
  let sha256Url := TAILSCALE_STABLE_URL ++ packageName ++ str ".sha256" in
  Fetch sha256Url (fun response =>
    match response with
    | FetchRejected => Ret None
    | Response true (Some text) => Ret (Some (first_token text))
    | Response true None => Ret None
    | Response false _ =>
        Fetch TAILSCALE_STABLE_URL (fun pageResponse =>
          match pageResponse with
          | Response true (Some html) =>
              Ret (find_hash packageName (split_on 10 html))
          | _ => Ret None
          end)
    end).

Definition fetchLatestTailscaleVersion : prog (option jsstring) :=
  fetchLatestTailscaleVersion compareVersions.

Definition main (print_number : jsstring -> jsstring) : prog unit :=
  main print_number BUILD_SCRIPT compareVersions fetchSHA256.
End UpdateTs.

(** *** The second revision, [src/unnamed/part_003] *)
Module Part003.
Definition BUILD_SCRIPT : jsstring := str "build-plugin.sh".

(** [for (let i = 0; i < maxLength; i++)] of the comparator. *)
Fixpoint compare_from (aParts bParts : list number) (todo i : nat) : sign :=
  match todo with
  | O => Zero
  | S todo' =>
      let aPart := or_zero (part aParts i) in
      let bPart := or_zero (part bParts i) in
      if strict_neq aPart bPart
      then sign_of_difference bPart aPart
      else compare_from aParts bParts todo' (S i)
  end.

(** The comparator handed to [sort], lines 94-107. *)
Definition compareVersions (a b : jsstring) : sign :=
  let aParts := version_parts a in
  let bParts := version_parts b in
  let maxLength := Nat.max (List.length aParts) (List.length bParts) in
  compare_from aParts bParts maxLength 0.

(** [fetchSHA256], lines 124-151: the first token of the [.sha256] file,
    which has to be 64 hexadecimal digits. *)
Definition fetchSHA256 (packageName : jsstring) : prog (option jsstring) :=
  let sha256Url := TAILSCALE_STABLE_URL ++ packageName ++ str ".sha256" in
  Fetch sha256Url (fun response =>
    match response with
    | Response true (Some text) =>
        let hash := first_token text in
        if negb (is_sha256_hex hash) then Ret None else Ret (Some hash)
    | _ => Ret None
    end).

Definition fetchLatestTailscaleVersion : prog (option jsstring) :=
  fetchLatestTailscaleVersion compareVersions.

Definition main (print_number : jsstring -> jsstring) : prog unit :=
  main print_number BUILD_SCRIPT compareVersions fetchSHA256.
End Part003.

Local Close Scope prog_scope.

(* ===================================================================== *)
(** ** Vocabulary of the properties *)
(* ===================================================================== *)

(** A program that only fetches: it ends by returning. *)
Inductive fetches_only {A : Type} : prog A -> Prop :=
| fetches_only_ret (a : A) : fetches_only (Ret a)
| fetches_only_fetch (url : jsstring) (k : fetch_result -> prog A) :
    (forall r, fetches_only (k r)) -> fetches_only (Fetch url k).

(** The artifact of a version, and the address of its checksum. *)
Definition artifact (version : jsstring) : jsstring :=
  str "tailscale_" ++ version ++ str "_amd64.tgz".

Definition sha256Url (version : jsstring) : jsstring :=
  TAILSCALE_STABLE_URL ++ artifact version ++ str ".sha256".

(** The text [main] writes to the configuration file. *)
Definition config_text (print_number : jsstring -> jsstring)
  (config : properties) (now : Date) (latestVersion sha256 : jsstring)
  : jsstring :=
  JSON_stringify4 print_number
    (JObj (updated config (date_text now) latestVersion sha256)) ++ [10].

(** What [main] does once the checksum [sha256] is there, at the trace
    [t]: the date, the file write, and the build when the file is
    written. *)
Definition after_checksum (print_number : jsstring -> jsstring)
  (BUILD_SCRIPT : jsstring) (config : properties) (latestVersion : jsstring)
  (w : World) (t : trace) (sha256 : jsstring) : trace * outcome unit :=
  let now := on_newDate w t in
  let t1 := t ++ [EvNewDate now] in
  let content := config_text print_number config now latestVersion sha256 in
  let written := on_writeTextFile w t1 CONFIG_PATH content in
  let t2 := t1 ++ [EvWriteTextFile CONFIG_PATH content written] in
  if written then
    let code := on_commandOutput w t2 (str "sh") [BUILD_SCRIPT] TOOLS_DIR in
    (t2 ++ [EvCommandOutput (str "sh") [BUILD_SCRIPT] TOOLS_DIR code],
     match code with
     | Some code => if (code =? 0)%Z then Returned tt else Exited 1
     | None => Exited 1
     end)
  else (t2, Exited 1).

(** The run of [main] ends with "already up to date": exit status [0]
    at the trace [t], in which no file is written and no build is run. *)
Definition ends_up_to_date (main : prog unit) (w : World) (t : trace) : Prop :=
  run w main [] = (t, Exited 0%Z) /\
  exit_status (snd (run w main [])) = 0%Z /\
  writes (fst (run w main [])) = [] /\
  filter is_command (fst (run w main [])) = [].

(** The run of [main] goes on, from the trace [t], with the update to
    [latest]; the next thing that happens is the request for the checksum
    of its artifact. *)
Definition goes_on_to_update (main update : prog unit) (w : World)
  (t : trace) (latest : jsstring) : Prop :=
  run w main [] = run w update t /\
  exists r es, fst (run w main []) = t ++ EvFetch (sha256Url latest) r :: es.

(** The shape of what the version pattern captures. *)
Definition is_version (v : jsstring) : Prop :=
  exists d1 d2 d3,
    digit_run d1 /\ digit_run d2 /\ digit_run d3 /\
    v = d1 ++ str "." ++ d2 ++ str "." ++ d3.

(** The run of [main] in [w] gets as far as the checksum: the
    configuration [config] is read, the latest version [latest] is
    fetched and differs from the stored one, and the checksum [sha256] of
    its artifact is fetched, which leaves the trace [t]; up to there no
    file is written and no build is run. *)
Inductive fetched_both (fetchLatest : prog (option jsstring))
  (fetchSHA256 : jsstring -> prog (option jsstring)) (w : World)
  (config : properties) (latest sha256 : jsstring) (t : trace) : Prop :=
| fetched_both_intro (t0 t1 : trace) (tailscaleVersion : jsstring) :
    run w readConfig [] = (t0, Returned (JObj config)) ->
    obj_get (str "tailscaleVersion") config = Some (JStr tailscaleVersion) ->
    run w fetchLatest t0 = (t1, Returned (Some latest)) ->
    latest <> [] ->
    extractVersion tailscaleVersion <> latest ->
    run w (fetchSHA256 (artifact latest)) t1 = (t, Returned (Some sha256)) ->
    sha256 <> [] ->
    writes t = [] ->
    filter is_command t = [] ->
    fetched_both fetchLatest fetchSHA256 w config latest sha256 t.

(** In the run of [main] in [w] the configuration file is written at
    most once; when it is, the latest version and its checksum were
    fetched before, the checksum is one that the revision accepts
    ([accepted]), and the one write puts down the whole record, with
    [tailscaleVersion] naming that version and [tailscaleSHA256] holding
    that checksum. *)
Definition writes_config_once (fetchLatest : prog (option jsstring))
  (fetchSHA256 : jsstring -> prog (option jsstring)) (accepted : jsstring -> Prop)
  (main : prog unit) (print_number : jsstring -> jsstring) (w : World) : Prop :=
  writes (fst (run w main [])) = [] \/
  exists config latest sha256 t written rest,
    let now := on_newDate w t in
    let content := config_text print_number config now latest sha256 in
    let record := updated config (date_text now) latest sha256 in
    fetched_both fetchLatest fetchSHA256 w config latest sha256 t /\
    accepted sha256 /\
    fst (run w main [])
    = t ++ EvNewDate now :: EvWriteTextFile CONFIG_PATH content written :: rest /\
    writes rest = [] /\
    writes (fst (run w main [])) = [EvWriteTextFile CONFIG_PATH content written] /\
    content = JSON_stringify4 print_number (JObj record) ++ [10] /\
    obj_get (str "tailscaleVersion") record
    = Some (JStr (str "tailscale_" ++ latest ++ str "_amd64")) /\
    obj_get (str "tailscaleSHA256") record = Some (JStr sha256).

(** In the run of [main] in [w] the build is the last thing that
    happens, right after the one write of the new configuration; when its
    exit code is not [0] the run ends with exit status [1]. *)
Definition build_ends_run (fetchLatest : prog (option jsstring))
  (fetchSHA256 : jsstring -> prog (option jsstring)) (main : prog unit)
  (BUILD_SCRIPT : jsstring) (print_number : jsstring -> jsstring) (w : World)
  : Prop :=
  filter is_command (fst (run w main [])) = [] \/
  exists config latest sha256 t code,
    let now := on_newDate w t in
    let content := config_text print_number config now latest sha256 in
    fetched_both fetchLatest fetchSHA256 w config latest sha256 t /\
    fst (run w main [])
    = t ++ [EvNewDate now; EvWriteTextFile CONFIG_PATH content true;
            EvCommandOutput (str "sh") [BUILD_SCRIPT] TOOLS_DIR code] /\
    writes (fst (run w main [])) = [EvWriteTextFile CONFIG_PATH content true] /\
    (code <> Some 0%Z ->
     snd (run w main []) = Exited 1%Z /\
     exit_status (snd (run w main [])) = 1%Z) /\
    (code = Some 0%Z -> snd (run w main []) = Returned tt).

(** A date of the calendar with a year of four digits, as the getters of
    [Date] give it. *)
Definition calendar_date (now : Date) : Prop :=
  (1000 <= getFullYear now <= 9999)%Z /\
  (0 <= getMonth now <= 11)%Z /\
  (1 <= getDate now <= 31)%Z.

(** [text] is the date [now] as [YYYY.MM.DD]: four digits for the year,
    two for the month (counted from 1) and two for the day. *)
Definition is_YYYY_MM_DD (text : jsstring) (now : Date) : Prop :=
  exists y1 y2 y3 y4 m1 m2 d1 d2 : N,
    (y1 < 10 /\ y2 < 10 /\ y3 < 10 /\ y4 < 10) /\
    (m1 < 10 /\ m2 < 10) /\ (d1 < 10 /\ d2 < 10) /\
    text = [48 + y1; 48 + y2; 48 + y3; 48 + y4; 46;
            48 + m1; 48 + m2; 46; 48 + d1; 48 + d2] /\
    getFullYear now = Z.of_N (1000 * y1 + 100 * y2 + 10 * y3 + y4) /\
    (getMonth now + 1)%Z = Z.of_N (10 * m1 + m2) /\
    getDate now = Z.of_N (10 * d1 + d2).

(** In the run of [main] in [w], the one write of the configuration file
    (when there is one) puts down the stored record with three fields
    set: [version] to the date of the moment, [tailscaleVersion] to the
    identifier of the latest version, and [tailscaleSHA256] to the
    checksum that was fetched; every other field is as it was read. *)
Definition writes_updated_record (fetchLatest : prog (option jsstring))
  (fetchSHA256 : jsstring -> prog (option jsstring)) (main : prog unit)
  (print_number : jsstring -> jsstring) (w : World) : Prop :=
  writes (fst (run w main [])) = [] \/
  exists config latest sha256 t written rest,
    let now := on_newDate w t in
    let record := updated config (date_text now) latest sha256 in
    let content := JSON_stringify4 print_number (JObj record) ++ [10] in
    fetched_both fetchLatest fetchSHA256 w config latest sha256 t /\
    fst (run w main [])
    = t ++ EvNewDate now :: EvWriteTextFile CONFIG_PATH content written :: rest /\
    writes (fst (run w main [])) = [EvWriteTextFile CONFIG_PATH content written] /\
    obj_get (str "version") record = Some (JStr (date_text now)) /\
    (calendar_date now -> is_YYYY_MM_DD (date_text now) now) /\
    obj_get (str "tailscaleVersion") record
    = Some (JStr (str "tailscale_" ++ latest ++ str "_amd64")) /\
    obj_get (str "tailscaleSHA256") record = Some (JStr sha256) /\
    (forall key,
        key <> str "version" -> key <> str "tailscaleVersion" ->
        key <> str "tailscaleSHA256" ->
        obj_get key record = obj_get key config).

(** The components of a dotted version, as integers. *)
Definition components (v : jsstring) : list N :=
  List.map digits_value (split_on 46 v).

(** The dotted-numeric order: the components are compared from the left
    as integers, and a component that is missing at the end counts as
    [0]. *)
Fixpoint dotted_compare (a b : list N) : comparison :=
  match a, b with
  | [], _ => if forallb (N.eqb 0) b then Eq else Lt
  | _, [] => if forallb (N.eqb 0) a then Eq else Gt
  | x :: a', y :: b' =>
      match x ?= y with
      | Eq => dotted_compare a' b'
      | c => c
      end
  end.

Definition version_le (a b : jsstring) : Prop :=
  dotted_compare (components a) (components b) <> Gt.

(** [v] is a greatest element of [versions] in the dotted-numeric order. *)
Definition is_latest_of (v : jsstring) (versions : list jsstring) : Prop :=
  In v versions /\ forall x, In x versions -> version_le x v.

(** Every component is below [2^53], where doubles hold all integers. *)
Definition exact_version (v : jsstring) : Prop :=
  Forall (fun n => n < 2 ^ 53) (components v).

(** A dotted-numeric version: runs of digits with dots between them. *)
Definition dotted_numeric (v : jsstring) : Prop :=
  Forall digit_run (split_on 46 v).

(** The sign a descending comparator returns for [a] against [b]. *)
Definition descending (c : comparison) : sign :=
  match c with
  | Lt => Positive
  | Eq => Zero
  | Gt => Negative
  end.

(** [exact_version] on a list, as a check that computes. *)
Definition exact_versionsb (versions : list jsstring) : bool :=
  forallb (fun v => forallb (fun n => n <? 2 ^ 53) (components v)) versions.

(** The comparators read the version [v] as the three integers it
    names. *)
Definition read_exactly (v : jsstring) : Prop :=
  exists n1 n2 n3,
    components v = [n1; n2; n3] /\
    version_parts v = [Fin n1; Fin n2; Fin n3].

(** The interface [TailscaleConfig] of the script. *)
Record TailscaleConfig : Type := {
  name : jsstring;
  author : jsstring;
  githubRepository : jsstring;
  version : jsstring;
  tailscaleVersion : jsstring;
  tailscaleSHA256 : jsstring;
  packageVersion : jsstring;
  packageSHA256 : jsstring;
  pluginDirectory : jsstring;
  configDirectory : jsstring;
  minver : jsstring
}.

(** The object with the eleven fields of a record. *)
Definition config_object (c : TailscaleConfig) : json :=
  JObj [(str "name", JStr (name c));
        (str "author", JStr (author c));
        (str "githubRepository", JStr (githubRepository c));
        (str "version", JStr (version c));
        (str "tailscaleVersion", JStr (tailscaleVersion c));
        (str "tailscaleSHA256", JStr (tailscaleSHA256 c));
        (str "packageVersion", JStr (packageVersion c));
        (str "packageSHA256", JStr (packageSHA256 c));
        (str "pluginDirectory", JStr (pluginDirectory c));
        (str "configDirectory", JStr (configDirectory c));
        (str "minver", JStr (minver c))].

(** [config.field] for a field that holds a string. *)
Definition string_field (config : json) (field : jsstring) : option jsstring :=
  match config with
  | JObj props =>
      match obj_get field props with
      | Some (JStr s) => Some s
      | _ => None
      end
  | _ => None
  end.

(** The record that an object is read as. *)
Definition as_TailscaleConfig (config : json) : option TailscaleConfig :=
  match string_field config (str "name"),
        string_field config (str "author"),
        string_field config (str "githubRepository"),
        string_field config (str "version"),
        string_field config (str "tailscaleVersion"),
        string_field config (str "tailscaleSHA256"),
        string_field config (str "packageVersion"),
        string_field config (str "packageSHA256"),
        string_field config (str "pluginDirectory"),
        string_field config (str "configDirectory"),
        string_field config (str "minver") with
  | Some f1, Some f2, Some f3, Some f4, Some f5, Some f6, Some f7, Some f8,
    Some f9, Some f10, Some f11 =>
      Some {| name := f1; author := f2; githubRepository := f3;
              version := f4; tailscaleVersion := f5; tailscaleSHA256 := f6;
              packageVersion := f7; packageSHA256 := f8;
              pluginDirectory := f9; configDirectory := f10; minver := f11 |}
  | _, _, _, _, _, _, _, _, _, _, _ => None
  end.

(** An object whose properties all hold strings. *)
Definition string_valued (props : properties) : Prop :=
  Forall (fun kv => exists s, snd kv = JStr s) props.

(** The properties are in the order in which [JSON.parse] builds them one
    after the other: no key twice, array indices first and ascending. *)
Definition in_creation_order (props : properties) : Prop :=
  fold_left (fun acc kv => obj_set (fst kv) (snd kv) acc) props [] = props.

(** A world in which the configuration file holds what was last written
    to it (and [initial] before). *)
Fixpoint last_written (initial : option jsstring) (t : trace) : option jsstring :=
  match t with
  | [] => initial
  | EvWriteTextFile _ content true :: t' => last_written (Some content) t'
  | _ :: t' => last_written initial t'
  end.

Definition file_world (initial : option jsstring) : World :=
  {| on_fetch := fun _ _ => FetchRejected;
     on_readTextFile := fun t _ => last_written initial t;
     on_writeTextFile := fun _ _ _ => true;
     on_newDate := fun _ => {| getFullYear := 2026; getMonth := 0;
                               getDate := 5 |};
     on_commandOutput := fun _ _ _ _ => Some 0%Z |}.

(** What is parsed is shorter than what it is parsed from. *)
Definition consumes {A : Type} (f : A -> jsstring -> parsed json) : Prop :=
  forall a s v r, f a s = Ok v r -> (List.length r < List.length s)%nat.

(** A world that does not look at what happened before: the content of
    the configuration file, the answers of the network, the date, and the
    exit code of the build; writing the file succeeds. *)
Definition plain_world (config : option jsstring)
  (network : jsstring -> fetch_result) (today : Date) (build : option Z)
  : World :=
  {| on_fetch := fun _ url => network url;
     on_readTextFile := fun _ _ => config;
     on_writeTextFile := fun _ _ _ => true;
     on_newDate := fun _ => today;
     on_commandOutput := fun _ _ _ _ => build |}.

(** Every request of a program is one that [ok] allows, whatever the
    answers are. *)
Inductive requests_only {A : Type} (ok : event -> Prop) : prog A -> Prop :=
| requests_only_ret (a : A) : requests_only ok (Ret a)
| requests_only_exit (code : Z) : requests_only ok (Exit code)
| requests_only_throw : requests_only ok Throw
| requests_only_fetch (url : jsstring) (k : fetch_result -> prog A) :
    (forall r, ok (EvFetch url r)) -> (forall r, requests_only ok (k r)) ->
    requests_only ok (Fetch url k)
| requests_only_read (path : jsstring) (k : option jsstring -> prog A) :
    (forall r, ok (EvReadTextFile path r)) ->
    (forall r, requests_only ok (k r)) ->
    requests_only ok (ReadTextFile path k)
| requests_only_write (path content : jsstring) (k : bool -> prog A) :
    (forall r, ok (EvWriteTextFile path content r)) ->
    (forall r, requests_only ok (k r)) ->
    requests_only ok (WriteTextFile path content k)
| requests_only_date (k : Date -> prog A) :
    (forall r, ok (EvNewDate r)) -> (forall r, requests_only ok (k r)) ->
    requests_only ok (NewDate k)
| requests_only_command (command : jsstring) (args : list jsstring)
    (cwd : jsstring) (k : option Z -> prog A) :
    (forall r, ok (EvCommandOutput command args cwd r)) ->
    (forall r, requests_only ok (k r)) ->
    requests_only ok (CommandOutput command args cwd k).

(** What [main] may do once the configuration is read: fetch the listing,
    the release of GitHub or the checksum of an artifact, ask for the
    date, write the configuration file, and run the build script with
    [sh] in the tools directory. *)
Definition after_reading (BUILD_SCRIPT : jsstring) (e : event) : Prop :=
  match e with
  | EvFetch url _ =>
      url = TAILSCALE_STABLE_URL \/ url = GITHUB_API_URL \/
      exists latest, url = sha256Url latest
  | EvReadTextFile _ _ => False
  | EvWriteTextFile path _ _ => path = CONFIG_PATH
  | EvNewDate _ => True
  | EvCommandOutput command args cwd _ =>
      command = str "sh" /\ args = [BUILD_SCRIPT] /\ cwd = TOOLS_DIR
  end.

(** The requests of a run of [main]: the configuration file is read
    first, and what follows is [after_reading]. *)
Definition reads_then (BUILD_SCRIPT : jsstring) (main : prog unit) (w : World)
  : Prop :=
  exists es,
    fst (run w main [])
    = EvReadTextFile CONFIG_PATH (on_readTextFile w [] CONFIG_PATH) :: es /\
    Forall (after_reading BUILD_SCRIPT) es.

(** The run of [main] in [w] stops right after reading the configuration
    file, with the outcome [o]. *)
Definition stops_after_reading (main : prog unit) (w : World)
  (o : outcome unit) : Prop :=
  run w main []
  = ([EvReadTextFile CONFIG_PATH (on_readTextFile w [] CONFIG_PATH)], o).

(** A world in which nothing can be read and nothing is answered. *)
Definition empty_world (config : option jsstring) : World :=
  plain_world config (fun _ => FetchRejected)
    {| getFullYear := 2026; getMonth := 0; getDate := 5 |} None.

(** How a run of [main] can end with exit status [0]: with "already up to
    date", nothing written and nothing built; or by returning, after the
    one write of the configuration file and a build that exited with
    code [0], which is the last event. *)
Definition ended_well (BUILD_SCRIPT : jsstring) (main : prog unit) (w : World)
  : Prop :=
  (snd (run w main []) = Exited 0%Z /\
   writes (fst (run w main [])) = [] /\
   filter is_command (fst (run w main [])) = []) \/
  (snd (run w main []) = Returned tt /\
   exists t content,
     fst (run w main [])
     = t ++ [EvWriteTextFile CONFIG_PATH content true;
             EvCommandOutput (str "sh") [BUILD_SCRIPT] TOOLS_DIR (Some 0%Z)] /\
     writes t = [] /\ filter is_command t = []).

(** The exit status of a run of [main] is [0] or [1], and [0] only when
    the run [ended_well]. *)
Definition exit_status_0_or_1 (BUILD_SCRIPT : jsstring) (main : prog unit)
  (w : World) : Prop :=
  let status := exit_status (snd (run w main [])) in
  (status = 0%Z \/ status = 1%Z) /\
  (status = 0%Z <-> ended_well BUILD_SCRIPT main w).

(** No code unit of [s] is white space. *)
Definition no_space (s : jsstring) : Prop :=
  forallb (fun c => negb (is_space c)) s = true.

(** [tail] is empty or starts with white space. *)
Definition ends_token (tail : jsstring) : Prop :=
  match tail with
  | [] => True
  | c :: _ => is_space c = true
  end.

(** [p] occurs in [s]. *)
Definition substring (p s : jsstring) : Prop :=
  exists pre post, s = pre ++ p ++ post.

(** Every integer that a double holds is below [2^1024]. *)
Definition overflow : N := 2 ^ 1024.

(** A double that [Number] reads from a run of digits. *)
Definition is_double (x : number) : Prop :=
  match x with
  | Fin n => n < overflow
  | Infinity => True
  | NaN => False
  end.

(** The place of a double among the others: [Infinity] is above every
    integer. *)
Definition magnitude (x : number) : N :=
  match x with
  | Fin n => n
  | Infinity => overflow
  | NaN => 0
  end.

(** The components of a version as the comparators see them: after
    [Number] has rounded them. *)
Definition doubles (v : jsstring) : list N :=
  List.map magnitude (version_parts v).

(** [v] is the first among the greatest of [versions], in the
    dotted-numeric order of the rounded components: what stands before it
    is smaller, what stands after it is not greater. *)
Definition first_greatest (v : jsstring) (versions : list jsstring) : Prop :=
  exists before after,
    versions = before ++ v :: after /\
    (forall x, In x before -> dotted_compare (doubles x) (doubles v) = Lt) /\
    (forall x, In x after -> dotted_compare (doubles x) (doubles v) <> Gt).

(** The members of [props] set one after the other on [acc]: the way
    [JSON.parse] builds an object. *)
Definition set_members (props acc : properties) : properties :=
  fold_left (fun acc kv => obj_set (fst kv) (snd kv) acc) props acc.

(** No key of the object occurs twice. *)
Definition distinct_keys (props : properties) : Prop :=
  NoDup (List.map fst props).

(** The keys of an object are distinct; every other value passes. *)
Definition distinct_at_top (v : json) : Prop :=
  match v with
  | JObj props => distinct_keys props
  | _ => True
  end.

(** [a < b] on strings: code unit by code unit, a proper prefix first. *)
Fixpoint jsstring_ltb (a b : jsstring) : bool :=
  match a, b with
  | _, [] => false
  | [], _ :: _ => true
  | x :: a', y :: b' => (x <? y) || ((x =? y) && jsstring_ltb a' b')
  end.

(** The day [a] is before the day [b]. *)
Definition earlier (a b : Date) : Prop :=
  (getFullYear a < getFullYear b)%Z \/
  (getFullYear a = getFullYear b /\ (getMonth a < getMonth b)%Z) \/
  (getFullYear a = getFullYear b /\ getMonth a = getMonth b /\
   (getDate a < getDate b)%Z).

(** A world in which the configuration file cannot be written. *)
Definition read_only_world (config : option jsstring)
  (network : jsstring -> fetch_result) (today : Date) : World :=
  {| on_fetch := fun _ url => network url;
     on_readTextFile := fun _ _ => config;
     on_writeTextFile := fun _ _ _ => false;
     on_newDate := fun _ => today;
     on_commandOutput := fun _ _ _ _ => Some 0%Z |}.

(** The listing could not be fetched: the request was rejected, the
    response was not [ok], or its body could not be read. *)
Definition listing_failed (r : fetch_result) : Prop :=
  forall html, r <> Response true (Some html).

(** The run of an update in which everything goes well: the stored
    configuration [config] is read from the text [content], the listing
    [html] is fetched, the checksum file [text] of [latest] is fetched,
    the clock is read, the new configuration is written, and the build
    [BUILD_SCRIPT] exits with code [0]. *)
Definition update_trace (print_number : jsstring -> jsstring)
  (BUILD_SCRIPT : jsstring) (w : World) (content : jsstring)
  (config : properties) (html latest text : jsstring) : trace :=
  let t2 := [EvReadTextFile CONFIG_PATH (Some content);
             EvFetch TAILSCALE_STABLE_URL (Response true (Some html));
             EvFetch (sha256Url latest) (Response true (Some text))] in
  let now := on_newDate w t2 in
  t2 ++ [EvNewDate now;
         EvWriteTextFile CONFIG_PATH
           (config_text print_number config now latest (first_token text))
           true;
         EvCommandOutput (str "sh") [BUILD_SCRIPT] TOOLS_DIR (Some 0%Z)].

(** The world answers as in [update_trace], step by step. *)
Definition answers_update (print_number : jsstring -> jsstring)
  (BUILD_SCRIPT : jsstring) (w : World) (content : jsstring)
  (config : properties) (html latest text : jsstring) : Prop :=
  let t0 := [EvReadTextFile CONFIG_PATH (Some content)] in
  let t1 := t0 ++ [EvFetch TAILSCALE_STABLE_URL (Response true (Some html))] in
  let t2 := t1 ++ [EvFetch (sha256Url latest) (Response true (Some text))] in
  let now := on_newDate w t2 in
  let t3 := t2 ++ [EvNewDate now] in
  let new_text :=
    config_text print_number config now latest (first_token text) in
  let t4 := t3 ++ [EvWriteTextFile CONFIG_PATH new_text true] in
  on_readTextFile w [] CONFIG_PATH = Some content /\
  on_fetch w t0 TAILSCALE_STABLE_URL = Response true (Some html) /\
  on_fetch w t1 (sha256Url latest) = Response true (Some text) /\
  on_writeTextFile w t3 CONFIG_PATH new_text = true /\
  on_commandOutput w t4 (str "sh") [BUILD_SCRIPT] TOOLS_DIR = Some 0%Z.

(** Sample data. *)
Module Sample.
Definition today : Date :=
  {| getFullYear := 2026; getMonth := 0; getDate := 5 |}.

Definition config_props : properties :=
  [(str "name", JStr (str "tailscale"));
   (str "version", JStr (str "2025.11.30"));
   (str "tailscaleVersion", JStr (str "tailscale_1.90.6_amd64"));
   (str "tailscaleSHA256", JStr (str "00"));
   (str "minver", JStr (str "6.12.0"))].

(** The configuration file, as [JSON.stringify] lays it out. *)
Definition config : jsstring :=
  JSON_stringify4 (fun lexeme => lexeme) (JObj config_props) ++ [10].

Definition listing : jsstring :=
  str "<a href=tailscale_1.90.6_amd64.tgz>tailscale_1.90.6_amd64.tgz</a> <a href=tailscale_1.92.0_amd64.tgz>tailscale_1.92.0_amd64.tgz</a> <a href=tailscale_1.90.10_amd64.tgz>tailscale_1.90.10_amd64.tgz</a>".

Definition same_listing : jsstring :=
  str "<a href=tailscale_1.90.6_amd64.tgz>tailscale_1.90.6_amd64.tgz</a>".

Definition digest : jsstring :=
  str "0123456789abcdef0123456789abcdef0123456789abcdef0123456789ABCDEF".

Definition checksum_file : jsstring :=
  digest ++ str "  tailscale_1.92.0_amd64.tgz" ++ [10].

(** Two answers of the release API. *)
Definition release_of (tag : jsstring) : jsstring :=
  JSON_stringify4 (fun lexeme => lexeme) (JObj [(str "tag_name", JStr tag)]).
Definition release : jsstring := release_of (str "v1.90.6").
Definition release_V : jsstring := release_of (str "V1.90.6").

(** The network with the listing [page] and the checksum file [sums]. *)
Definition network (page sums : jsstring) (url : jsstring) : fetch_result :=
  if jsstring_eqb url TAILSCALE_STABLE_URL then Response true (Some page)
  else if jsstring_eqb url (sha256Url (str "1.92.0"))
       then Response true (Some sums)
  else Response false None.

(** The world in which an update is found; [build] is the exit code of
    the build. *)
Definition update_world (build : Z) : World :=
  plain_world (Some config) (network listing checksum_file) today
    (Some build).

(** The world in which the stored version is the latest one. *)
Definition up_to_date_world : World :=
  plain_world (Some config) (network same_listing checksum_file) today
    (Some 0%Z).

(** The world in which the checksum file holds something else. *)
Definition bad_checksum_world : World :=
  plain_world (Some config)
    (network listing (str "notahash  tailscale_1.92.0_amd64.tgz")) today
    (Some 0%Z).

(** A record as the repository stores it. *)
Definition record : TailscaleConfig :=
  {| name := str "tailscale";
     author := str "Louis Lam";
     githubRepository := str "louislam/unraid-6.12-tailscale";
     version := str "2025.11.30";
     tailscaleVersion := str "tailscale_1.90.6_amd64";
     tailscaleSHA256 := digest;
     packageVersion := str "2025.11.30";
     packageSHA256 := digest;
     pluginDirectory := str "/usr/local/emhttp/plugins/tailscale";
     configDirectory := str "/boot/config/plugins/tailscale";
     minver := str "6.12.0" |}.

(** A stored record whose [tailscaleVersion] does not hold the pattern,
    and the world with it. *)
Definition odd_props : properties :=
  [(str "name", JStr (str "tailscale"));
   (str "tailscaleVersion", JStr (str "tailscale-latest"))].

Definition odd_world : World :=
  plain_world
    (Some (JSON_stringify4 (fun lexeme => lexeme) (JObj odd_props) ++ [10]))
    (network listing checksum_file) today (Some 0%Z).

(** A listing with two versions that differ beyond the 53rd bit. *)
Definition huge_listing : jsstring :=
  str "tailscale_1.0.9007199254740992_amd64.tgz tailscale_1.0.9007199254740993_amd64.tgz".

(** The world in which only GitHub answers, with the body [body]. *)
Definition github_world (body : jsstring) : World :=
  plain_world (Some config)
    (fun url => if jsstring_eqb url GITHUB_API_URL
                then Response true (Some body) else FetchRejected)
    today (Some 0%Z).
End Sample.

(* ===================================================================== *)
(** * Properties *)
(* ===================================================================== *)

(** ** Strings and the version pattern *)

(** Concatenations of literals and variables, brought to one shape. *)
Ltac app_norm :=
  cbn; repeat (rewrite <- app_assoc; cbn); rewrite ?app_nil_r.

Lemma jsstring_eqb_eq (a b : jsstring) : jsstring_eqb a b = true <-> a = b.
Proof.
  revert b; induction a as [|x a IH]; intros [|y b]; simpl; split;
    try congruence; try reflexivity.
  - intros H. apply andb_prop in H as [Hx Hab].
    apply N.eqb_eq in Hx. apply IH in Hab. congruence.
  - intros H. injection H as -> ->.
    rewrite N.eqb_refl. simpl. now apply IH.
Qed.

Lemma jsstring_eqb_refl (a : jsstring) : jsstring_eqb a a = true.
Proof. now apply jsstring_eqb_eq. Qed.

Lemma jsstring_eqb_neq (a b : jsstring) : jsstring_eqb a b = false <-> a <> b.
Proof.
  split.
  - intros H E. apply jsstring_eqb_eq in E. congruence.
  - intros H. destruct (jsstring_eqb a b) eqn:E; [|reflexivity].
    apply jsstring_eqb_eq in E. contradiction.
Qed.

Lemma strip_prefix_app (p s : jsstring) : strip_prefix p (p ++ s) = Some s.
Proof.
  induction p as [|c p IH]; simpl; [reflexivity|].
  now rewrite N.eqb_refl.
Qed.

Lemma strip_prefix_spec (p s r : jsstring) :
  strip_prefix p s = Some r -> s = p ++ r.
Proof.
  revert s; induction p as [|c p IH]; intros s; simpl.
  - congruence.
  - destruct s as [|d s]; [discriminate|].
    destruct (N.eqb c d) eqn:E; [|discriminate].
    apply N.eqb_eq in E. subst d. intros H. f_equal. now apply IH.
Qed.

Lemma span_digits_spec (s d r : jsstring) :
  span_digits s = (d, r) ->
  s = d ++ r /\ Forall (fun c => is_digit c = true) d /\ stops r.
Proof.
  revert d r; induction s as [|c s IH]; intros d r; cbn [span_digits].
  - intros H. injection H as <- <-. repeat split; constructor.
  - destruct (is_digit c) eqn:E.
    + destruct (span_digits s) as [d' r'] eqn:Es.
      intros H. injection H as <- <-.
      destruct (IH d' r' eq_refl) as (-> & Hd & Hr).
      repeat split; [constructor|]; assumption.
    + intros H. injection H as <- <-. repeat split; [constructor|exact E].
Qed.

Lemma span_digits_app (d r : jsstring) :
  Forall (fun c => is_digit c = true) d -> stops r ->
  span_digits (d ++ r) = (d, r).
Proof.
  intros Hd Hr. induction Hd as [|c d Hc Hd IH]; cbn [span_digits app].
  - destruct r as [|c r]; [reflexivity|]. cbn [span_digits].
    unfold stops in Hr. now rewrite Hr.
  - now rewrite Hc, IH.
Qed.

Lemma digits1_spec (s d r : jsstring) :
  digits1 s = Some (d, r) -> s = d ++ r /\ digit_run d /\ stops r.
Proof.
  unfold digits1. destruct (span_digits s) as [d' r'] eqn:E.
  apply span_digits_spec in E as (-> & Hd & Hr).
  destruct d' as [|c d']; [discriminate|].
  intros H. injection H as <- <-.
  repeat split; try assumption. discriminate.
Qed.

Lemma digits1_app (d r : jsstring) :
  digit_run d -> stops r -> digits1 (d ++ r) = Some (d, r).
Proof.
  intros [Hne Hd] Hr. unfold digits1. rewrite span_digits_app by assumption.
  destruct d; [contradiction|reflexivity].
Qed.

Lemma match_version_at_complete (tail d1 d2 d3 post : jsstring) :
  digit_run d1 -> digit_run d2 -> digit_run d3 ->
  match_version_at tail
    (str "tailscale_" ++ d1 ++ str "." ++ d2 ++ str "." ++ d3
       ++ (str "_amd64" ++ tail) ++ post)
  = Some (d1 ++ str "." ++ d2 ++ str "." ++ d3, post).
Proof.
  intros H1 H2 H3. unfold match_version_at.
  rewrite strip_prefix_app.
  rewrite digits1_app by (assumption || reflexivity).
  rewrite strip_prefix_app.
  rewrite digits1_app by (assumption || reflexivity).
  rewrite strip_prefix_app.
  rewrite digits1_app by (assumption || reflexivity).
  now rewrite strip_prefix_app.
Qed.

Lemma match_version_at_sound (tail s v rest : jsstring) :
  match_version_at tail s = Some (v, rest) ->
  exists d1 d2 d3,
    digit_run d1 /\ digit_run d2 /\ digit_run d3 /\
    v = d1 ++ str "." ++ d2 ++ str "." ++ d3 /\
    s = str "tailscale_" ++ v ++ (str "_amd64" ++ tail) ++ rest.
Proof.
  unfold match_version_at.
  destruct (strip_prefix (str "tailscale_") s) as [s1|] eqn:E0; [|discriminate].
  destruct (digits1 s1) as [[d1 s2]|] eqn:E1; [|discriminate].
  destruct (strip_prefix (str ".") s2) as [s3|] eqn:E2; [|discriminate].
  destruct (digits1 s3) as [[d2 s4]|] eqn:E3; [|discriminate].
  destruct (strip_prefix (str ".") s4) as [s5|] eqn:E4; [|discriminate].
  destruct (digits1 s5) as [[d3 s6]|] eqn:E5; [|discriminate].
  destruct (strip_prefix (str "_amd64" ++ tail) s6) as [s7|] eqn:E6;
    [|discriminate].
  intros H. injection H as <- <-.
  apply strip_prefix_spec in E0, E2, E4, E6.
  apply digits1_spec in E1 as (-> & H1 & _).
  apply digits1_spec in E3 as (-> & H2 & _).
  apply digits1_spec in E5 as (-> & H3 & _).
  exists d1, d2, d3. do 4 (split; [assumption || reflexivity|]).
  subst. now app_norm.
Qed.

Lemma occurs_at_front (s d1 d2 d3 post : jsstring) :
  occurs_at s [] d1 d2 d3 post ->
  match_version_at [] s = Some (d1 ++ str "." ++ d2 ++ str "." ++ d3, post).
Proof.
  intros (H1 & H2 & H3 & ->). simpl app at 1.
  rewrite <- (match_version_at_complete [] d1 d2 d3 post H1 H2 H3).
  now rewrite app_nil_r.
Qed.

Lemma regex_match_leftmost (s pre d1 d2 d3 post : jsstring) :
  occurs_at s pre d1 d2 d3 post -> leftmost s pre ->
  regex_match [] s = Some (d1 ++ str "." ++ d2 ++ str "." ++ d3).
Proof.
  revert s; induction pre as [|c pre IH]; intros s Hocc Hleft.
  - apply occurs_at_front in Hocc.
    destruct s; cbn [regex_match]; now rewrite Hocc.
  - destruct Hocc as (H1 & H2 & H3 & ->).
    change ((c :: pre) ++ ?x) with (c :: (pre ++ x)).
    cbn [regex_match].
    destruct (match_version_at [] (c :: _)) as [[v rest]|] eqn:E.
    + apply match_version_at_sound in E
        as (e1 & e2 & e3 & G1 & G2 & G3 & -> & E).
      exfalso.
      assert (Hocc' : occurs_at (c :: pre ++ str "tailscale_" ++ d1 ++ str "."
                                   ++ d2 ++ str "." ++ d3 ++ str "_amd64" ++ post)
                        [] e1 e2 e3 rest).
      { do 3 (split; [assumption|]).
        rewrite E. now app_norm. }
      apply Hleft in Hocc'. simpl in Hocc'. lia.
    + apply IH.
      * now do 3 (split; [assumption|]).
      * intros pre' e1 e2 e3 post' (G1 & G2 & G3 & E').
        assert (Hocc' : occurs_at (c :: pre ++ str "tailscale_" ++ d1 ++ str "."
                                   ++ d2 ++ str "." ++ d3 ++ str "_amd64" ++ post)
                          (c :: pre') e1 e2 e3 post').
        { do 3 (split; [assumption|]).
          rewrite E'. reflexivity. }
        apply Hleft in Hocc'. simpl in Hocc'. lia.
Qed.

Lemma regex_match_sound (s v : jsstring) :
  regex_match [] s = Some v ->
  exists pre d1 d2 d3 post,
    occurs_at s pre d1 d2 d3 post /\ v = d1 ++ str "." ++ d2 ++ str "." ++ d3.
Proof.
  induction s as [|c s IH]; cbn [regex_match].
  - destruct (match_version_at [] []) as [[v' rest]|] eqn:E; [|discriminate].
    vm_compute in E. discriminate.
  - destruct (match_version_at [] (c :: s)) as [[v' rest]|] eqn:E.
    + intros H. injection H as <-.
      apply match_version_at_sound in E
        as (d1 & d2 & d3 & G1 & G2 & G3 & -> & E).
      exists [], d1, d2, d3, rest. split; [|reflexivity].
      do 3 (split; [assumption|]).
      rewrite E. now app_norm.
    + intros H. destruct (IH H) as (pre & d1 & d2 & d3 & post & Hocc & ->).
      exists (c :: pre), d1, d2, d3, post. split; [|reflexivity].
      destruct Hocc as (G1 & G2 & G3 & ->).
      now do 3 (split; [assumption|]).
Qed.

Lemma regex_match_none (s : jsstring) :
  regex_match [] s = None -> ~ contains_version s.
Proof.
  induction s as [|c s IH]; cbn [regex_match].
  - intros _ (pre & d1 & d2 & d3 & post & _ & _ & _ & E).
    destruct pre; discriminate.
  - destruct (match_version_at [] (c :: s)) as [[v' rest]|] eqn:E;
      [discriminate|].
    intros H (pre & d1 & d2 & d3 & post & Hocc).
    destruct pre as [|c' pre].
    + apply occurs_at_front in Hocc. congruence.
    + apply (IH H). exists pre, d1, d2, d3, post.
      destruct Hocc as (G1 & G2 & G3 & E').
      do 3 (split; [assumption|]).
      simpl in E'. now injection E'.
Qed.

Lemma version_nonempty (d1 d2 d3 : jsstring) :
  d1 ++ str "." ++ d2 ++ str "." ++ d3 <> [].
Proof. intros H. apply app_eq_nil in H as [_ H]. discriminate. Qed.

Lemma extractVersion_leftmost (s pre d1 d2 d3 post : jsstring) :
  occurs_at s pre d1 d2 d3 post -> leftmost s pre ->
  extractVersion s = d1 ++ str "." ++ d2 ++ str "." ++ d3.
Proof.
  intros Hocc Hleft. unfold extractVersion.
  now rewrite (regex_match_leftmost _ _ _ _ _ _ Hocc Hleft).
Qed.

Lemma extractVersion_empty_iff (s : jsstring) :
  extractVersion s = [] <-> ~ contains_version s.
Proof.
  unfold extractVersion. destruct (regex_match [] s) as [v|] eqn:E.
  - apply regex_match_sound in E as (pre & d1 & d2 & d3 & post & Hocc & ->).
    split.
    + intros H. now apply version_nonempty in H.
    + intros H. exfalso. apply H. now exists pre, d1, d2, d3, post.
  - split; [intros _; now apply regex_match_none|reflexivity].
Qed.

(** C10: [extractVersion] searches for its pattern anywhere in the input.
    When the input holds [tailscale_<d1>.<d2>.<d3>_amd64] after some
    prefix, and no occurrence of the pattern starts earlier, the result is
    [<d1>.<d2>.<d3>]; the result is the empty string exactly when the input
    holds no occurrence at all. *)
Theorem extractVersion_unanchored :
  (forall s pre d1 d2 d3 post,
      occurs_at s pre d1 d2 d3 post -> leftmost s pre ->
      extractVersion s = d1 ++ str "." ++ d2 ++ str "." ++ d3) /\
  (forall s, extractVersion s = [] <-> ~ contains_version s).
Proof.
  split.
  - exact extractVersion_leftmost.
  - exact extractVersion_empty_iff.
Qed.

(** ** Running programs *)

Lemma run_bind {A B : Type} (w : World) (p : prog A) (f : A -> prog B)
  (t : trace) :
  run w (bind p f) t =
  match run w p t with
  | (t', Returned a) => run w (f a) t'
  | (t', Exited code) => (t', Exited code)
  | (t', Uncaught) => (t', Uncaught)
  end.
Proof.
  revert t. induction p as [a|url k IH|path k IH|path content k IH|k IH
                            |c a d k IH|code|]; intros t; simpl; auto.
Qed.

(** A run only adds to the trace. *)
Lemma run_extends {A : Type} (w : World) (p : prog A) (t : trace) :
  exists es, fst (run w p t) = t ++ es.
Proof.
  revert t. induction p as [a|url k IH|path k IH|path content k IH|k IH
                            |c a d k IH|code|]; intros t; simpl;
    try (exists []; now rewrite app_nil_r);
    match goal with
    | |- context [run w (k ?r) (t ++ [?e])] =>
        destruct (IH r (t ++ [e])) as [es ->]; exists (e :: es);
        now rewrite <- app_assoc
    end.
Qed.

Lemma run_fetches_only {A : Type} (w : World) (p : prog A) (t : trace) :
  fetches_only p ->
  exists es a,
    run w p t = (t ++ es, Returned a) /\ forallb is_fetch es = true.
Proof.
  intros Hp. revert t. induction Hp as [a|url k Hk IH]; intros t; simpl.
  - exists [], a. now rewrite app_nil_r.
  - destruct (IH (on_fetch w t url) (t ++ [EvFetch url (on_fetch w t url)]))
      as (es & a & -> & Hes).
    exists (EvFetch url (on_fetch w t url) :: es), a.
    now rewrite <- app_assoc.
Qed.

Lemma fetchLatestVersionFromGitHub_fetches_only :
  fetches_only fetchLatestVersionFromGitHub.
Proof.
  constructor. intros [|[] [body|]]; try constructor.
  destruct (JSON_parse body) as [[| | | | |data]|]; try constructor.
  destruct (obj_get (str "tag_name") data) as [[| | |tag| |]|]; constructor.
Qed.

Lemma fetchLatestTailscaleVersion_fetches_only
  (compareVersions : jsstring -> jsstring -> sign) :
  fetches_only (fetchLatestTailscaleVersion compareVersions).
Proof.
  constructor. intros [|[] [body|]];
    try apply fetchLatestVersionFromGitHub_fetches_only.
  constructor.
Qed.

Lemma UpdateTs_fetchSHA256_fetches_only (packageName : jsstring) :
  fetches_only (UpdateTs.fetchSHA256 packageName).
Proof.
  constructor. intros [|[] [body|]]; try constructor;
    intros [|[] [html|]]; constructor.
Qed.

Lemma Part003_fetchSHA256_fetches_only (packageName : jsstring) :
  fetches_only (Part003.fetchSHA256 packageName).
Proof.
  constructor. intros [|[] [body|]]; try constructor.
  cbv zeta. destruct (negb (is_sha256_hex (first_token body))); constructor.
Qed.

(** What the second revision returns as a checksum is 64 hexadecimal
    digits. *)
Lemma Part003_fetchSHA256_hex (w : World) (t : trace) (packageName : jsstring)
  (t' : trace) (sha256 : jsstring) :
  run w (Part003.fetchSHA256 packageName) t = (t', Returned (Some sha256)) ->
  is_sha256_hex sha256 = true.
Proof.
  unfold Part003.fetchSHA256. cbv zeta. cbn [run].
  destruct (on_fetch w t _) as [|[] [text|]]; cbn [run]; try discriminate.
  destruct (is_sha256_hex (first_token text)) eqn:E; cbn [negb run];
    [|discriminate].
  intros H. injection H as _ <-. exact E.
Qed.

Lemma filter_all_false {A : Type} (f g : A -> bool) (l : list A) :
  forallb g l = true -> (forall x, g x = true -> f x = false) ->
  filter f l = [].
Proof.
  intros Hl Hfg. induction l as [|x l IH]; simpl in *; [reflexivity|].
  apply andb_prop in Hl as [Hx Hl]. now rewrite (Hfg x Hx), IH.
Qed.

Lemma fetch_not_write (e : event) : is_fetch e = true -> is_write e = false.
Proof. now destruct e. Qed.

Lemma fetch_not_command (e : event) :
  is_fetch e = true -> is_command e = false.
Proof. now destruct e. Qed.

(** ** The fallback source of the version *)

Lemma strip_v_v (rest : jsstring) : strip_v (118 :: rest) = rest.
Proof. reflexivity. Qed.

Lemma strip_v_other (tagName : jsstring) :
  (forall rest, tagName <> 118 :: rest) -> strip_v tagName = tagName.
Proof.
  intros H. destruct tagName as [|c rest]; [reflexivity|].
  unfold strip_v. change (str "v") with [118]. cbn [strip_prefix].
  destruct (N.eqb_spec 118 c) as [<-|_]; [|reflexivity].
  now destruct (H rest).
Qed.

(** C7, as the code has it: the fallback returns the release tag of the
    metadata API with a leading lower-case [v] removed, and any other tag
    as it is; so a tag that starts with a digit is returned unchanged. *)
Theorem github_fallback_strips_v
  (w : World) (t : trace) (body : jsstring) (data : properties)
  (tagName : jsstring) :
  on_fetch w t GITHUB_API_URL = Response true (Some body) ->
  JSON_parse body = Some (JObj data) ->
  obj_get (str "tag_name") data = Some (JStr tagName) ->
  exists version,
    run w fetchLatestVersionFromGitHub t
    = (t ++ [EvFetch GITHUB_API_URL (Response true (Some body))],
       Returned (Some version)) /\
    (forall rest, tagName = str "v" ++ rest -> version = rest) /\
    ((forall rest, tagName <> str "v" ++ rest) -> version = tagName) /\
    (forall c rest, tagName = c :: rest -> is_digit c = true ->
                    version = tagName).
Proof.
  intros Hfetch Hparse Htag. exists (strip_v tagName). split; [|split; [|split]].
  - unfold fetchLatestVersionFromGitHub. cbn [run].
    now rewrite Hfetch, Hparse, Htag.
  - intros rest ->. reflexivity.
  - intros H. now apply strip_v_other.
  - intros c rest -> Hc. apply strip_v_other. intros rest' E.
    injection E as -> _. discriminate.
Qed.

Lemma github_fallback_strips_v_witness :
  exists version,
    run (Sample.github_world Sample.release) fetchLatestVersionFromGitHub []
    = ([EvFetch GITHUB_API_URL (Response true (Some Sample.release))],
       Returned (Some version)) /\
    (forall rest, str "v1.90.6" = str "v" ++ rest -> version = rest) /\
    ((forall rest, str "v1.90.6" <> str "v" ++ rest) ->
     version = str "v1.90.6") /\
    (forall c rest, str "v1.90.6" = c :: rest -> is_digit c = true ->
                    version = str "v1.90.6").
Proof.
  apply (github_fallback_strips_v (Sample.github_world Sample.release) []
           Sample.release [(str "tag_name", JStr (str "v1.90.6"))]
           (str "v1.90.6")); reflexivity.
Defined.

(** C7, as the specification words it, fails: the first character of the
    tag [V1.90.6] is not a digit, and the fallback returns the tag whole,
    not [1.90.6]. *)
Lemma github_fallback_keeps_other_prefix :
  is_digit 86 = false /\
  run (Sample.github_world Sample.release_V) fetchLatestVersionFromGitHub []
  = ([EvFetch GITHUB_API_URL (Response true (Some Sample.release_V))],
     Returned (Some (86 :: str "1.90.6"))) /\
  86 :: str "1.90.6" <> str "1.90.6".
Proof. repeat split; try reflexivity. discriminate. Qed.

(** ** Objects *)

Lemma obj_get_replace_same (key : jsstring) (v : json) (props : properties) :
  obj_get key props <> None -> obj_get key (obj_replace key v props) = Some v.
Proof.
  induction props as [|[k v'] ps IH]; simpl; [congruence|].
  destruct (jsstring_eqb k key) eqn:E; simpl; rewrite E; auto.
Qed.

Lemma obj_get_replace_other (key key' : jsstring) (v : json)
  (props : properties) :
  key <> key' -> obj_get key' (obj_replace key v props) = obj_get key' props.
Proof.
  intros Hne. induction props as [|[k v'] ps IH]; simpl; [reflexivity|].
  destruct (jsstring_eqb k key) eqn:E; simpl.
  - apply jsstring_eqb_eq in E. subst k.
    apply jsstring_eqb_neq in Hne. now rewrite Hne.
  - now rewrite IH.
Qed.

Lemma obj_get_insert_index_same (n : N) (key : jsstring) (v : json)
  (props : properties) :
  obj_get key props = None ->
  obj_get key (obj_insert_index n key v props) = Some v.
Proof.
  induction props as [|[k v'] ps IH]; simpl.
  - now rewrite jsstring_eqb_refl.
  - destruct (jsstring_eqb k key) eqn:E; [discriminate|]. intros H.
    destruct (array_index k) as [m|]; [destruct (m <? n)|]; simpl;
      rewrite ?E, ?jsstring_eqb_refl; auto.
Qed.

Lemma obj_get_insert_index_other (n : N) (key key' : jsstring) (v : json)
  (props : properties) :
  key <> key' ->
  obj_get key' (obj_insert_index n key v props) = obj_get key' props.
Proof.
  intros Hne. apply jsstring_eqb_neq in Hne.
  induction props as [|[k v'] ps IH]; simpl.
  - now rewrite Hne.
  - destruct (array_index k) as [m|]; [destruct (m <? n)|]; simpl;
      rewrite ?Hne, ?IH; reflexivity.
Qed.

Lemma obj_get_app (key : jsstring) (props more : properties) :
  obj_get key (props ++ more) =
  match obj_get key props with
  | Some v => Some v
  | None => obj_get key more
  end.
Proof.
  induction props as [|[k v'] ps IH]; simpl; [reflexivity|].
  now destruct (jsstring_eqb k key).
Qed.

(** After [obj[key] = v], [obj[key]] is [v]. *)
Lemma obj_get_set_same (key : jsstring) (v : json) (props : properties) :
  obj_get key (obj_set key v props) = Some v.
Proof.
  unfold obj_set. destruct (obj_get key props) as [v'|] eqn:E.
  - apply obj_get_replace_same. congruence.
  - destruct (array_index key) as [n|].
    + now apply obj_get_insert_index_same.
    + rewrite obj_get_app, E. simpl. now rewrite jsstring_eqb_refl.
Qed.

(** [obj[key] = v] leaves the other properties as they are. *)
Lemma obj_get_set_other (key key' : jsstring) (v : json) (props : properties) :
  key <> key' -> obj_get key' (obj_set key v props) = obj_get key' props.
Proof.
  intros Hne. unfold obj_set. destruct (obj_get key props) as [v'|] eqn:E.
  - now apply obj_get_replace_other.
  - destruct (array_index key) as [n|].
    + now apply obj_get_insert_index_other.
    + rewrite obj_get_app. simpl. apply jsstring_eqb_neq in Hne.
      rewrite Hne. now destruct (obj_get key' props).
Qed.

Lemma updated_version (config : properties) (date latest sha256 : jsstring) :
  obj_get (str "version") (updated config date latest sha256)
  = Some (JStr date).
Proof.
  unfold updated.
  rewrite !obj_get_set_other by (vm_compute; discriminate).
  apply obj_get_set_same.
Qed.

Lemma updated_tailscaleVersion (config : properties)
  (date latest sha256 : jsstring) :
  obj_get (str "tailscaleVersion") (updated config date latest sha256)
  = Some (JStr (str "tailscale_" ++ latest ++ str "_amd64")).
Proof.
  unfold updated.
  rewrite obj_get_set_other by (vm_compute; discriminate).
  apply obj_get_set_same.
Qed.

Lemma updated_tailscaleSHA256 (config : properties)
  (date latest sha256 : jsstring) :
  obj_get (str "tailscaleSHA256") (updated config date latest sha256)
  = Some (JStr sha256).
Proof. unfold updated. apply obj_get_set_same. Qed.

Lemma updated_other (config : properties) (date latest sha256 key : jsstring) :
  key <> str "version" -> key <> str "tailscaleVersion" ->
  key <> str "tailscaleSHA256" ->
  obj_get key (updated config date latest sha256) = obj_get key config.
Proof.
  intros H1 H2 H3. unfold updated.
  rewrite !obj_get_set_other by congruence. reflexivity.
Qed.

(** ** The steps of [main] *)

Lemma run_readConfig (w : World) (t : trace) :
  exists config,
    run w readConfig t
    = (t ++ [EvReadTextFile CONFIG_PATH (on_readTextFile w t CONFIG_PATH)],
       Returned config).
Proof.
  unfold readConfig. cbn [run].
  destruct (on_readTextFile w t CONFIG_PATH) as [content|];
    [destruct (JSON_parse content)|]; eexists; reflexivity.
Qed.

Section Steps.
Variable print_number : jsstring -> jsstring.
Variable BUILD_SCRIPT : jsstring.
Variable compareVersions : jsstring -> jsstring -> sign.
Variable fetchSHA256 : jsstring -> prog (option jsstring).

Lemma run_update (w : World) (config : properties) (latest : jsstring)
  (t : trace) :
  run w (update print_number BUILD_SCRIPT fetchSHA256 config latest) t =
  match run w (fetchSHA256 (artifact latest)) t with
  | (t1, Returned (Some (c :: s))) =>
      after_checksum print_number BUILD_SCRIPT config latest w t1 (c :: s)
  | (t1, Returned _) => (t1, Exited 1%Z)
  | (t1, Exited code) => (t1, Exited code)
  | (t1, Uncaught) => (t1, Uncaught)
  end.
Proof.
  unfold update. rewrite run_bind. fold (artifact latest).
  destruct (run w (fetchSHA256 (artifact latest)) t) as [t1 [[[|c s]|]|code|]];
    try reflexivity.
  unfold after_checksum, config_text. cbn [bind getCurrentDate writeConfig run].
  destruct (on_writeTextFile w _ CONFIG_PATH _); cbn [negb bind buildPlugin run];
    [|reflexivity].
  destruct (on_commandOutput w _ _ _ _) as [code|]; cbn [bind run negb];
    [|reflexivity].
  destruct (code =? 0)%Z; reflexivity.
Qed.

(** [main] up to the comparison of the two versions. *)
Lemma run_main_compare (w : World) (config : properties)
  (tailscaleVersion latest : jsstring) (t0 t1 : trace) :
  run w readConfig [] = (t0, Returned (JObj config)) ->
  obj_get (str "tailscaleVersion") config = Some (JStr tailscaleVersion) ->
  run w (fetchLatestTailscaleVersion compareVersions) t0
  = (t1, Returned (Some latest)) ->
  latest <> [] ->
  run w (main print_number BUILD_SCRIPT compareVersions fetchSHA256) [] =
  if jsstring_eqb (extractVersion tailscaleVersion) latest
  then (t1, Exited 0%Z)
  else run w (update print_number BUILD_SCRIPT fetchSHA256 config latest) t1.
Proof.
  intros Hread Hprop Hlatest Hne. unfold main. rewrite run_bind, Hread.
  unfold check. cbn [truthy negb]. rewrite Hprop, run_bind, Hlatest.
  destruct latest as [|c latest]; [contradiction|].
  now destruct (jsstring_eqb _ _).
Qed.

(** Up to the comparison nothing is written and nothing is built. *)
Lemma quiet_before_compare (w : World) (config : json) (t0 t1 : trace)
  (latest : option jsstring) :
  run w readConfig [] = (t0, Returned config) ->
  run w (fetchLatestTailscaleVersion compareVersions) t0
  = (t1, Returned latest) ->
  writes t1 = [] /\ filter is_command t1 = [].
Proof.
  intros Hread Hlatest.
  destruct (run_readConfig w []) as (config' & Hread').
  rewrite Hread in Hread'. cbn [app] in Hread'. injection Hread' as -> _.
  destruct (run_fetches_only w (fetchLatestTailscaleVersion compareVersions)
              [EvReadTextFile CONFIG_PATH (on_readTextFile w [] CONFIG_PATH)]
              (fetchLatestTailscaleVersion_fetches_only compareVersions))
    as (es & a & Hrun & Hes).
  rewrite Hlatest in Hrun. injection Hrun as -> _.
  unfold writes. cbn [filter is_write is_command].
  split; eapply filter_all_false; eauto using fetch_not_write, fetch_not_command.
Qed.

End Steps.

(** ** The versions of a listing *)

Lemma matchAll_fuel_is_version (fuel : nat) (tail s v : jsstring) :
  In v (matchAll_fuel fuel tail s) -> is_version v.
Proof.
  revert s; induction fuel as [|fuel IH]; intros s; cbn [matchAll_fuel].
  - intros [].
  - destruct (match_version_at tail s) as [[v' rest]|] eqn:E.
    + intros [<-|H]; [|now apply (IH rest)].
      apply match_version_at_sound in E as (d1 & d2 & d3 & H1 & H2 & H3 & E & _).
      now exists d1, d2, d3.
    + destruct s as [|c s]; [intros []|apply IH].
Qed.

Lemma matchAll_is_version (tail s v : jsstring) :
  In v (matchAll tail s) -> is_version v.
Proof. apply matchAll_fuel_is_version. Qed.

Lemma is_version_nonempty (v : jsstring) : is_version v -> v <> [].
Proof. intros (d1 & d2 & d3 & _ & _ & _ & ->). apply version_nonempty. Qed.

Section SortFacts.
Context {A : Type} (compareFn : A -> A -> sign).

Lemma In_insert_sorted (x y : A) (l : list A) :
  In x (insert_sorted compareFn y l) <-> x = y \/ In x l.
Proof.
  induction l as [|z l IH]; cbn [insert_sorted].
  - simpl. intuition congruence.
  - destruct (comes_after compareFn y z); simpl in *; intuition congruence.
Qed.

Lemma In_sort (x : A) (l : list A) : In x (sort compareFn l) <-> In x l.
Proof.
  induction l as [|y l IH]; [reflexivity|].
  cbn [sort fold_right]. fold (sort compareFn l).
  rewrite In_insert_sorted. simpl. intuition congruence.
Qed.

End SortFacts.

Lemma In_unique_from (x : jsstring) (seen l : list jsstring) :
  In x (unique_from seen l) -> In x l.
Proof.
  revert seen; induction l as [|y l IH]; intros seen; cbn [unique_from].
  - intros [].
  - destruct (existsb (jsstring_eqb y) seen).
    + intros H. right. now apply (IH seen).
    + intros [<-|H]; [now left|right; now apply (IH (y :: seen))].
Qed.

Lemma unique_from_complete (x : jsstring) (seen l : list jsstring) :
  In x l -> In x seen \/ In x (unique_from seen l).
Proof.
  revert seen; induction l as [|y l IH]; intros seen; cbn [unique_from].
  - intros [].
  - intros [->|H].
    + destruct (existsb (jsstring_eqb x) seen) eqn:E.
      * left. apply existsb_exists in E as (z & Hz & E).
        apply jsstring_eqb_eq in E. now subst z.
      * right. now left.
    + destruct (existsb (jsstring_eqb y) seen).
      * now apply IH.
      * destruct (IH (y :: seen) H) as [[<-|Hs]|Hu]; [right; now left|now left|].
        right. now right.
Qed.

Lemma In_unique (x : jsstring) (l : list jsstring) :
  In x (unique l) <-> In x l.
Proof.
  split; [apply In_unique_from|].
  intros H. now destruct (unique_from_complete x [] l H) as [[]|].
Qed.

Lemma latestInListing_In (compareVersions : jsstring -> jsstring -> sign)
  (html v : jsstring) :
  latestInListing compareVersions html = Some v ->
  In v (matchAll (str ".tgz") html).
Proof.
  unfold latestInListing.
  destruct (matchAll (str ".tgz") html) as [|x l] eqn:E; [discriminate|].
  destruct (sort compareVersions (unique (x :: l))) as [|y l'] eqn:Es;
    [discriminate|].
  intros H. injection H as ->.
  apply In_unique, (In_sort compareVersions). rewrite Es. now left.
Qed.

(** ** The comparison of the stored and the latest version *)

Lemma update_starts_with_checksum (print_number : jsstring -> jsstring)
  (BUILD_SCRIPT : jsstring) (fetchSHA256 : jsstring -> prog (option jsstring))
  (w : World) (config : properties) (latest : jsstring) (t : trace) :
  (exists k, fetchSHA256 (artifact latest) = Fetch (sha256Url latest) k) ->
  exists r es,
    fst (run w (update print_number BUILD_SCRIPT fetchSHA256 config latest) t)
    = t ++ EvFetch (sha256Url latest) r :: es.
Proof.
  intros [k Hk]. unfold update. fold (artifact latest). rewrite Hk.
  cbn [bind run].
  match goal with
  | |- context [run w ?p (t ++ [?e])] =>
      destruct (run_extends w p (t ++ [e])) as [es ->]
  end.
  eexists _, es. now rewrite <- app_assoc.
Qed.

Lemma UpdateTs_fetchSHA256_first (latest : jsstring) :
  exists k, UpdateTs.fetchSHA256 (artifact latest) = Fetch (sha256Url latest) k.
Proof. eexists. reflexivity. Qed.

Lemma Part003_fetchSHA256_first (latest : jsstring) :
  exists k, Part003.fetchSHA256 (artifact latest) = Fetch (sha256Url latest) k.
Proof. eexists. reflexivity. Qed.

Section Compare.
Variable print_number : jsstring -> jsstring.
Variable BUILD_SCRIPT : jsstring.
Variable compareVersions : jsstring -> jsstring -> sign.
Variable fetchSHA256 : jsstring -> prog (option jsstring).
Hypothesis fetchSHA256_first :
  forall latest,
    exists k, fetchSHA256 (artifact latest) = Fetch (sha256Url latest) k.

Let script := main print_number BUILD_SCRIPT compareVersions fetchSHA256.
Let update_to := update print_number BUILD_SCRIPT fetchSHA256.

Lemma same_version_ends (w : World) (config : properties)
  (tailscaleVersion latest : jsstring) (t0 t1 : trace) :
  run w readConfig [] = (t0, Returned (JObj config)) ->
  obj_get (str "tailscaleVersion") config = Some (JStr tailscaleVersion) ->
  run w (fetchLatestTailscaleVersion compareVersions) t0
  = (t1, Returned (Some latest)) ->
  latest <> [] ->
  extractVersion tailscaleVersion = latest ->
  ends_up_to_date script w t1.
Proof.
  intros Hread Hprop Hlatest Hne Heq.
  pose proof (run_main_compare print_number BUILD_SCRIPT compareVersions
                fetchSHA256 w config tailscaleVersion latest t0 t1
                Hread Hprop Hlatest Hne) as Hrun.
  rewrite Heq, jsstring_eqb_refl in Hrun.
  unfold ends_up_to_date. fold script in Hrun. rewrite Hrun.
  split; [reflexivity|split; [reflexivity|]].
  exact (quiet_before_compare compareVersions w _ _ _ _ Hread Hlatest).
Qed.

Lemma other_version_updates (w : World) (config : properties)
  (tailscaleVersion latest : jsstring) (t0 t1 : trace) :
  run w readConfig [] = (t0, Returned (JObj config)) ->
  obj_get (str "tailscaleVersion") config = Some (JStr tailscaleVersion) ->
  run w (fetchLatestTailscaleVersion compareVersions) t0
  = (t1, Returned (Some latest)) ->
  latest <> [] ->
  extractVersion tailscaleVersion <> latest ->
  goes_on_to_update script (update_to config latest) w t1 latest.
Proof.
  intros Hread Hprop Hlatest Hne Hdiff.
  pose proof (run_main_compare print_number BUILD_SCRIPT compareVersions
                fetchSHA256 w config tailscaleVersion latest t0 t1
                Hread Hprop Hlatest Hne) as Hrun.
  apply jsstring_eqb_neq in Hdiff. rewrite Hdiff in Hrun.
  unfold goes_on_to_update. fold script in Hrun. rewrite Hrun.
  split; [reflexivity|].
  apply update_starts_with_checksum, fetchSHA256_first.
Qed.

End Compare.

(** C5: when the version extracted from the stored [tailscaleVersion]
    is, as a string, the latest version that was fetched, the run ends
    with exit status 0, writes no file and runs no build; when the two
    strings differ, the run goes on with the update.  This holds in both
    revisions of the script. *)
Theorem equal_versions_end_the_run
  (print_number : jsstring -> jsstring) (w : World) (config : properties)
  (tailscaleVersion latest : jsstring) (t0 t1 : trace) :
  run w readConfig [] = (t0, Returned (JObj config)) ->
  obj_get (str "tailscaleVersion") config = Some (JStr tailscaleVersion) ->
  latest <> [] ->
  (run w UpdateTs.fetchLatestTailscaleVersion t0 = (t1, Returned (Some latest)) ->
   (extractVersion tailscaleVersion = latest ->
    ends_up_to_date (UpdateTs.main print_number) w t1) /\
   (extractVersion tailscaleVersion <> latest ->
    goes_on_to_update (UpdateTs.main print_number)
      (update print_number UpdateTs.BUILD_SCRIPT UpdateTs.fetchSHA256
         config latest) w t1 latest)) /\
  (run w Part003.fetchLatestTailscaleVersion t0 = (t1, Returned (Some latest)) ->
   (extractVersion tailscaleVersion = latest ->
    ends_up_to_date (Part003.main print_number) w t1) /\
   (extractVersion tailscaleVersion <> latest ->
    goes_on_to_update (Part003.main print_number)
      (update print_number Part003.BUILD_SCRIPT Part003.fetchSHA256
         config latest) w t1 latest)).
Proof.
  intros Hread Hprop Hne. split; intros Hlatest; split; intros Hcmp.
  - eapply same_version_ends; eauto.
  - eapply other_version_updates; eauto using UpdateTs_fetchSHA256_first.
  - eapply same_version_ends; eauto.
  - eapply other_version_updates; eauto using Part003_fetchSHA256_first.
Qed.

(** C6: a stored [tailscaleVersion] that does not hold the pattern gives
    the empty string as the current version; no version of the listing is
    the empty string; and with any latest version that was fetched the run
    goes on with the update, in both revisions of the script. *)
Theorem malformed_stored_version_updates (tailscaleVersion : jsstring) :
  ~ contains_version tailscaleVersion ->
  extractVersion tailscaleVersion = [] /\
  (forall compareVersions html v,
      latestInListing compareVersions html = Some v -> v <> []) /\
  (forall print_number w config latest t0 t1,
      run w readConfig [] = (t0, Returned (JObj config)) ->
      obj_get (str "tailscaleVersion") config = Some (JStr tailscaleVersion) ->
      latest <> [] ->
      (run w UpdateTs.fetchLatestTailscaleVersion t0
       = (t1, Returned (Some latest)) ->
       goes_on_to_update (UpdateTs.main print_number)
         (update print_number UpdateTs.BUILD_SCRIPT UpdateTs.fetchSHA256
            config latest) w t1 latest) /\
      (run w Part003.fetchLatestTailscaleVersion t0
       = (t1, Returned (Some latest)) ->
       goes_on_to_update (Part003.main print_number)
         (update print_number Part003.BUILD_SCRIPT Part003.fetchSHA256
            config latest) w t1 latest)).
Proof.
  intros Hno.
  assert (Hcur : extractVersion tailscaleVersion = [])
    by now apply extractVersion_empty_iff.
  split; [exact Hcur|split].
  - intros compareVersions html v Hv.
    apply latestInListing_In, matchAll_is_version in Hv.
    now apply is_version_nonempty.
  - intros print_number w config latest t0 t1 Hread Hprop Hne.
    split; intros Hlatest.
    + eapply other_version_updates;
        eauto using UpdateTs_fetchSHA256_first; congruence.
    + eapply other_version_updates;
        eauto using Part003_fetchSHA256_first; congruence.
Qed.

(** ** Every run of [main] *)

Section Runs.
Variable print_number : jsstring -> jsstring.
Variable BUILD_SCRIPT : jsstring.
Variable compareVersions : jsstring -> jsstring -> sign.
Variable fetchSHA256 : jsstring -> prog (option jsstring).
Hypothesis fetchSHA256_fetches_only :
  forall packageName, fetches_only (fetchSHA256 packageName).

Let script := main print_number BUILD_SCRIPT compareVersions fetchSHA256.

(** A run of [main] either ends with nothing written and nothing built,
    or gets as far as the checksum and goes on from there. *)
Lemma run_main_cases (w : World) :
  (writes (fst (run w script [])) = [] /\
   filter is_command (fst (run w script [])) = []) \/
  exists config latest sha256 t,
    fetched_both (fetchLatestTailscaleVersion compareVersions) fetchSHA256
      w config latest sha256 t /\
    run w script []
    = after_checksum print_number BUILD_SCRIPT config latest w t sha256.
Proof.
  destruct (run_readConfig w []) as (config & Hread). cbn [app] in Hread.
  set (t0 := [EvReadTextFile CONFIG_PATH (on_readTextFile w [] CONFIG_PATH)])
    in *.
  assert (Hq0 : writes t0 = [] /\ filter is_command t0 = [])
    by (split; reflexivity).
  destruct (run_fetches_only w (fetchLatestTailscaleVersion compareVersions) t0
              (fetchLatestTailscaleVersion_fetches_only compareVersions))
    as (es1 & latest & Hlatest & Hes1).
  pose proof (quiet_before_compare compareVersions w config t0 (t0 ++ es1)
                latest Hread Hlatest) as Hq1.
  unfold script, main. rewrite run_bind, Hread. unfold check.
  destruct (truthy config) eqn:Htruthy; cbn [negb]; [|now left].
  destruct config as [| | | | |props]; try now left.
  destruct (obj_get (str "tailscaleVersion") props)
    as [[| | |tailscaleVersion| |]|] eqn:Hprop; try now left.
  rewrite run_bind, Hlatest.
  destruct latest as [[|c latest]|]; try now left.
  destruct (jsstring_eqb (extractVersion tailscaleVersion) (c :: latest))
    eqn:Hcmp; [now left|].
  apply jsstring_eqb_neq in Hcmp.
  rewrite run_update.
  destruct (run_fetches_only w (fetchSHA256 (artifact (c :: latest)))
              (t0 ++ es1) (fetchSHA256_fetches_only _))
    as (es2 & sha & Hsha & Hes2).
  rewrite Hsha.
  assert (Hq2 : writes ((t0 ++ es1) ++ es2) = [] /\
                filter is_command ((t0 ++ es1) ++ es2) = []).
  { destruct Hq1 as [Hw Hc]. unfold writes in *.
    rewrite !(filter_app _ (t0 ++ es1) es2), Hw, Hc.
    split; eapply filter_all_false;
      eauto using fetch_not_write, fetch_not_command. }
  destruct sha as [[|d sha]|]; try now left.
  right. exists props, (c :: latest), (d :: sha), ((t0 ++ es1) ++ es2).
  split; [|reflexivity].
  destruct Hq2.
  now apply (fetched_both_intro _ _ _ _ _ _ _ t0 (t0 ++ es1) tailscaleVersion).
Qed.

End Runs.

Section Writes.
Variable print_number : jsstring -> jsstring.
Variable BUILD_SCRIPT : jsstring.
Variable compareVersions : jsstring -> jsstring -> sign.
Variable fetchSHA256 : jsstring -> prog (option jsstring).
Hypothesis fetchSHA256_fetches_only :
  forall packageName, fetches_only (fetchSHA256 packageName).
Variable accepted : jsstring -> Prop.
Hypothesis fetchSHA256_accepted :
  forall w t packageName t' sha256,
    run w (fetchSHA256 packageName) t = (t', Returned (Some sha256)) ->
    sha256 <> [] -> accepted sha256.

Let script := main print_number BUILD_SCRIPT compareVersions fetchSHA256.
Let fetchLatest := fetchLatestTailscaleVersion compareVersions.

Lemma writes_app (t t' : trace) : writes (t ++ t') = writes t ++ writes t'.
Proof. apply filter_app. Qed.

Lemma main_writes_config_once (w : World) :
  writes_config_once fetchLatest fetchSHA256 accepted script print_number w.
Proof.
  destruct (run_main_cases print_number BUILD_SCRIPT compareVersions
              fetchSHA256 fetchSHA256_fetches_only w)
    as [[Hw _]|(config & latest & sha256 & t & Hboth & Hrun)];
    [now left|right].
  fold script in Hrun.
  assert (Hwt : writes t = []) by now destruct Hboth.
  unfold after_checksum in Hrun. cbv zeta in Hrun.
  remember (on_writeTextFile w (t ++ [EvNewDate (on_newDate w t)]) CONFIG_PATH
              (config_text print_number config (on_newDate w t) latest sha256))
    as written eqn:Hwritten in Hrun. clear Hwritten.
  exists config, latest, sha256, t, written.
  exists (skipn (List.length t + 2) (fst (run w script []))).
  cbv zeta. rewrite Hrun.
  assert (Hskip : forall (a : trace) x y b,
             skipn (List.length a + 2) (a ++ x :: y :: b) = b).
  { intros a x y b. induction a as [|e a IH]; [reflexivity|exact IH]. }
  split; [exact Hboth|].
  split; [destruct Hboth; eapply fetchSHA256_accepted; eassumption|].
  destruct written; cbn [fst]; rewrite <- !app_assoc; cbn [app];
    rewrite Hskip, !writes_app, Hwt;
    (split; [reflexivity|]); (split; [reflexivity|]);
    (split; [reflexivity|]); (split; [reflexivity|]);
    (split; [apply updated_tailscaleVersion|apply updated_tailscaleSHA256]).
Qed.

Lemma main_build_ends_run (w : World) :
  build_ends_run fetchLatest fetchSHA256 script BUILD_SCRIPT print_number w.
Proof.
  destruct (run_main_cases print_number BUILD_SCRIPT compareVersions
              fetchSHA256 fetchSHA256_fetches_only w)
    as [[_ Hc]|(config & latest & sha256 & t & Hboth & Hrun)];
    [now left|].
  fold script in Hrun.
  assert (Hwt : writes t = []) by now destruct Hboth.
  assert (Hct : filter is_command t = []) by now destruct Hboth.
  unfold after_checksum in Hrun. cbv zeta in Hrun.
  destruct (on_writeTextFile w (t ++ [EvNewDate (on_newDate w t)]) CONFIG_PATH
              (config_text print_number config (on_newDate w t) latest sha256)).
  - right.
    match type of Hrun with
    | context [on_commandOutput w ?a ?b ?c ?d] =>
        remember (on_commandOutput w a b c d) as code eqn:Hcode in Hrun
    end.
    clear Hcode.
    exists config, latest, sha256, t, code. cbv zeta. rewrite Hrun.
    cbn [fst snd].
    split; [exact Hboth|]. split; [now rewrite <- !app_assoc|].
    rewrite !writes_app, Hwt. split; [reflexivity|].
    split.
    + intros Hcode. destruct code as [code|]; [|now split].
      destruct (code =? 0)%Z eqn:E; [|now split].
      apply Z.eqb_eq in E. subst code. now destruct Hcode.
    + intros ->. reflexivity.
  - left. rewrite Hrun. cbn [fst]. rewrite !filter_app, Hct. reflexivity.
Qed.

End Writes.


(** C8: in every run of either revision the build, when there is one,
    is the last thing that happens: the new configuration was written just
    before it, by the only write of the run, and nothing is written
    afterwards; a build that exits with another code than 0 ends the run
    with exit status 1. *)
Theorem failed_build_keeps_new_config
  (print_number : jsstring -> jsstring) (w : World) :
  build_ends_run UpdateTs.fetchLatestTailscaleVersion UpdateTs.fetchSHA256
    (UpdateTs.main print_number) UpdateTs.BUILD_SCRIPT print_number w /\
  build_ends_run Part003.fetchLatestTailscaleVersion Part003.fetchSHA256
    (Part003.main print_number) Part003.BUILD_SCRIPT print_number w.
Proof.
  split.
  - apply main_build_ends_run, UpdateTs_fetchSHA256_fetches_only.
  - apply main_build_ends_run, Part003_fetchSHA256_fetches_only.
Qed.

(** ** The date *)

Lemma forallb_seq (P : nat -> bool) (a n k : nat) :
  forallb P (seq a n) = true -> (a <= k < a + n)%nat -> P k = true.
Proof.
  intros H Hk. rewrite forallb_forall in H. apply H, in_seq. exact Hk.
Qed.

(** The four digits of a year from 1000 to 9999 (checked year by year). *)
Lemma year_digits (y : Z) :
  (1000 <= y <= 9999)%Z ->
  exists y1 y2 y3 y4 : N,
    (y1 < 10 /\ y2 < 10 /\ y3 < 10 /\ y4 < 10) /\
    String_of_Z y = [48 + y1; 48 + y2; 48 + y3; 48 + y4] /\
    y = Z.of_N (1000 * y1 + 100 * y2 + 10 * y3 + y4).
Proof.
  intros Hy.
  assert (Hall : forallb
            (fun k => let n := N.of_nat k in
                      jsstring_eqb (String_of_Z (Z.of_nat k))
                        [48 + n / 1000; 48 + n / 100 mod 10;
                         48 + n / 10 mod 10; 48 + n mod 10]
                      && (1000 * (n / 1000) + 100 * (n / 100 mod 10)
                          + 10 * (n / 10 mod 10) + n mod 10 =? n)
                      && (n / 1000 <? 10))
            (seq (Z.to_nat 1000) (Z.to_nat 9000)) = true)
    by (vm_compute; reflexivity).
  apply (forallb_seq _ _ _ (Z.to_nat y)) in Hall; [|lia].
  cbv beta zeta in Hall. rewrite Z2Nat.id in Hall by lia.
  set (n := N.of_nat (Z.to_nat y)) in *.
  apply andb_prop in Hall as [Hall H1]. apply andb_prop in Hall as [Htext Hval].
  apply jsstring_eqb_eq in Htext. apply N.eqb_eq in Hval. apply N.ltb_lt in H1.
  exists (n / 1000), (n / 100 mod 10), (n / 10 mod 10), (n mod 10).
  repeat split; try assumption; try (apply N.mod_lt; discriminate).
  rewrite Hval. unfold n. lia.
Qed.

(** The two digits of a month or day from 1 to 31, after [padStart]. *)
Lemma two_digits (d : Z) :
  (1 <= d <= 31)%Z ->
  exists d1 d2 : N,
    (d1 < 10 /\ d2 < 10) /\
    padStart 2 48 (String_of_Z d) = [48 + d1; 48 + d2] /\
    d = Z.of_N (10 * d1 + d2).
Proof.
  intros Hd.
  assert (Hall : forallb
            (fun k => let n := N.of_nat k in
                      jsstring_eqb (padStart 2 48 (String_of_Z (Z.of_nat k)))
                        [48 + n / 10; 48 + n mod 10]
                      && (10 * (n / 10) + n mod 10 =? n)
                      && (n / 10 <? 10))
            (seq 1 31) = true) by (vm_compute; reflexivity).
  apply (forallb_seq _ _ _ (Z.to_nat d)) in Hall; [|lia].
  cbv beta zeta in Hall. rewrite Z2Nat.id in Hall by lia.
  set (n := N.of_nat (Z.to_nat d)) in *.
  apply andb_prop in Hall as [Hall H1]. apply andb_prop in Hall as [Htext Hval].
  apply jsstring_eqb_eq in Htext. apply N.eqb_eq in Hval. apply N.ltb_lt in H1.
  exists (n / 10), (n mod 10).
  repeat split; try assumption; try (apply N.mod_lt; discriminate).
  rewrite Hval. unfold n. lia.
Qed.

(** [getCurrentDate] gives [YYYY.MM.DD]. *)
Lemma date_text_format (now : Date) :
  calendar_date now -> is_YYYY_MM_DD (date_text now) now.
Proof.
  intros (Hy & Hm & Hd).
  destruct (year_digits (getFullYear now) Hy)
    as (y1 & y2 & y3 & y4 & Hys & Hytext & Hyval).
  destruct (two_digits (getMonth now + 1)) as (m1 & m2 & Hms & Hmtext & Hmval);
    [lia|].
  destruct (two_digits (getDate now) Hd) as (d1 & d2 & Hds & Hdtext & Hdval).
  exists y1, y2, y3, y4, m1, m2, d1, d2.
  unfold date_text. cbv zeta. rewrite Hytext, Hmtext, Hdtext.
  repeat split; try tauto; assumption.
Qed.

Section Record.
Variable print_number : jsstring -> jsstring.
Variable BUILD_SCRIPT : jsstring.
Variable compareVersions : jsstring -> jsstring -> sign.
Variable fetchSHA256 : jsstring -> prog (option jsstring).
Hypothesis fetchSHA256_fetches_only :
  forall packageName, fetches_only (fetchSHA256 packageName).

Let script := main print_number BUILD_SCRIPT compareVersions fetchSHA256.
Let fetchLatest := fetchLatestTailscaleVersion compareVersions.

Lemma main_writes_updated_record (w : World) :
  writes_updated_record fetchLatest fetchSHA256 script print_number w.
Proof.
  destruct (main_writes_config_once print_number BUILD_SCRIPT compareVersions
              fetchSHA256 fetchSHA256_fetches_only (fun _ => True)
              (fun _ _ _ _ _ _ _ => I) w)
    as [Hw|(config & latest & sha256 & t & written & rest & H)];
    [now left|right].
  cbv zeta in H.
  destruct H as (Hboth & _ & Htrace & _ & Hwrites & _ & Hversion & Hsha).
  exists config, latest, sha256, t, written, rest. cbv zeta.
  fold script in Htrace, Hwrites.
  split; [exact Hboth|]. split; [exact Htrace|]. split; [exact Hwrites|].
  split; [apply updated_version|]. split; [apply date_text_format|].
  split; [exact Hversion|]. split; [exact Hsha|].
  intros key. apply updated_other.
Qed.

End Record.


(** ** The latest version of a listing *)

Lemma digit_not_dot (d : jsstring) :
  Forall (fun c => is_digit c = true) d -> forallb (fun c => negb (c =? 46)) d = true.
Proof.
  induction 1 as [|c d Hc _ IH]; [reflexivity|]. simpl. rewrite IH, andb_true_r.
  destruct (N.eqb_spec c 46) as [->|]; [discriminate|reflexivity].
Qed.

Lemma split_on_app (d rest : jsstring) :
  forallb (fun c => negb (c =? 46)) d = true ->
  split_on 46 (d ++ 46 :: rest) = d :: split_on 46 rest.
Proof.
  induction d as [|c d IH]; cbn [app forallb split_on].
  - intros _. now rewrite N.eqb_refl.
  - intros H. apply andb_prop in H as [Hc Hd].
    apply negb_true_iff in Hc. now rewrite Hc, (IH Hd).
Qed.

Lemma split_on_last (d : jsstring) :
  forallb (fun c => negb (c =? 46)) d = true -> split_on 46 d = [d].
Proof.
  induction d as [|c d IH]; cbn [forallb split_on]; [reflexivity|].
  intros H. apply andb_prop in H as [Hc Hd].
  apply negb_true_iff in Hc. now rewrite Hc, (IH Hd).
Qed.

Lemma split_version (d1 d2 d3 : jsstring) :
  digit_run d1 -> digit_run d2 -> digit_run d3 ->
  split_on 46 (d1 ++ str "." ++ d2 ++ str "." ++ d3) = [d1; d2; d3].
Proof.
  intros [_ H1] [_ H2] [_ H3]. change (str ".") with [46]. cbn [app].
  rewrite !split_on_app, split_on_last by now apply digit_not_dot.
  reflexivity.
Qed.

Lemma Number_digit_run (d : jsstring) :
  digit_run d -> Number d = round_to_double (digits_value d).
Proof.
  intros [Hne Hd]. destruct d as [|c d]; [contradiction|].
  unfold Number. rewrite Forall_forall in Hd.
  now rewrite (proj2 (forallb_forall is_digit (c :: d)) Hd).
Qed.

Lemma round_to_double_exact (n : N) : n < 2 ^ 53 -> round_to_double n = Fin n.
Proof.
  intros H. unfold round_to_double. apply N.ltb_lt in H. now rewrite H.
Qed.

Lemma exact_version_read (v : jsstring) :
  is_version v -> exact_version v -> read_exactly v.
Proof.
  intros (d1 & d2 & d3 & H1 & H2 & H3 & ->) Hexact.
  unfold exact_version, components in Hexact.
  unfold read_exactly, components, version_parts.
  rewrite split_version in * by assumption. cbn [List.map] in *.
  inversion Hexact as [|n1 l1 E1 Hexact1]; subst.
  inversion Hexact1 as [|n2 l2 E2 Hexact2]; subst.
  inversion Hexact2 as [|n3 l3 E3 _]; subst.
  exists (digits_value d1), (digits_value d2), (digits_value d3).
  split; [reflexivity|].
  now rewrite !Number_digit_run, !round_to_double_exact by assumption.
Qed.

Ltac compare_cases :=
  repeat match goal with
    | |- context [N.eqb ?a ?b] =>
        destruct (N.eqb_spec a b); [subst|]; cbn [negb]
    | |- context [N.compare ?a ?b] => destruct (N.compare_spec a b)
    | H : context [N.compare ?a ?b] |- _ => destruct (N.compare_spec a b)
    end;
  try (split; intros);
  try congruence; try discriminate; try lia.

Lemma or_zero_Fin (n : N) : or_zero (Some (Fin n)) = Some (Fin n).
Proof. now destruct n. Qed.

Lemma UpdateTs_compare_triples (n1 n2 n3 m1 m2 m3 : N) :
  UpdateTs.compare_from [Fin n1; Fin n2; Fin n3] [Fin m1; Fin m2; Fin m3] 3 0
  = Positive
  <-> dotted_compare [n1; n2; n3] [m1; m2; m3] = Lt.
Proof.
  cbn [UpdateTs.compare_from part nth_error strict_neq sign_of_difference
         dotted_compare forallb].
  compare_cases.
Qed.

Lemma Part003_compare_triples (n1 n2 n3 m1 m2 m3 : N) :
  Part003.compare_from [Fin n1; Fin n2; Fin n3] [Fin m1; Fin m2; Fin m3] 3 0
  = Positive
  <-> dotted_compare [n1; n2; n3] [m1; m2; m3] = Lt.
Proof.
  cbn [Part003.compare_from part nth_error]. rewrite !or_zero_Fin.
  cbn [strict_neq sign_of_difference dotted_compare forallb].
  compare_cases.
Qed.

Lemma dotted_compare_triples_trans (a1 a2 a3 b1 b2 b3 c1 c2 c3 : N) :
  dotted_compare [a1; a2; a3] [b1; b2; b3] <> Gt ->
  dotted_compare [b1; b2; b3] [c1; c2; c3] <> Gt ->
  dotted_compare [a1; a2; a3] [c1; c2; c3] <> Gt.
Proof.
  cbn [dotted_compare forallb]. intros H1 H2. compare_cases.
Qed.

Lemma dotted_compare_triples_total (a1 a2 a3 b1 b2 b3 : N) :
  dotted_compare [a1; a2; a3] [b1; b2; b3] <> Lt ->
  dotted_compare [b1; b2; b3] [a1; a2; a3] <> Gt.
Proof.
  cbn [dotted_compare forallb]. intros H1. compare_cases.
Qed.

Lemma dotted_compare_triples_asym (a1 a2 a3 b1 b2 b3 : N) :
  dotted_compare [a1; a2; a3] [b1; b2; b3] = Lt ->
  dotted_compare [a1; a2; a3] [b1; b2; b3] <> Gt.
Proof. congruence. Qed.

Lemma dotted_compare_triples_refl (a1 a2 a3 : N) :
  dotted_compare [a1; a2; a3] [a1; a2; a3] <> Gt.
Proof. cbn [dotted_compare forallb]. now rewrite !N.compare_refl. Qed.

Section SortGreatest.
Context {A : Type} (compareFn : A -> A -> sign).
Variable le : A -> A -> Prop.
Variable P : A -> Prop.
Hypothesis le_refl : forall x, P x -> le x x.
Hypothesis le_trans :
  forall x y z, P x -> P y -> P z -> le x y -> le y z -> le x z.
Hypothesis after_le :
  forall x y, P x -> P y -> comes_after compareFn x y = true -> le x y.
Hypothesis not_after_le :
  forall x y, P x -> P y -> comes_after compareFn x y = false -> le y x.

(** The sorted array starts with a greatest element. *)
Lemma sort_head_greatest (l : list A) :
  Forall P l ->
  forall h rest, sort compareFn l = h :: rest ->
  forall x, In x l -> le x h.
Proof.
  induction l as [|y l IH]; intros HP h rest Hsort x Hx; [destruct Hx|].
  inversion HP as [|y' l' Py Pl]; subst.
  cbn [sort fold_right] in Hsort. fold (sort compareFn l) in Hsort.
  destruct (sort compareFn l) as [|h' rest'] eqn:Hl.
  - assert (l = []) as ->.
    { destruct l as [|z l]; [reflexivity|].
      assert (In z []) as [] by (rewrite <- Hl; apply In_sort; now left). }
    cbn in Hsort. injection Hsort as <- _.
    destruct Hx as [<-|[]]. now apply le_refl.
  - assert (Ph' : P h').
    { rewrite Forall_forall in Pl. apply Pl, (In_sort compareFn).
      rewrite Hl. now left. }
    assert (Hmax : forall z, In z l -> le z h') by (intros z; now apply (IH Pl h' rest')).
    assert (Pz : forall z, In z l -> P z) by (now apply Forall_forall).
    cbn [insert_sorted] in Hsort.
    destruct (comes_after compareFn y h') eqn:Hafter.
    + injection Hsort as <- _.
      destruct Hx as [<-|Hx]; [now apply after_le|now apply Hmax].
    + injection Hsort as <- _.
      destruct Hx as [<-|Hx]; [now apply le_refl|].
      apply (le_trans x h' y); auto.
Qed.

End SortGreatest.

Section Latest.
Variable compareVersions : jsstring -> jsstring -> sign.
Hypothesis compare_exact :
  forall a b n1 n2 n3 m1 m2 m3,
    version_parts a = [Fin n1; Fin n2; Fin n3] ->
    version_parts b = [Fin m1; Fin m2; Fin m3] ->
    (compareVersions a b = Positive
     <-> dotted_compare [n1; n2; n3] [m1; m2; m3] = Lt).

Lemma comes_after_exact (a b : jsstring) :
  read_exactly a -> read_exactly b ->
  (comes_after compareVersions a b = true
   <-> dotted_compare (components a) (components b) = Lt).
Proof.
  intros (n1 & n2 & n3 & Ea & Pa) (m1 & m2 & m3 & Eb & Pb).
  rewrite Ea, Eb, <- (compare_exact a b _ _ _ _ _ _ Pa Pb).
  unfold comes_after. destruct (compareVersions a b); split; congruence.
Qed.

Lemma latestInListing_greatest (html : jsstring) :
  matchAll (str ".tgz") html <> [] ->
  Forall exact_version (matchAll (str ".tgz") html) ->
  exists v,
    latestInListing compareVersions html = Some v /\
    is_latest_of v (unique (matchAll (str ".tgz") html)).
Proof.
  intros Hne Hexact. unfold latestInListing.
  destruct (matchAll (str ".tgz") html) as [|x0 l0] eqn:Hall; [contradiction|].
  rewrite <- Hall in *. clear Hne.
  assert (Hread : Forall read_exactly (unique (matchAll (str ".tgz") html))).
  { apply Forall_forall. intros v Hv. apply (proj1 (In_unique _ _)) in Hv.
    apply exact_version_read; [now apply (matchAll_is_version (str ".tgz") html)|].
    rewrite Forall_forall in Hexact. now apply Hexact. }
  destruct (sort compareVersions (unique (matchAll (str ".tgz") html)))
    as [|v rest] eqn:Hsort.
  - exfalso.
    assert (In x0 (unique (matchAll (str ".tgz") html)))
      as Hin by (apply In_unique; rewrite Hall; now left).
    apply (In_sort compareVersions) in Hin. now rewrite Hsort in Hin.
  - exists v. rewrite Hall. split; [reflexivity|]. rewrite <- Hall. split.
    + apply (In_sort compareVersions). rewrite Hsort. now left.
    + apply (sort_head_greatest compareVersions version_le read_exactly)
        with (rest := rest); try assumption.
      * intros a (n1 & n2 & n3 & Ea & _). unfold version_le. rewrite Ea.
        apply dotted_compare_triples_refl.
      * intros a b c (a1 & a2 & a3 & Ea & _) (b1 & b2 & b3 & Eb & _)
          (c1 & c2 & c3 & Ec & _).
        unfold version_le. rewrite Ea, Eb, Ec.
        apply dotted_compare_triples_trans.
      * intros a b Ha Hb Hafter. apply (comes_after_exact a b Ha Hb) in Hafter.
        unfold version_le. congruence.
      * intros a b Ha Hb Hafter.
        assert (Hnlt : dotted_compare (components a) (components b) <> Lt).
        { intros Hlt. apply (comes_after_exact a b Ha Hb) in Hlt. congruence. }
        destruct Ha as (a1 & a2 & a3 & Ea & _), Hb as (b1 & b2 & b3 & Eb & _).
        unfold version_le. rewrite Ea, Eb in *.
        now apply dotted_compare_triples_total.
Qed.

End Latest.

Lemma UpdateTs_compare_exact (a b : jsstring) (n1 n2 n3 m1 m2 m3 : N) :
  version_parts a = [Fin n1; Fin n2; Fin n3] ->
  version_parts b = [Fin m1; Fin m2; Fin m3] ->
  (UpdateTs.compareVersions a b = Positive
   <-> dotted_compare [n1; n2; n3] [m1; m2; m3] = Lt).
Proof.
  intros Ha Hb. unfold UpdateTs.compareVersions. cbv zeta. rewrite Ha, Hb.
  apply UpdateTs_compare_triples.
Qed.

Lemma Part003_compare_exact (a b : jsstring) (n1 n2 n3 m1 m2 m3 : N) :
  version_parts a = [Fin n1; Fin n2; Fin n3] ->
  version_parts b = [Fin m1; Fin m2; Fin m3] ->
  (Part003.compareVersions a b = Positive
   <-> dotted_compare [n1; n2; n3] [m1; m2; m3] = Lt).
Proof.
  intros Ha Hb. unfold Part003.compareVersions. cbv zeta. rewrite Ha, Hb.
  apply Part003_compare_triples.
Qed.

Lemma run_fetchLatestTailscaleVersion_listing
  (compareVersions : jsstring -> jsstring -> sign) (w : World) (t : trace)
  (html : jsstring) :
  on_fetch w t TAILSCALE_STABLE_URL = Response true (Some html) ->
  run w (fetchLatestTailscaleVersion compareVersions) t
  = (t ++ [EvFetch TAILSCALE_STABLE_URL (Response true (Some html))],
     Returned (latestInListing compareVersions html)).
Proof.
  intros H. unfold fetchLatestTailscaleVersion. cbn [run]. now rewrite H.
Qed.

(** C1, as the code has it: when every component of the versions of a
    listing is below [2^53], the version that [fetchLatestTailscaleVersion]
    returns for the listing is a greatest one among the versions found by
    the pattern, without repetitions, in the dotted-numeric order
    (components compared from the left as integers, a missing one counting
    as 0).  Both revisions. *)
Theorem latest_version_is_greatest (html : jsstring) :
  matchAll (str ".tgz") html <> [] ->
  Forall exact_version (matchAll (str ".tgz") html) ->
  (exists v,
      latestInListing UpdateTs.compareVersions html = Some v /\
      is_latest_of v (unique (matchAll (str ".tgz") html)) /\
      forall w t,
        on_fetch w t TAILSCALE_STABLE_URL = Response true (Some html) ->
        snd (run w UpdateTs.fetchLatestTailscaleVersion t) = Returned (Some v)) /\
  (exists v,
      latestInListing Part003.compareVersions html = Some v /\
      is_latest_of v (unique (matchAll (str ".tgz") html)) /\
      forall w t,
        on_fetch w t TAILSCALE_STABLE_URL = Response true (Some html) ->
        snd (run w Part003.fetchLatestTailscaleVersion t) = Returned (Some v)).
Proof.
  intros Hne Hexact. split.
  - destruct (latestInListing_greatest UpdateTs.compareVersions
                UpdateTs_compare_exact html Hne Hexact) as (v & Hv & Hmax).
    exists v. split; [exact Hv|split; [exact Hmax|]].
    intros w t Hfetch. unfold UpdateTs.fetchLatestTailscaleVersion.
    now rewrite (run_fetchLatestTailscaleVersion_listing _ w t html Hfetch), Hv.
  - destruct (latestInListing_greatest Part003.compareVersions
                Part003_compare_exact html Hne Hexact) as (v & Hv & Hmax).
    exists v. split; [exact Hv|split; [exact Hmax|]].
    intros w t Hfetch. unfold Part003.fetchLatestTailscaleVersion.
    now rewrite (run_fetchLatestTailscaleVersion_listing _ w t html Hfetch), Hv.
Qed.

Lemma exact_versionsb_spec (versions : list jsstring) :
  exact_versionsb versions = true -> Forall exact_version versions.
Proof.
  unfold exact_versionsb, exact_version. rewrite forallb_forall, Forall_forall.
  intros H v Hv. apply Forall_forall. intros n Hn. apply N.ltb_lt.
  specialize (H v Hv). rewrite forallb_forall in H. now apply H.
Qed.

Lemma latest_version_is_greatest_witness :
  (exists v,
      latestInListing UpdateTs.compareVersions Sample.listing = Some v /\
      is_latest_of v (unique (matchAll (str ".tgz") Sample.listing)) /\
      forall w t,
        on_fetch w t TAILSCALE_STABLE_URL = Response true (Some Sample.listing) ->
        snd (run w UpdateTs.fetchLatestTailscaleVersion t) = Returned (Some v)) /\
  (exists v,
      latestInListing Part003.compareVersions Sample.listing = Some v /\
      is_latest_of v (unique (matchAll (str ".tgz") Sample.listing)) /\
      forall w t,
        on_fetch w t TAILSCALE_STABLE_URL = Response true (Some Sample.listing) ->
        snd (run w Part003.fetchLatestTailscaleVersion t) = Returned (Some v)).
Proof.
  apply (latest_version_is_greatest Sample.listing).
  - vm_compute. discriminate.
  - apply exact_versionsb_spec. vm_compute. reflexivity.
Defined.

(** The listing of the specification: [1.92.0] is the latest of [1.90.6],
    [1.92.0] and [1.90.10]. *)
Example latest_of_sample_listing :
  latestInListing UpdateTs.compareVersions Sample.listing = Some (str "1.92.0") /\
  latestInListing Part003.compareVersions Sample.listing = Some (str "1.92.0").
Proof. split; vm_compute; reflexivity. Qed.

(** C1, as the specification words it, fails beyond [2^53]: of the
    versions [1.0.9007199254740992] and [1.0.9007199254740993] of a
    listing both revisions return the first, which is the smaller one;
    [Number] reads the two last components as the same double. *)
Lemma latest_version_beyond_doubles :
  latestInListing UpdateTs.compareVersions Sample.huge_listing
  = Some (str "1.0.9007199254740992") /\
  latestInListing Part003.compareVersions Sample.huge_listing
  = Some (str "1.0.9007199254740992") /\
  In (str "1.0.9007199254740993")
    (unique (matchAll (str ".tgz") Sample.huge_listing)) /\
  ~ version_le (str "1.0.9007199254740993") (str "1.0.9007199254740992").
Proof.
  split; [vm_compute; reflexivity|]. split; [vm_compute; reflexivity|].
  split; [vm_compute; right; left; reflexivity|].
  intros H. apply H. vm_compute. reflexivity.
Qed.

(** ** The checksum *)

Lemma run_Part003_fetchSHA256 (w : World) (t : trace) (latest text : jsstring) :
  on_fetch w t (sha256Url latest) = Response true (Some text) ->
  run w (Part003.fetchSHA256 (artifact latest)) t
  = (t ++ [EvFetch (sha256Url latest) (Response true (Some text))],
     Returned (if is_sha256_hex (first_token text)
               then Some (first_token text) else None)).
Proof.
  intros H. unfold Part003.fetchSHA256. cbv zeta. fold (sha256Url latest).
  cbn [run]. rewrite H. now destruct (is_sha256_hex (first_token text)).
Qed.

Lemma run_UpdateTs_fetchSHA256 (w : World) (t : trace) (latest text : jsstring) :
  on_fetch w t (sha256Url latest) = Response true (Some text) ->
  run w (UpdateTs.fetchSHA256 (artifact latest)) t
  = (t ++ [EvFetch (sha256Url latest) (Response true (Some text))],
     Returned (Some (first_token text))).
Proof.
  intros H. unfold UpdateTs.fetchSHA256. cbv zeta. fold (sha256Url latest).
  cbn [run]. now rewrite H.
Qed.

(** The second revision does what C2 says: a first token that is not 64
    hexadecimal digits ends the run with exit status 1 before anything is
    written, and one that is 64 hexadecimal digits is returned. *)
Lemma Part003_checks_the_checksum
  (print_number : jsstring -> jsstring) (w : World) (config : properties)
  (tailscaleVersion latest text : jsstring) (t0 t1 : trace) :
  run w readConfig [] = (t0, Returned (JObj config)) ->
  obj_get (str "tailscaleVersion") config = Some (JStr tailscaleVersion) ->
  run w Part003.fetchLatestTailscaleVersion t0 = (t1, Returned (Some latest)) ->
  latest <> [] ->
  extractVersion tailscaleVersion <> latest ->
  on_fetch w t1 (sha256Url latest) = Response true (Some text) ->
  (is_sha256_hex (first_token text) = false ->
   snd (run w (Part003.main print_number) []) = Exited 1%Z /\
   writes (fst (run w (Part003.main print_number) [])) = []) /\
  (is_sha256_hex (first_token text) = true ->
   snd (run w (Part003.fetchSHA256 (artifact latest)) t1)
   = Returned (Some (first_token text))).
Proof.
  intros Hread Hprop Hlatest Hne Hdiff Hfetch.
  pose proof (run_Part003_fetchSHA256 w t1 latest text Hfetch) as Hsha.
  split; intros Hhex; rewrite Hhex in Hsha; [|now rewrite Hsha].
  unfold Part003.main.
  rewrite (run_main_compare print_number Part003.BUILD_SCRIPT
             Part003.compareVersions Part003.fetchSHA256 w config
             tailscaleVersion latest t0 t1 Hread Hprop Hlatest Hne).
  apply jsstring_eqb_neq in Hdiff. rewrite Hdiff, run_update, Hsha.
  cbn [fst snd]. split; [reflexivity|].
  destruct (quiet_before_compare Part003.compareVersions w _ _ _ _
              Hread Hlatest) as [Hw _].
  now rewrite writes_app, Hw.
Qed.

(** C2 fails in [src/update.ts]: the checksum file of the sample holds
    [notahash], which is not 64 hexadecimal digits, and the run writes it
    into [tailscaleSHA256], builds, and ends with exit status 0. *)
Theorem UpdateTs_writes_unchecked_checksum :
  first_token (str "notahash  tailscale_1.92.0_amd64.tgz") = str "notahash" /\
  is_sha256_hex (str "notahash") = false /\
  writes (fst (run Sample.bad_checksum_world
                 (UpdateTs.main (fun lexeme => lexeme)) []))
  = [EvWriteTextFile CONFIG_PATH
       (config_text (fun lexeme => lexeme) Sample.config_props Sample.today
          (str "1.92.0") (str "notahash")) true] /\
  obj_get (str "tailscaleSHA256")
    (updated Sample.config_props (date_text Sample.today) (str "1.92.0")
       (str "notahash"))
  = Some (JStr (str "notahash")) /\
  exit_status (snd (run Sample.bad_checksum_world
                      (UpdateTs.main (fun lexeme => lexeme)) [])) = 0%Z /\
  snd (run Sample.bad_checksum_world (Part003.main (fun lexeme => lexeme)) [])
  = Exited 1%Z /\
  writes (fst (run Sample.bad_checksum_world
                 (Part003.main (fun lexeme => lexeme)) [])) = [].
Proof. repeat split; vm_compute; reflexivity. Qed.

(** ** Writing a record and reading it back *)

Lemma hex_digit_value (d : N) : d < 16 -> hex_value (hex_digit d) = Some d.
Proof.
  intros Hd.
  assert (Hall : forallb
            (fun k => match hex_value (hex_digit (N.of_nat k)) with
                      | Some d' => d' =? N.of_nat k
                      | None => false
                      end)
            (seq 0 16) = true) by (vm_compute; reflexivity).
  apply (forallb_seq _ _ _ (N.to_nat d)) in Hall; [|lia].
  cbv beta in Hall. rewrite N2Nat.id in Hall.
  destruct (hex_value (hex_digit d)) as [d'|]; [|discriminate].
  apply N.eqb_eq in Hall. now subst.
Qed.

Lemma hex4_digits (c : N) :
  c < 65536 ->
  ((c / 4096 mod 16 * 16 + c / 256 mod 16) * 16 + c / 16 mod 16) * 16
  + c mod 16 = c.
Proof.
  intros Hc.
  pose proof (N.div_mod c 16) as H1.
  pose proof (N.div_mod (c / 16) 16) as H2.
  pose proof (N.div_mod (c / 256) 16) as H3.
  replace (c / 16 / 16) with (c / 256) in H2 by (now rewrite N.Div0.div_div).
  replace (c / 256 / 16) with (c / 4096) in H3 by (now rewrite N.Div0.div_div).
  assert (H4 : c / 4096 < 16) by (apply N.Div0.div_lt_upper_bound; lia).
  rewrite (N.mod_small _ _ H4). lia.
Qed.

(** Four hexadecimal digits are read back as the code unit they were
    printed for. *)
Lemma hex4_roundtrip (c : N) :
  c < 65536 ->
  hex4_value (hex_digit (c / 4096 mod 16)) (hex_digit (c / 256 mod 16))
    (hex_digit (c / 16 mod 16)) (hex_digit (c mod 16)) = Some c.
Proof.
  intros Hc. unfold hex4_value.
  rewrite !hex_digit_value by (apply N.mod_lt; discriminate).
  now rewrite hex4_digits.
Qed.

Lemma parse_unicode_escape (c : N) (rest : jsstring) :
  c < 65536 ->
  parse_string_chars (unicode_escape c ++ rest)
  = cons_char c (parse_string_chars rest).
Proof.
  intros Hc. unfold unicode_escape. cbn [app parse_string_chars].
  change (92 =? 34) with false. change (92 =? 92) with true.
  change (117 =? 117) with true. cbv iota.
  now rewrite hex4_roundtrip.
Qed.

Lemma parse_verbatim (c : N) (rest : jsstring) :
  c <> 34 -> c <> 92 -> 32 <= c ->
  parse_string_chars (c :: rest) = cons_char c (parse_string_chars rest).
Proof.
  intros H34 H92 H32. cbn [parse_string_chars].
  apply N.eqb_neq in H34, H92. rewrite H34, H92.
  now rewrite (proj2 (N.ltb_ge c 32) H32).
Qed.

Lemma parse_escape_char (c : N) (rest : jsstring) :
  parse_string_chars (escape_char c ++ rest)
  = cons_char c (parse_string_chars rest).
Proof.
  unfold escape_char.
  destruct (N.eqb_spec c 8) as [->|H8]; [reflexivity|].
  destruct (N.eqb_spec c 9) as [->|H9]; [reflexivity|].
  destruct (N.eqb_spec c 10) as [->|H10]; [reflexivity|].
  destruct (N.eqb_spec c 12) as [->|H12]; [reflexivity|].
  destruct (N.eqb_spec c 13) as [->|H13]; [reflexivity|].
  destruct (N.eqb_spec c 34) as [->|H34]; [reflexivity|].
  destruct (N.eqb_spec c 92) as [->|H92]; [reflexivity|].
  destruct ((c <? 32) || is_high_surrogate c || is_low_surrogate c) eqn:E.
  - apply parse_unicode_escape.
    unfold is_high_surrogate, is_low_surrogate in E.
    apply orb_prop in E as [E|E]; [apply orb_prop in E as [E|E]|].
    + apply N.ltb_lt in E. lia.
    + apply andb_prop in E as [_ E]. apply N.leb_le in E. lia.
    + apply andb_prop in E as [_ E]. apply N.leb_le in E. lia.
  - apply orb_false_elim in E as [E _]. apply orb_false_elim in E as [E _].
    apply N.ltb_ge in E. now apply parse_verbatim.
Qed.

Lemma surrogate_verbatim (c : N) (rest : jsstring) :
  is_high_surrogate c = true \/ is_low_surrogate c = true ->
  parse_string_chars (c :: rest) = cons_char c (parse_string_chars rest).
Proof.
  unfold is_high_surrogate, is_low_surrogate.
  intros [H|H]; apply andb_prop in H as [H _]; apply N.leb_le in H;
    apply parse_verbatim; lia.
Qed.

Lemma parse_quote_chars_bounded (n : nat) (s rest : jsstring) :
  (List.length s <= n)%nat ->
  parse_string_chars (quote_chars s ++ 34 :: rest) = Some (s, rest).
Proof.
  revert s. induction n as [|n IH]; intros s Hlen.
  - destruct s; [reflexivity|simpl in Hlen; lia].
  - destruct s as [|c s]; [reflexivity|]. cbn [List.length] in Hlen.
    cbn [quote_chars]. destruct (is_high_surrogate c) eqn:Hhigh.
    + destruct s as [|d s].
      * now rewrite parse_escape_char.
      * cbn [List.length] in Hlen. destruct (is_low_surrogate d) eqn:Hlow.
        -- cbn [app]. rewrite !surrogate_verbatim by auto.
           rewrite IH by lia. reflexivity.
        -- rewrite <- app_assoc, parse_escape_char, IH; [reflexivity|].
           cbn [List.length]. lia.
    + rewrite <- app_assoc, parse_escape_char, IH; [reflexivity|lia].
Qed.

(** What [QuoteJSONString] prints is read back as the string. *)
Lemma parse_quote_chars (s rest : jsstring) :
  parse_string_chars (quote_chars s ++ 34 :: rest) = Some (s, rest).
Proof. now apply (parse_quote_chars_bounded (List.length s)). Qed.

Section RoundTrip.
Variable print_number : jsstring -> jsstring.

(** One member of an object as [serialize] lays it out at the top level,
    and what separates two members. *)
Let member (kv : jsstring * json) : jsstring :=
  QuoteJSONString (fst kv) ++ str ": "
    ++ serialize print_number (str "    ") ([] ++ str "    ") (snd kv).
Let separator : jsstring := str "," ++ [10] ++ ([] ++ str "    ").
Let set_all (props acc : properties) : properties :=
  fold_left (fun acc kv => obj_set (fst kv) (snd kv) acc) props acc.

Lemma parse_member (fuel : nat) (acc : properties) (key s tail : jsstring) :
  parse_members (S (S fuel)) acc
    ([10; 32; 32; 32; 32] ++ member (key, JStr s) ++ tail)
  = match skip_ws tail with
    | [] => SyntaxError
    | c :: s5 =>
        if c =? 44 then parse_members (S fuel) (obj_set key (JStr s) acc) s5
        else if c =? 125 then Ok (JObj (obj_set key (JStr s) acc)) s5
        else SyntaxError
    end.
Proof.
  unfold member, QuoteJSONString. cbn [fst snd serialize].
  unfold QuoteJSONString. change (str ": ") with [58; 32].
  rewrite <- !app_assoc. cbn [app]. rewrite <- !app_assoc. cbn [app].
  cbn [parse_members]. unfold members_step.
  change (skip_ws (10 :: 32 :: 32 :: 32 :: 32 :: 34 :: ?x)) with (34 :: x).
  change (strip_prefix [34] (34 :: ?x)) with (Some x). cbv beta iota.
  rewrite parse_quote_chars.
  change (skip_ws (58 :: ?x)) with (58 :: x).
  change (strip_prefix [58] (58 :: ?x)) with (Some x). cbv beta iota.
  cbn [parse_value]. unfold value_step.
  change (skip_ws (32 :: 34 :: ?x)) with (34 :: x).
  change (34 =? 34) with true. cbv beta iota.
  now rewrite parse_quote_chars.
Qed.

Lemma parse_members_strings (rest : jsstring) (ps : properties) :
  forall (p : jsstring * json) (acc : properties) (fuel : nat),
    string_valued (p :: ps) ->
    (List.length (p :: ps) <= fuel)%nat ->
    parse_members (S fuel) acc
      ([10; 32; 32; 32; 32] ++ join separator (List.map member (p :: ps))
         ++ 10 :: 125 :: rest)
    = Ok (JObj (set_all (p :: ps) acc)) rest.
Proof.
  induction ps as [|p' ps IH]; intros [key v] acc fuel Hstr Hfuel;
    inversion Hstr as [|kv l [s Hv] Hstr']; subst; cbn [snd] in Hv; subst v;
    destruct fuel as [|fuel]; try (cbn [List.length] in Hfuel; lia).
  - cbn [List.map join]. rewrite parse_member. reflexivity.
  - change (List.map member ((key, JStr s) :: p' :: ps))
      with (member (key, JStr s) :: List.map member (p' :: ps)).
    change (join separator (?x :: List.map member (p' :: ps)))
      with (x ++ separator ++ join separator (List.map member (p' :: ps))).
    rewrite <- !app_assoc. rewrite parse_member.
    change (separator ++ ?x) with (44 :: [10; 32; 32; 32; 32] ++ x).
    change (skip_ws (44 :: ?x)) with (44 :: x).
    change (44 =? 44) with true. cbv beta iota.
    rewrite IH; [reflexivity|assumption|].
    cbn [List.length] in *. lia.
Qed.

Lemma join_length (parts : list jsstring) :
  Forall (fun x => x <> []) parts ->
  (List.length parts <= List.length (join separator parts))%nat.
Proof.
  induction 1 as [|x parts Hx _ IH]; [simpl; lia|].
  destruct parts as [|y parts].
  - cbn [join List.length]. destruct x; [contradiction|simpl; lia].
  - change (join separator (x :: y :: parts))
      with (x ++ separator ++ join separator (y :: parts)).
    rewrite !length_app. destruct x; [contradiction|].
    cbn [List.length] in IH |- *. lia.
Qed.

Lemma stringify_object_text (p : jsstring * json) (ps : properties) :
  JSON_stringify4 print_number (JObj (p :: ps)) ++ [10]
  = 123 :: [10; 32; 32; 32; 32]
      ++ join separator (List.map member (p :: ps)) ++ 10 :: 125 :: [10].
Proof.
  unfold JSON_stringify4. cbn [serialize]. rewrite <- !app_assoc. reflexivity.
Qed.

(** An object whose properties hold strings is read back from the text
    that [JSON.stringify] lays out for it. *)
Lemma JSON_parse_stringify_strings (props : properties) :
  string_valued props -> in_creation_order props ->
  JSON_parse (JSON_stringify4 print_number (JObj props) ++ [10])
  = Some (JObj props).
Proof.
  intros Hstr Horder. destruct props as [|p ps]; [reflexivity|].
  rewrite stringify_object_text.
  remember (join separator (List.map member (p :: ps))) as body eqn:Hbody.
  assert (Hlen : (List.length (p :: ps) <= List.length body)%nat).
  { subst body. rewrite <- (length_map member (p :: ps)). apply join_length.
    apply Forall_forall. intros x Hx. apply in_map_iff in Hx as (kv & <- & _).
    discriminate. }
  unfold JSON_parse.
  remember (List.length (123 :: [10; 32; 32; 32; 32] ++ body
                           ++ 10 :: 125 :: [10])) as n eqn:Hn.
  assert (Hfuel : exists fuel, (2 * n = S fuel /\ List.length (p :: ps) <= fuel)%nat).
  { exists (Nat.pred (2 * n)). subst n. cbn [List.length app] in *.
    rewrite length_app. lia. }
  destruct Hfuel as (fuel & -> & Hfuel).
  cbn [parse_value]. unfold value_step.
  change (skip_ws (123 :: ?x)) with (123 :: x).
  change (123 =? 34) with false. change (123 =? 123) with true. cbv beta iota.
  replace (strip_prefix [125]
             (skip_ws ([10; 32; 32; 32; 32] ++ body ++ 10 :: 125 :: [10])))
    with (@None jsstring).
  - subst body. rewrite parse_members_strings by assumption.
    unfold set_all. unfold in_creation_order in Horder. now rewrite Horder.
  - subst body. destruct p as [key v]. cbn [List.map].
    destruct ps; cbn [join]; unfold member at 1, QuoteJSONString at 1;
      reflexivity.
Qed.

End RoundTrip.

Lemma config_object_string_valued (c : TailscaleConfig) :
  match config_object c with
  | JObj props => string_valued props /\ in_creation_order props
  | _ => False
  end.
Proof.
  destruct c. cbn [config_object]. split.
  - unfold string_valued. repeat constructor; eexists; reflexivity.
  - reflexivity.
Qed.

Lemma config_object_roundtrip (print_number : jsstring -> jsstring)
  (c : TailscaleConfig) :
  JSON_parse (JSON_stringify4 print_number (config_object c) ++ [10])
  = Some (config_object c).
Proof.
  pose proof (config_object_string_valued c) as H.
  destruct (config_object c) as [| | | | |props]; try contradiction.
  destruct H. now apply JSON_parse_stringify_strings.
Qed.

Lemma as_TailscaleConfig_config_object (c : TailscaleConfig) :
  as_TailscaleConfig (config_object c) = Some c.
Proof. destruct c. reflexivity. Qed.

(** C9: for every record, the text that [writeConfig] writes (four
    spaces of indentation, a line feed at the end) is parsed by
    [readConfig] into an object with the same eleven fields; so, in a world
    where the file holds what was written, writing the record and reading
    it gives the record back. *)
Theorem write_then_read_config (print_number : jsstring -> jsstring)
  (c : TailscaleConfig) :
  let content := JSON_stringify4 print_number (config_object c) ++ [10] in
  JSON_parse content = Some (config_object c) /\
  as_TailscaleConfig (config_object c) = Some c /\
  forall w t,
    let written := EvWriteTextFile CONFIG_PATH content
                     (on_writeTextFile w t CONFIG_PATH content) in
    on_readTextFile w (t ++ [written]) CONFIG_PATH = Some content ->
    run w (bind (writeConfig print_number (config_object c))
             (fun _ => readConfig)) t
    = (t ++ [written; EvReadTextFile CONFIG_PATH (Some content)],
       Returned (config_object c)) /\
    option_map as_TailscaleConfig
      (match snd (run w (bind (writeConfig print_number (config_object c))
                           (fun _ => readConfig)) t) with
       | Returned config => Some config
       | _ => None
       end) = Some (Some c).
Proof.
  cbv zeta. split; [apply config_object_roundtrip|].
  split; [apply as_TailscaleConfig_config_object|].
  intros w t Hread.
  assert (Hrun : run w (bind (writeConfig print_number (config_object c))
                          (fun _ => readConfig)) t
                 = (t ++ [EvWriteTextFile CONFIG_PATH
                            (JSON_stringify4 print_number (config_object c) ++ [10])
                            (on_writeTextFile w t CONFIG_PATH
                               (JSON_stringify4 print_number (config_object c)
                                  ++ [10]));
                          EvReadTextFile CONFIG_PATH
                            (Some (JSON_stringify4 print_number (config_object c)
                                     ++ [10]))],
                    Returned (config_object c))).
  { unfold writeConfig, readConfig. cbn [bind run].
    rewrite Hread, config_object_roundtrip, <- app_assoc. reflexivity. }
  rewrite Hrun. split; [reflexivity|]. cbn [snd option_map].
  now rewrite as_TailscaleConfig_config_object.
Qed.

Lemma write_then_read_config_witness :
  let content := JSON_stringify4 (fun lexeme => lexeme)
                   (config_object Sample.record) ++ [10] in
  run (file_world None)
    (bind (writeConfig (fun lexeme => lexeme) (config_object Sample.record))
       (fun _ => readConfig)) []
  = ([EvWriteTextFile CONFIG_PATH content true;
      EvReadTextFile CONFIG_PATH (Some content)],
     Returned (config_object Sample.record)).
Proof.
  cbv zeta.
  destruct (write_then_read_config (fun lexeme => lexeme) Sample.record)
    as (_ & _ & H).
  destruct (H (file_world None) []) as [Hrun _]; [reflexivity|exact Hrun].
Defined.

(** ** The properties on the sample data *)

Lemma extractVersion_unanchored_witness :
  extractVersion (str "xtailscale_1.2.3_amd64.tgz") = str "1.2.3" /\
  (extractVersion (str "tailscale-latest") = [] <->
   ~ contains_version (str "tailscale-latest")).
Proof.
  split.
  - apply (proj1 extractVersion_unanchored (str "xtailscale_1.2.3_amd64.tgz")
             (str "x") (str "1") (str "2") (str "3") (str ".tgz")).
    + repeat split; try discriminate; repeat constructor.
    + intros pre' d1 d2 d3 post (_ & _ & _ & E).
      destruct pre' as [|c pre']; [discriminate E|simpl; lia].
  - apply (proj2 extractVersion_unanchored).
Defined.

Lemma equal_versions_end_the_run_witness :
  let t1 := [EvReadTextFile CONFIG_PATH (Some Sample.config);
             EvFetch TAILSCALE_STABLE_URL
               (Response true (Some Sample.same_listing))] in
  ends_up_to_date (UpdateTs.main (fun lexeme => lexeme))
    Sample.up_to_date_world t1 /\
  ends_up_to_date (Part003.main (fun lexeme => lexeme))
    Sample.up_to_date_world t1.
Proof.
  cbv zeta.
  destruct (equal_versions_end_the_run (fun lexeme => lexeme)
              Sample.up_to_date_world Sample.config_props
              (str "tailscale_1.90.6_amd64") (str "1.90.6")
              [EvReadTextFile CONFIG_PATH (Some Sample.config)]
              [EvReadTextFile CONFIG_PATH (Some Sample.config);
               EvFetch TAILSCALE_STABLE_URL
                 (Response true (Some Sample.same_listing))])
    as [HU HP].
  - vm_compute. reflexivity.
  - reflexivity.
  - discriminate.
  - split.
    + apply HU; vm_compute; reflexivity.
    + apply HP; vm_compute; reflexivity.
Defined.

Lemma malformed_stored_version_updates_witness :
  let t1 := [EvReadTextFile CONFIG_PATH
               (Some (JSON_stringify4 (fun lexeme => lexeme)
                        (JObj Sample.odd_props) ++ [10]));
             EvFetch TAILSCALE_STABLE_URL
               (Response true (Some Sample.listing))] in
  extractVersion (str "tailscale-latest") = [] /\
  goes_on_to_update (UpdateTs.main (fun lexeme => lexeme))
    (update (fun lexeme => lexeme) UpdateTs.BUILD_SCRIPT UpdateTs.fetchSHA256
       Sample.odd_props (str "1.92.0")) Sample.odd_world t1 (str "1.92.0") /\
  goes_on_to_update (Part003.main (fun lexeme => lexeme))
    (update (fun lexeme => lexeme) Part003.BUILD_SCRIPT Part003.fetchSHA256
       Sample.odd_props (str "1.92.0")) Sample.odd_world t1 (str "1.92.0").
Proof.
  cbv zeta.
  destruct (malformed_stored_version_updates (str "tailscale-latest"))
    as (Hempty & _ & Hupdate).
  - apply extractVersion_empty_iff. reflexivity.
  - split; [exact Hempty|].
    destruct (Hupdate (fun lexeme => lexeme) Sample.odd_world Sample.odd_props
                (str "1.92.0")
                [EvReadTextFile CONFIG_PATH
                   (Some (JSON_stringify4 (fun lexeme => lexeme)
                            (JObj Sample.odd_props) ++ [10]))]
                [EvReadTextFile CONFIG_PATH
                   (Some (JSON_stringify4 (fun lexeme => lexeme)
                            (JObj Sample.odd_props) ++ [10]));
                 EvFetch TAILSCALE_STABLE_URL
                   (Response true (Some Sample.listing))])
      as [HU HP].
    + vm_compute. reflexivity.
    + reflexivity.
    + discriminate.
    + split; [apply HU|apply HP]; vm_compute; reflexivity.
Defined.

(** The run of the specification's example: the stored version is
    [1.90.6], the latest is [1.92.0], and the build exits with code 3. *)
Lemma failed_build_keeps_new_config_witness :
  let content := config_text (fun lexeme => lexeme) Sample.config_props
                   Sample.today (str "1.92.0") Sample.digest in
  run (Sample.update_world 3) (UpdateTs.main (fun lexeme => lexeme)) []
  = ([EvReadTextFile CONFIG_PATH (Some Sample.config);
      EvFetch TAILSCALE_STABLE_URL (Response true (Some Sample.listing));
      EvFetch (sha256Url (str "1.92.0"))
        (Response true (Some Sample.checksum_file));
      EvNewDate Sample.today;
      EvWriteTextFile CONFIG_PATH content true;
      EvCommandOutput (str "sh") [UpdateTs.BUILD_SCRIPT] TOOLS_DIR (Some 3%Z)],
     Exited 1%Z) /\
  build_ends_run UpdateTs.fetchLatestTailscaleVersion UpdateTs.fetchSHA256
    (UpdateTs.main (fun lexeme => lexeme)) UpdateTs.BUILD_SCRIPT
    (fun lexeme => lexeme) (Sample.update_world 3).
Proof.
  cbv zeta. split; [vm_compute; reflexivity|].
  exact (proj1 (failed_build_keeps_new_config (fun lexeme => lexeme)
                  (Sample.update_world 3))).
Defined.

(** The written record of the specification's example. *)
Example sample_update_writes :
  writes (fst (run (Sample.update_world 0)
                 (Part003.main (fun lexeme => lexeme)) []))
  = [EvWriteTextFile CONFIG_PATH
       (JSON_stringify4 (fun lexeme => lexeme)
          (JObj [(str "name", JStr (str "tailscale"));
                 (str "version", JStr (str "2026.01.05"));
                 (str "tailscaleVersion", JStr (str "tailscale_1.92.0_amd64"));
                 (str "tailscaleSHA256", JStr Sample.digest);
                 (str "minver", JStr (str "6.12.0"))]) ++ [10]) true] /\
  snd (run (Sample.update_world 0) (Part003.main (fun lexeme => lexeme)) [])
  = Returned tt.
Proof. split; vm_compute; reflexivity. Qed.

(** ** The fuel of [matchAll] is never used up *)

Lemma match_version_at_shorter (tail s v rest : jsstring) :
  match_version_at tail s = Some (v, rest) ->
  (List.length rest < List.length s)%nat.
Proof.
  intros H. apply match_version_at_sound in H as (_ & _ & _ & _ & _ & _ & _ & ->).
  rewrite !length_app. change (List.length (str "tailscale_")) with 10%nat.
  lia.
Qed.

Lemma matchAll_fuel_enough (tail : jsstring) (fuel1 : nat) :
  forall (fuel2 : nat) (s : jsstring),
    (List.length s < fuel1)%nat -> (List.length s < fuel2)%nat ->
    matchAll_fuel fuel1 tail s = matchAll_fuel fuel2 tail s.
Proof.
  induction fuel1 as [|fuel1 IH]; intros fuel2 s H1 H2; [lia|].
  destruct fuel2 as [|fuel2]; [lia|]. cbn [matchAll_fuel].
  destruct (match_version_at tail s) as [[v rest]|] eqn:E.
  - apply match_version_at_shorter in E. f_equal. apply IH; lia.
  - destruct s as [|c s]; [reflexivity|]. cbn [List.length] in *.
    apply IH; lia.
Qed.

(** [matchAll] is the scan with any fuel above the length of the text. *)
Lemma matchAll_any_fuel (tail s : jsstring) (fuel : nat) :
  (List.length s < fuel)%nat -> matchAll_fuel fuel tail s = matchAll tail s.
Proof. intros H. apply matchAll_fuel_enough; [assumption|lia]. Qed.

(** The scan, step by step. *)
Lemma matchAll_step (tail s : jsstring) :
  matchAll tail s =
  match match_version_at tail s with
  | Some (v, rest) => v :: matchAll tail rest
  | None =>
      match s with
      | [] => []
      | _ :: s' => matchAll tail s'
      end
  end.
Proof.
  unfold matchAll at 1. cbn [matchAll_fuel].
  destruct (match_version_at tail s) as [[v rest]|] eqn:E.
  - apply match_version_at_shorter in E. f_equal.
    apply matchAll_any_fuel. lia.
  - destruct s as [|c s]; [reflexivity|].
    apply matchAll_any_fuel. cbn [List.length]. lia.
Qed.

(** Every part [Number] is applied to is a run of digits. *)
Lemma matchAll_parts_digit_runs (tail html v d : jsstring) :
  In v (matchAll tail html) -> In d (split_on 46 v) -> digit_run d.
Proof.
  intros Hv Hd. apply matchAll_is_version in Hv
    as (d1 & d2 & d3 & H1 & H2 & H3 & ->).
  rewrite split_version in Hd by assumption.
  destruct Hd as [<-|[<-|[<-|[]]]]; assumption.
Qed.

(** ** The fuel of [JSON.parse] is never used up *)

Lemma skip_ws_length (s : jsstring) :
  (List.length (skip_ws s) <= List.length s)%nat.
Proof.
  induction s as [|c s IH]; cbn [skip_ws List.length]; [lia|].
  destruct (is_json_ws c); cbn [List.length]; lia.
Qed.

Lemma strip_prefix_length (p s r : jsstring) :
  strip_prefix p s = Some r ->
  List.length s = (List.length p + List.length r)%nat.
Proof. intros H. apply strip_prefix_spec in H as ->. apply length_app. Qed.

Lemma cons_char_length (c : N) (x : option (jsstring * jsstring))
  (t r : jsstring) :
  cons_char c x = Some (t, r) -> exists t', x = Some (t', r).
Proof.
  destruct x as [[t' r']|]; [|discriminate]. cbn. intros H.
  injection H as _ ->. now exists t'.
Qed.

Lemma parse_string_chars_length_bounded (n : nat) (s t r : jsstring) :
  (List.length s <= n)%nat ->
  parse_string_chars s = Some (t, r) ->
  (List.length r < List.length s)%nat.
Proof.
  revert s t. induction n as [|n IH]; intros s t Hn.
  - destruct s; [discriminate|cbn [List.length] in Hn; lia].
  - destruct s as [|c s]; [discriminate|]. cbn [List.length] in Hn.
    cbn [parse_string_chars List.length].
    destruct (c =? 34); [intros H; injection H as _ ->; lia|].
    destruct (c =? 92).
    + destruct s as [|e s]; [discriminate|]. cbn [List.length] in *.
      destruct (e =? 117).
      * destruct s as [|h1 [|h2 [|h3 [|h4 s]]]]; try discriminate.
        cbn [List.length] in *.
        destruct (hex4_value h1 h2 h3 h4); [|discriminate].
        intros H. apply cons_char_length in H as [t' H].
        apply IH in H; lia.
      * destruct (unescape e); [|discriminate].
        intros H. apply cons_char_length in H as [t' H].
        apply IH in H; lia.
    + destruct (c <? 32); [discriminate|].
      intros H. apply cons_char_length in H as [t' H].
      apply IH in H; lia.
Qed.

Lemma parse_string_chars_length (s t r : jsstring) :
  parse_string_chars s = Some (t, r) ->
  (List.length r < List.length s)%nat.
Proof. now apply (parse_string_chars_length_bounded (List.length s)). Qed.

Lemma digits1_length (s d r : jsstring) :
  digits1 s = Some (d, r) -> (List.length r < List.length s)%nat.
Proof.
  intros H. apply digits1_spec in H as (-> & [Hne _] & _).
  rewrite length_app. destruct d; [contradiction|cbn [List.length]; lia].
Qed.

Lemma parse_exponent_length (acc s l r : jsstring) :
  parse_exponent acc s = Some (l, r) ->
  (List.length r <= List.length s)%nat.
Proof.
  unfold parse_exponent. destruct s as [|e s1].
  - intros H. injection H as _ <-. lia.
  - destruct ((e =? 101) || (e =? 69)).
    + destruct s1 as [|c s1'].
      * now destruct (digits1 []) as [[d r']|] eqn:E.
      * destruct ((c =? 43) || (c =? 45)).
        -- destruct (digits1 s1') as [[d r']|] eqn:E; [|discriminate].
           intros H. injection H as _ <-. apply digits1_length in E.
           cbn [List.length]. lia.
        -- destruct (digits1 (c :: s1')) as [[d r']|] eqn:E; [|discriminate].
           intros H. injection H as _ <-. apply digits1_length in E.
           cbn [List.length] in *. lia.
    + intros H. injection H as _ <-. lia.
Qed.

Lemma parse_fraction_length (acc s l r : jsstring) :
  parse_fraction acc s = Some (l, r) ->
  (List.length r <= List.length s)%nat.
Proof.
  unfold parse_fraction. destruct s as [|c s1].
  - apply parse_exponent_length.
  - destruct (c =? 46); [|apply parse_exponent_length].
    destruct (digits1 s1) as [[d r']|] eqn:E; [|discriminate].
    intros H. apply parse_exponent_length in H. apply digits1_length in E.
    cbn [List.length]. lia.
Qed.

Lemma parse_number_length (s l r : jsstring) :
  parse_number s = Some (l, r) -> (List.length r < List.length s)%nat.
Proof.
  unfold parse_number.
  assert (Hbody : forall sg s1,
             match s1 with
             | [] => None
             | c :: s2 =>
                 if c =? 48 then parse_fraction (sg ++ [c]) s2
                 else match digits1 s1 with
                      | Some (d, r) => parse_fraction (sg ++ d) r
                      | None => None
                      end
             end = Some (l, r) ->
             (List.length r < List.length s1)%nat).
  { intros sg [|c s2]; [discriminate|]. destruct (c =? 48).
    - intros H. apply parse_fraction_length in H. cbn [List.length]. lia.
    - destruct (digits1 (c :: s2)) as [[d r']|] eqn:E; [|discriminate].
      intros H. apply parse_fraction_length in H. apply digits1_length in E.
      lia. }
  destruct s as [|c s']; [discriminate|].
  destruct (c =? 45).
  - intros H. apply (Hbody [c] s') in H. cbn [List.length]. lia.
  - apply (Hbody [] (c :: s')).
Qed.

Lemma parse_literal_length (word : jsstring) (v v' : json) (s r : jsstring) :
  word <> [] -> parse_literal word v s = Ok v' r ->
  (List.length r < List.length s)%nat.
Proof.
  unfold parse_literal. intros Hw.
  destruct (strip_prefix word s) as [r'|] eqn:E; [|discriminate].
  intros H. injection H as _ <-. apply strip_prefix_length in E.
  destruct word; [contradiction|cbn [List.length] in E; lia].
Qed.

Ltac skip_ws_facts :=
  repeat match goal with
    | H : context [skip_ws ?x] |- _ =>
        lazymatch goal with
        | _ : (List.length (skip_ws x) <= List.length x)%nat |- _ => fail
        | _ => pose proof (skip_ws_length x)
        end
    end.

Ltac break_hyp H :=
  match type of H with
  | context [match ?x with _ => _ end] => destruct x eqn:?
  end.

Ltac length_facts :=
  skip_ws_facts;
  repeat match goal with
    | E : parse_string_chars _ = Some _ |- _ =>
        apply parse_string_chars_length in E
    | E : strip_prefix _ _ = Some _ |- _ => apply strip_prefix_length in E
    | E : parse_number _ = Some _ |- _ => apply parse_number_length in E
    | E : parse_literal _ _ _ = Ok _ _ |- _ =>
        apply parse_literal_length in E; [|discriminate]
    | E : skip_ws ?x = _ :: _ |- _ => apply (f_equal (@List.length N)) in E
    end;
  cbn [List.length] in *.

Section ParserSteps.
Variable value : jsstring -> parsed json.
Variable members : properties -> jsstring -> parsed json.
Variable elements : list json -> jsstring -> parsed json.

Hypothesis value_consumes :
  forall s v r, value s = Ok v r -> (List.length r < List.length s)%nat.
Hypothesis members_consumes : consumes members.
Hypothesis elements_consumes : consumes elements.

Lemma value_step_consumes (s : jsstring) (v : json) (r : jsstring) :
  value_step members elements s = Ok v r ->
  (List.length r < List.length s)%nat.
Proof.
  unfold value_step. intros H.
  repeat break_hyp H; try discriminate; try (injection H as <- <-);
    repeat match goal with
      | E : members _ _ = Ok _ _ |- _ => apply members_consumes in E
      | E : elements _ _ = Ok _ _ |- _ => apply elements_consumes in E
      end;
    length_facts; lia.
Qed.

Lemma members_step_consumes : consumes (members_step value members).
Proof.
  unfold consumes, members_step. intros acc s v r H.
  repeat break_hyp H; try discriminate; try (injection H as <- <-);
    repeat match goal with
      | E : value _ = Ok _ _ |- _ => apply value_consumes in E
      | E : members _ _ = Ok _ _ |- _ => apply members_consumes in E
      end;
    length_facts; lia.
Qed.

Lemma elements_step_consumes : consumes (elements_step value elements).
Proof.
  unfold consumes, elements_step. intros acc s v r H.
  repeat break_hyp H; try discriminate; try (injection H as <- <-);
    repeat match goal with
      | E : value _ = Ok _ _ |- _ => apply value_consumes in E
      | E : elements _ _ = Ok _ _ |- _ => apply elements_consumes in E
      end;
    length_facts; lia.
Qed.

End ParserSteps.

Section MoreFuel.
Variables value value' : jsstring -> parsed json.
Variables members members' : properties -> jsstring -> parsed json.
Variables elements elements' : list json -> jsstring -> parsed json.

Hypothesis value_more : forall s, value s <> OutOfFuel -> value' s = value s.
Hypothesis members_more :
  forall acc s, members acc s <> OutOfFuel -> members' acc s = members acc s.
Hypothesis elements_more :
  forall acc s, elements acc s <> OutOfFuel -> elements' acc s = elements acc s.

Lemma value_step_more (s : jsstring) :
  value_step members elements s <> OutOfFuel ->
  value_step members' elements' s = value_step members elements s.
Proof.
  unfold value_step. intros H.
  repeat match goal with
    | |- context [match ?x with _ => _ end] => destruct x eqn:?
    end;
    try reflexivity; try discriminate; auto.
Qed.

Lemma members_step_more (acc : properties) (s : jsstring) :
  members_step value members acc s <> OutOfFuel ->
  members_step value' members' acc s = members_step value members acc s.
Proof.
  unfold members_step. intros H.
  destruct (strip_prefix [34] (skip_ws s)) as [s1|]; [|reflexivity].
  destruct (parse_string_chars s1) as [[key s2]|]; [|reflexivity].
  destruct (strip_prefix [58] (skip_ws s2)) as [s3|]; [|reflexivity].
  rewrite value_more by (intros E; rewrite E in H; now apply H).
  destruct (value s3) as [v s4| |]; try reflexivity.
  destruct (skip_ws s4) as [|c s5]; [reflexivity|].
  destruct (c =? 44); [now apply members_more|reflexivity].
Qed.

Lemma elements_step_more (acc : list json) (s : jsstring) :
  elements_step value elements acc s <> OutOfFuel ->
  elements_step value' elements' acc s = elements_step value elements acc s.
Proof.
  unfold elements_step. intros H.
  rewrite value_more by (intros E; rewrite E in H; now apply H).
  destruct (value s) as [v s1| |]; try reflexivity.
  destruct (skip_ws s1) as [|c s2]; [reflexivity|].
  destruct (c =? 44); [now apply elements_more|reflexivity].
Qed.

End MoreFuel.

Section Enough.
Variable fuel : nat.
Variable value : jsstring -> parsed json.
Variable members : properties -> jsstring -> parsed json.
Variable elements : list json -> jsstring -> parsed json.

Hypothesis value_consumes :
  forall s v r, value s = Ok v r -> (List.length r < List.length s)%nat.
Hypothesis value_enough :
  forall s, (2 * List.length s < fuel)%nat -> value s <> OutOfFuel.
Hypothesis members_enough :
  forall acc s, (2 * List.length s < fuel)%nat -> members acc s <> OutOfFuel.
Hypothesis elements_enough :
  forall acc s,
    (2 * List.length s + 1 < fuel)%nat -> elements acc s <> OutOfFuel.

Lemma value_step_enough (s : jsstring) :
  (2 * List.length s < S fuel)%nat ->
  value_step members elements s <> OutOfFuel.
Proof.
  unfold value_step, parse_literal. intros Hs H.
  repeat break_hyp H; try discriminate.
  - apply members_enough in H; [exact H|]. length_facts. lia.
  - apply elements_enough in H; [exact H|]. length_facts. lia.
Qed.

Lemma members_step_enough (acc : properties) (s : jsstring) :
  (2 * List.length s < S fuel)%nat ->
  members_step value members acc s <> OutOfFuel.
Proof.
  unfold members_step. intros Hs H.
  repeat break_hyp H; try discriminate.
  - apply members_enough in H; [exact H|].
    repeat match goal with
      | E : value _ = Ok _ _ |- _ => apply value_consumes in E
      end.
    length_facts. lia.
  - match goal with
    | E : value _ = OutOfFuel |- _ => apply value_enough in E; [exact E|]
    end.
    length_facts. lia.
Qed.

Lemma elements_step_enough (acc : list json) (s : jsstring) :
  (2 * List.length s + 1 < S fuel)%nat ->
  elements_step value elements acc s <> OutOfFuel.
Proof.
  unfold elements_step. intros Hs H.
  repeat break_hyp H; try discriminate.
  - apply elements_enough in H; [exact H|].
    repeat match goal with
      | E : value _ = Ok _ _ |- _ => apply value_consumes in E
      end.
    length_facts. lia.
  - match goal with
    | E : value _ = OutOfFuel |- _ => apply value_enough in E; [exact E|]
    end.
    lia.
Qed.

End Enough.

Lemma parse_consumes (fuel : nat) :
  (forall s v r, parse_value fuel s = Ok v r ->
                 (List.length r < List.length s)%nat) /\
  consumes (parse_members fuel) /\ consumes (parse_elements fuel).
Proof.
  induction fuel as [|fuel (IHv & IHm & IHe)];
    [repeat split; repeat intro; discriminate|].
  split; [|split]; cbn [parse_value parse_members parse_elements].
  - now apply value_step_consumes.
  - now apply members_step_consumes.
  - now apply elements_step_consumes.
Qed.

Lemma parse_more_fuel (fuel : nat) :
  (forall s, parse_value fuel s <> OutOfFuel ->
             parse_value (S fuel) s = parse_value fuel s) /\
  (forall acc s, parse_members fuel acc s <> OutOfFuel ->
                 parse_members (S fuel) acc s = parse_members fuel acc s) /\
  (forall acc s, parse_elements fuel acc s <> OutOfFuel ->
                 parse_elements (S fuel) acc s = parse_elements fuel acc s).
Proof.
  induction fuel as [|fuel (IHv & IHm & IHe)];
    [repeat split; intros; now exfalso|].
  split; [|split]; intros.
  - now apply value_step_more.
  - now apply members_step_more.
  - now apply elements_step_more.
Qed.

Lemma parse_enough (fuel : nat) :
  (forall s, (2 * List.length s < fuel)%nat ->
             parse_value fuel s <> OutOfFuel) /\
  (forall acc s, (2 * List.length s < fuel)%nat ->
                 parse_members fuel acc s <> OutOfFuel) /\
  (forall acc s, (2 * List.length s + 1 < fuel)%nat ->
                 parse_elements fuel acc s <> OutOfFuel).
Proof.
  induction fuel as [|fuel (IHv & IHm & IHe)]; [repeat split; intros; lia|].
  destruct (parse_consumes fuel) as (Hv & _ & _).
  split; [|split]; intros.
  - now apply (value_step_enough fuel).
  - now apply (members_step_enough fuel).
  - now apply (elements_step_enough fuel).
Qed.

(** With any fuel above twice the length of the text, the parser gives
    what [JSON_parse] computes with: the fuel is never used up, and more
    of it changes nothing. *)
Theorem JSON_parse_fuel (text : jsstring) (fuel : nat) :
  (2 * List.length text < fuel)%nat ->
  parse_value fuel text <> OutOfFuel /\
  parse_value fuel text = parse_value (S (2 * List.length text)) text.
Proof.
  intros H. split; [now apply parse_enough|].
  induction fuel as [|fuel IH]; [lia|].
  destruct (Nat.eq_dec fuel (2 * List.length text)) as [->|Hne];
    [reflexivity|].
  rewrite <- IH by lia.
  apply parse_more_fuel, parse_enough. lia.
Qed.

(** ** The comparator of the second revision on versions of any length *)

Lemma Part003_compare_from_shift (aParts bParts : list number) (todo i : nat) :
  Part003.compare_from aParts bParts todo (S i)
  = Part003.compare_from (tl aParts) (tl bParts) todo i.
Proof.
  revert i. induction todo as [|todo IH]; intros i; [reflexivity|].
  cbn [Part003.compare_from]. unfold part.
  assert (Htl : forall l : list number, nth_error l (S i) = nth_error (tl l) i)
    by (intros [|x l]; [now destruct i|reflexivity]).
  now rewrite !Htl, IH.
Qed.

Lemma dotted_compare_nil_r (a : list N) :
  dotted_compare a [] = if forallb (N.eqb 0) a then Eq else Gt.
Proof. now destruct a. Qed.

Lemma Part003_compare_from_exact (a : list N) :
  forall b : list N,
    Part003.compare_from (List.map Fin a) (List.map Fin b)
      (Nat.max (List.length a) (List.length b)) 0
    = descending (dotted_compare a b).
Proof.
  induction a as [|x a IHa].
  - induction b as [|y b IHb]; [reflexivity|].
    cbn [List.length Nat.max List.map Part003.compare_from part nth_error
           dotted_compare forallb].
    rewrite or_zero_Fin. change (or_zero None) with (Some (Fin 0)).
    cbn [strict_neq sign_of_difference].
    destruct (N.eqb_spec 0 y) as [<-|Hy].
    + cbn [negb andb]. rewrite Part003_compare_from_shift.
      cbn [tl]. exact IHb.
    + cbn [negb andb descending].
      destruct (N.compare_spec y 0); try lia. reflexivity.
  - intros [|y b].
    + rewrite dotted_compare_nil_r.
      cbn [List.length Nat.max List.map Part003.compare_from part nth_error
             forallb].
      rewrite or_zero_Fin. change (or_zero None) with (Some (Fin 0)).
      cbn [strict_neq sign_of_difference].
      destruct (N.eqb_spec x 0) as [->|Hx].
      * cbn [negb N.eqb andb]. rewrite Part003_compare_from_shift. cbn [tl].
        specialize (IHa []). rewrite dotted_compare_nil_r in IHa.
        cbn [List.length List.map] in IHa. rewrite Nat.max_0_r in IHa.
        exact IHa.
      * cbn [negb]. destruct (N.eqb_spec 0 x) as [<-|_]; [contradiction|].
        cbn [andb descending].
        destruct (N.compare_spec 0 x); try lia. reflexivity.
    + cbn [List.length Nat.max List.map Part003.compare_from part nth_error
             dotted_compare].
      rewrite !or_zero_Fin. cbn [strict_neq sign_of_difference].
      destruct (N.eqb_spec x y) as [->|Hxy].
      * cbn [negb]. rewrite N.compare_refl, Part003_compare_from_shift.
        cbn [tl]. apply IHa.
      * cbn [negb].
        destruct (N.compare_spec y x), (N.compare_spec x y); try lia;
          reflexivity.
Qed.

Lemma dotted_numeric_parts (v : jsstring) :
  dotted_numeric v -> exact_version v ->
  version_parts v = List.map Fin (components v).
Proof.
  unfold dotted_numeric, exact_version, version_parts, components.
  induction (split_on 46 v) as [|d l IH]; intros Hd He; [reflexivity|].
  inversion Hd; inversion He; subst. cbn [List.map].
  rewrite Number_digit_run, round_to_double_exact by assumption.
  f_equal. now apply IH.
Qed.

(** X1: on all dotted-numeric versions whose components are below
    [2^53], of any number of components, the comparator of the second
    revision is the dotted-numeric order, descending, in which a component
    that is missing at the end counts as [0]. *)
Lemma Part003_compareVersions_dotted (a b : jsstring) :
  dotted_numeric a -> dotted_numeric b ->
  exact_version a -> exact_version b ->
  Part003.compareVersions a b
  = descending (dotted_compare (components a) (components b)).
Proof.
  intros Ha Hb Ea Eb. unfold Part003.compareVersions. cbv zeta.
  rewrite (dotted_numeric_parts a Ha Ea), (dotted_numeric_parts b Hb Eb).
  rewrite !length_map. apply Part003_compare_from_exact.
Qed.

(** The order on the examples of the specification, and the one place
    where the comparators differ: versions of unequal length, which the
    pattern of the listing never yields. *)
Example dotted_order_examples :
  dotted_compare (components (str "1.90.10")) (components (str "1.90.6")) = Gt /\
  dotted_compare (components (str "1.90")) (components (str "1.90.0")) = Eq /\
  Part003.compareVersions (str "1.90.6") (str "1.90.10") = Positive /\
  UpdateTs.compareVersions (str "1.90.6") (str "1.90.10") = Positive /\
  Part003.compareVersions (str "1.90") (str "1.90.1") = Positive /\
  UpdateTs.compareVersions (str "1.90") (str "1.90.1") = NotANumber.
Proof. repeat split; vm_compute; reflexivity. Qed.

(** ** The stored identifier and [extractVersion] *)

Lemma extractVersion_identifier (v : jsstring) :
  is_version v -> extractVersion (str "tailscale_" ++ v ++ str "_amd64") = v.
Proof.
  intros (d1 & d2 & d3 & H1 & H2 & H3 & ->).
  apply (extractVersion_leftmost _ [] d1 d2 d3 []).
  - do 3 (split; [assumption|]). now app_norm.
  - intros pre' ? ? ? ? _. cbn. lia.
Qed.

Lemma extractVersion_is_version (s : jsstring) :
  extractVersion s <> [] -> is_version (extractVersion s).
Proof.
  unfold extractVersion.
  destruct (regex_match [] s) as [v|] eqn:E; [|congruence].
  intros _. apply regex_match_sound in E
    as (pre & d1 & d2 & d3 & post & (H1 & H2 & H3 & _) & ->).
  now exists d1, d2, d3.
Qed.

(** X2: what [main] stores for a version, [tailscale_<version>_amd64], is
    read back by [extractVersion] as that version exactly when the
    version is three runs of digits with dots between them. *)
Theorem extractVersion_of_stored_identifier (v : jsstring) :
  v <> [] ->
  (extractVersion (str "tailscale_" ++ v ++ str "_amd64") = v
   <-> is_version v).
Proof.
  intros Hne. split.
  - intros E. rewrite <- E. apply extractVersion_is_version. congruence.
  - apply extractVersion_identifier.
Qed.

Lemma extractVersion_of_stored_identifier_witness :
  extractVersion (str "tailscale_" ++ str "1.92.0" ++ str "_amd64")
  = str "1.92.0"
  <-> is_version (str "1.92.0").
Proof.
  apply (extractVersion_of_stored_identifier (str "1.92.0")). discriminate.
Defined.

(** ** Runs that end after reading the configuration *)

Section Unusable.
Variable print_number : jsstring -> jsstring.
Variable BUILD_SCRIPT : jsstring.
Variable compareVersions : jsstring -> jsstring -> sign.
Variable fetchSHA256 : jsstring -> prog (option jsstring).

Let script := main print_number BUILD_SCRIPT compareVersions fetchSHA256.

Lemma run_main_read (w : World) :
  run w script [] =
  run w (check print_number BUILD_SCRIPT compareVersions fetchSHA256
           (match on_readTextFile w [] CONFIG_PATH with
            | Some content =>
                match JSON_parse content with
                | Some config => config
                | None => JNull
                end
            | None => JNull
            end))
    [EvReadTextFile CONFIG_PATH (on_readTextFile w [] CONFIG_PATH)].
Proof.
  unfold script, main. rewrite run_bind. unfold readConfig. cbn [run app].
  destruct (on_readTextFile w [] CONFIG_PATH) as [content|]; [|reflexivity].
  now destruct (JSON_parse content).
Qed.

Lemma no_config_stops (w : World) :
  on_readTextFile w [] CONFIG_PATH = None \/
  (exists content,
      on_readTextFile w [] CONFIG_PATH = Some content /\
      (JSON_parse content = None \/
       exists config, JSON_parse content = Some config /\
                      truthy config = false)) ->
  stops_after_reading script w (Exited 1%Z).
Proof.
  intros H. unfold stops_after_reading. rewrite run_main_read.
  destruct H as [->|(content & -> & [->|(config & -> & Hfalse)])];
    try reflexivity.
  unfold check. now rewrite Hfalse.
Qed.

Lemma config_without_identifier_throws (w : World) (content : jsstring)
  (config : json) :
  on_readTextFile w [] CONFIG_PATH = Some content ->
  JSON_parse content = Some config ->
  truthy config = true ->
  string_field config (str "tailscaleVersion") = None ->
  stops_after_reading script w Uncaught.
Proof.
  intros Hread Hparse Htruthy Hfield. unfold stops_after_reading.
  rewrite run_main_read, Hread, Hparse. unfold check. rewrite Htruthy.
  cbn [negb]. destruct config as [| | | | |props]; try reflexivity.
  unfold string_field in Hfield.
  destruct (obj_get (str "tailscaleVersion") props) as [[| | |tv| |]|];
    try reflexivity.
  discriminate.
Qed.

End Unusable.

(** X3: when the configuration file cannot be read, does not hold JSON, or
    holds a value that counts as false ([null], [false], [0], the empty
    string), both revisions stop right after reading it, with
    [Deno.exit(1)]: nothing is fetched, written or built. *)
Theorem unreadable_config_exits_1 (print_number : jsstring -> jsstring)
  (w : World) :
  on_readTextFile w [] CONFIG_PATH = None \/
  (exists content,
      on_readTextFile w [] CONFIG_PATH = Some content /\
      (JSON_parse content = None \/
       exists config, JSON_parse content = Some config /\
                      truthy config = false)) ->
  stops_after_reading (UpdateTs.main print_number) w (Exited 1%Z) /\
  stops_after_reading (Part003.main print_number) w (Exited 1%Z).
Proof. intros H. split; now apply no_config_stops. Qed.

Lemma unreadable_config_exits_1_witness :
  stops_after_reading (UpdateTs.main (fun lexeme => lexeme))
    (empty_world (Some (str "{ not json"))) (Exited 1%Z) /\
  stops_after_reading (Part003.main (fun lexeme => lexeme))
    (empty_world (Some (str "{ not json"))) (Exited 1%Z).
Proof.
  apply (unreadable_config_exits_1 (fun lexeme => lexeme)
           (empty_world (Some (str "{ not json")))).
  right. exists (str "{ not json"). split; [reflexivity|].
  left. vm_compute. reflexivity.
Defined.

(** X4: when the configuration file holds JSON that counts as true but has
    no string under [tailscaleVersion] (an object without the field or
    with another kind of value there, an array, a number, a string), the
    call of [match] in [extractVersion] is a [TypeError] that nothing
    catches: both revisions end right after reading the file, with exit
    status 1. *)
Theorem config_without_tailscaleVersion_throws
  (print_number : jsstring -> jsstring) (w : World) (content : jsstring)
  (config : json) :
  on_readTextFile w [] CONFIG_PATH = Some content ->
  JSON_parse content = Some config ->
  truthy config = true ->
  string_field config (str "tailscaleVersion") = None ->
  (stops_after_reading (UpdateTs.main print_number) w Uncaught /\
   exit_status (snd (run w (UpdateTs.main print_number) [])) = 1%Z) /\
  (stops_after_reading (Part003.main print_number) w Uncaught /\
   exit_status (snd (run w (Part003.main print_number) [])) = 1%Z).
Proof.
  intros H1 H2 H3 H4.
  pose proof (config_without_identifier_throws print_number
                UpdateTs.BUILD_SCRIPT UpdateTs.compareVersions
                UpdateTs.fetchSHA256 w content config H1 H2 H3 H4) as HU.
  pose proof (config_without_identifier_throws print_number
                Part003.BUILD_SCRIPT Part003.compareVersions
                Part003.fetchSHA256 w content config H1 H2 H3 H4) as HP.
  split; (split; [assumption|]).
  - unfold UpdateTs.main. now rewrite HU.
  - unfold Part003.main. now rewrite HP.
Qed.

Lemma config_without_tailscaleVersion_throws_witness :
  (stops_after_reading (UpdateTs.main (fun lexeme => lexeme))
     (empty_world (Some (str "{}"))) Uncaught /\
   exit_status (snd (run (empty_world (Some (str "{}")))
                       (UpdateTs.main (fun lexeme => lexeme)) [])) = 1%Z) /\
  (stops_after_reading (Part003.main (fun lexeme => lexeme))
     (empty_world (Some (str "{}"))) Uncaught /\
   exit_status (snd (run (empty_world (Some (str "{}")))
                       (Part003.main (fun lexeme => lexeme)) [])) = 1%Z).
Proof.
  apply (config_without_tailscaleVersion_throws (fun lexeme => lexeme)
           (empty_world (Some (str "{}"))) (str "{}") (JObj []));
    vm_compute; reflexivity.
Defined.

(** ** The release of GitHub *)

(** X5: [fetchLatestVersionFromGitHub] makes one request, never throws and
    never exits; it returns a version exactly when the response is [ok]
    and its body is a JSON object with a string under [tag_name], and
    [null] in every other case. *)
Theorem github_version_or_null (w : World) (t : trace) :
  exists version,
    run w fetchLatestVersionFromGitHub t
    = (t ++ [EvFetch GITHUB_API_URL (on_fetch w t GITHUB_API_URL)],
       Returned version) /\
    forall v,
      version = Some v <->
      exists body data tagName,
        on_fetch w t GITHUB_API_URL = Response true (Some body) /\
        JSON_parse body = Some (JObj data) /\
        obj_get (str "tag_name") data = Some (JStr tagName) /\
        v = strip_v tagName.
Proof.
  unfold fetchLatestVersionFromGitHub. cbn [run].
  destruct (on_fetch w t GITHUB_API_URL) as [|[] [body|]] eqn:Hfetch;
    try (exists None; split; [reflexivity|];
         intros v; split; [discriminate|];
         intros (b & d & tg & H1 & _); discriminate).
  destruct (JSON_parse body) as [[| | | | |data]|] eqn:Hparse;
    try (exists None; split; [reflexivity|];
         intros v; split; [discriminate|];
         intros (b0 & d & tg & [= <-] & H2 & _); congruence).
  destruct (obj_get (str "tag_name") data) as [[| | |tagName| |]|] eqn:Htag;
    try (exists None; split; [reflexivity|];
         intros v; split; [discriminate|];
         intros (b0 & d & tg & [= <-] & H2 & H3 & _); congruence).
  exists (Some (strip_v tagName)). split; [reflexivity|].
  intros v; split.
  - intros [= <-]. now exists body, data, tagName.
  - intros (b0 & d & tg & [= <-] & H2 & H3 & ->). congruence.
Qed.

(** ** A listing without versions *)

Section NoVersion.
Variable print_number : jsstring -> jsstring.
Variable BUILD_SCRIPT : jsstring.
Variable compareVersions : jsstring -> jsstring -> sign.
Variable fetchSHA256 : jsstring -> prog (option jsstring).

Let script := main print_number BUILD_SCRIPT compareVersions fetchSHA256.

Lemma latestInListing_none (html : jsstring) :
  matchAll (str ".tgz") html = [] -> latestInListing compareVersions html = None.
Proof. unfold latestInListing. cbv zeta. now intros ->. Qed.

Lemma empty_listing_stops (w : World) (config : properties)
  (tailscaleVersion html : jsstring) (t0 : trace) :
  run w readConfig [] = (t0, Returned (JObj config)) ->
  obj_get (str "tailscaleVersion") config = Some (JStr tailscaleVersion) ->
  on_fetch w t0 TAILSCALE_STABLE_URL = Response true (Some html) ->
  matchAll (str ".tgz") html = [] ->
  run w script []
  = (t0 ++ [EvFetch TAILSCALE_STABLE_URL (Response true (Some html))],
     Exited 1%Z).
Proof.
  intros Hread Hprop Hfetch Hnone. unfold script, main.
  rewrite run_bind, Hread. unfold check. cbn [truthy negb].
  rewrite Hprop, run_bind.
  rewrite (run_fetchLatestTailscaleVersion_listing _ _ _ _ Hfetch).
  now rewrite latestInListing_none.
Qed.

End NoVersion.

(** X6: when the listing is fetched but names no artifact of the pattern,
    [fetchLatestTailscaleVersion] returns [null] at once: GitHub is not
    asked, and both revisions end with exit status 1 right after the
    request for the listing. *)
Theorem listing_without_versions_exits_1
  (print_number : jsstring -> jsstring) (w : World) (config : properties)
  (tailscaleVersion html : jsstring) (t0 : trace) :
  run w readConfig [] = (t0, Returned (JObj config)) ->
  obj_get (str "tailscaleVersion") config = Some (JStr tailscaleVersion) ->
  on_fetch w t0 TAILSCALE_STABLE_URL = Response true (Some html) ->
  matchAll (str ".tgz") html = [] ->
  run w (UpdateTs.main print_number) []
  = (t0 ++ [EvFetch TAILSCALE_STABLE_URL (Response true (Some html))],
     Exited 1%Z) /\
  run w (Part003.main print_number) []
  = (t0 ++ [EvFetch TAILSCALE_STABLE_URL (Response true (Some html))],
     Exited 1%Z).
Proof.
  intros H1 H2 H3 H4.
  split; now apply (empty_listing_stops _ _ _ _ w config tailscaleVersion).
Qed.

Lemma listing_without_versions_exits_1_witness :
  let w := plain_world (Some Sample.config)
             (Sample.network (str "<html>tailscale_1.92_amd64.tgz</html>")
                Sample.checksum_file)
             Sample.today (Some 0%Z) in
  let t := [EvReadTextFile CONFIG_PATH (Some Sample.config);
            EvFetch TAILSCALE_STABLE_URL
              (Response true
                 (Some (str "<html>tailscale_1.92_amd64.tgz</html>")))] in
  run w (UpdateTs.main (fun lexeme => lexeme)) [] = (t, Exited 1%Z) /\
  run w (Part003.main (fun lexeme => lexeme)) [] = (t, Exited 1%Z).
Proof.
  cbv zeta.
  apply (listing_without_versions_exits_1 (fun lexeme => lexeme)
           (plain_world (Some Sample.config)
              (Sample.network (str "<html>tailscale_1.92_amd64.tgz</html>")
                 Sample.checksum_file)
              Sample.today (Some 0%Z))
           Sample.config_props (str "tailscale_1.90.6_amd64")
           (str "<html>tailscale_1.92_amd64.tgz</html>")
           [EvReadTextFile CONFIG_PATH (Some Sample.config)]);
    vm_compute; reflexivity.
Defined.

(** ** What a run may ask for *)

Lemma requests_only_bind {A B : Type} (ok : event -> Prop) (p : prog A)
  (f : A -> prog B) :
  requests_only ok p -> (forall a, requests_only ok (f a)) ->
  requests_only ok (bind p f).
Proof.
  intros Hp Hf. induction Hp; cbn [bind]; try constructor; auto.
Qed.

Lemma requests_only_run {A : Type} (ok : event -> Prop) (w : World)
  (p : prog A) (t : trace) :
  requests_only ok p -> exists es, fst (run w p t) = t ++ es /\ Forall ok es.
Proof.
  intros Hp. revert t.
  induction Hp as [a|code| |url k Hok Hk IH|path k Hok Hk IH
                   |path content k Hok Hk IH|k Hok Hk IH|c a d k Hok Hk IH];
    intros t; cbn [run fst];
    try (exists []; split; [now rewrite app_nil_r|constructor]);
    match goal with
    | |- context [run w (k ?r) (t ++ [?e])] =>
        destruct (IH r (t ++ [e])) as (es & -> & Hes); exists (e :: es);
        split; [now rewrite <- app_assoc|constructor; auto]
    end.
Qed.

Lemma fetchLatestVersionFromGitHub_requests (BUILD_SCRIPT : jsstring) :
  requests_only (after_reading BUILD_SCRIPT) fetchLatestVersionFromGitHub.
Proof.
  constructor; [intros r; cbn; auto|].
  intros [|[] [body|]]; try constructor.
  destruct (JSON_parse body) as [[| | | | |data]|]; try constructor.
  destruct (obj_get (str "tag_name") data) as [[| | |tag| |]|]; constructor.
Qed.

Lemma fetchLatestTailscaleVersion_requests (BUILD_SCRIPT : jsstring)
  (compareVersions : jsstring -> jsstring -> sign) :
  requests_only (after_reading BUILD_SCRIPT)
    (fetchLatestTailscaleVersion compareVersions).
Proof.
  constructor; [intros r; cbn; auto|].
  intros [|[] [body|]]; try apply fetchLatestVersionFromGitHub_requests.
  constructor.
Qed.

Lemma UpdateTs_fetchSHA256_requests (BUILD_SCRIPT latest : jsstring) :
  requests_only (after_reading BUILD_SCRIPT)
    (UpdateTs.fetchSHA256 (artifact latest)).
Proof.
  constructor; [intros r; cbn; right; right; now exists latest|].
  intros [|[] [body|]]; try constructor;
    try (intros r; cbn; now auto);
    intros [|[] [html|]]; constructor.
Qed.

Lemma Part003_fetchSHA256_requests (BUILD_SCRIPT latest : jsstring) :
  requests_only (after_reading BUILD_SCRIPT)
    (Part003.fetchSHA256 (artifact latest)).
Proof.
  constructor; [intros r; cbn; right; right; now exists latest|].
  intros [|[] [body|]]; try constructor.
  cbv zeta. destruct (negb (is_sha256_hex (first_token body))); constructor.
Qed.

Section Requests.
Variable print_number : jsstring -> jsstring.
Variable BUILD_SCRIPT : jsstring.
Variable compareVersions : jsstring -> jsstring -> sign.
Variable fetchSHA256 : jsstring -> prog (option jsstring).
Hypothesis fetchSHA256_requests :
  forall latest,
    requests_only (after_reading BUILD_SCRIPT) (fetchSHA256 (artifact latest)).

Let script := main print_number BUILD_SCRIPT compareVersions fetchSHA256.

Lemma update_requests (config : properties) (latest : jsstring) :
  requests_only (after_reading BUILD_SCRIPT)
    (update print_number BUILD_SCRIPT fetchSHA256 config latest).
Proof.
  unfold update. cbv zeta. apply requests_only_bind.
  - apply fetchSHA256_requests.
  - intros [[|c sha256]|]; [constructor| |constructor].
    unfold getCurrentDate, writeConfig. cbn [bind].
    constructor; [now intros|]. intros now.
    constructor; [now intros|]. intros [|]; cbn [negb]; [|constructor].
    unfold buildPlugin. cbn [bind].
    constructor; [now intros|].
    intros [code|]; cbn [bind negb]; [|constructor].
    destruct (code =? 0)%Z; constructor.
Qed.

Lemma check_requests (config : json) :
  requests_only (after_reading BUILD_SCRIPT)
    (check print_number BUILD_SCRIPT compareVersions fetchSHA256 config).
Proof.
  unfold check. destruct (truthy config); cbn [negb]; [|constructor].
  destruct config as [| | | | |props]; try solve [constructor].
  destruct (obj_get (str "tailscaleVersion") props) as [[| | |tv| |]|];
    try solve [constructor].
  apply requests_only_bind.
  - apply fetchLatestTailscaleVersion_requests.
  - intros [[|c latest]|]; try solve [constructor].
    destruct (jsstring_eqb _ _); [constructor|apply update_requests].
Qed.

Lemma main_reads_then (w : World) : reads_then BUILD_SCRIPT script w.
Proof.
  unfold reads_then.
  rewrite (run_main_read print_number BUILD_SCRIPT compareVersions fetchSHA256).
  match goal with
  | |- context [run w ?p ?t] =>
      destruct (requests_only_run (after_reading BUILD_SCRIPT) w p t
                  (check_requests _)) as (es & -> & Hes)
  end.
  now exists es.
Qed.

End Requests.

(** X7: in every run of either revision the first thing that happens is
    the reading of the configuration file, and everything after it is a
    request for the listing, for the release of GitHub or for the checksum
    of an artifact, the reading of the clock, a write of the configuration
    file, or the build script run by [sh] in the tools directory: no other
    file is read or written, no other address is fetched and no other
    command is run. *)
Theorem main_only_asks_for_its_own (print_number : jsstring -> jsstring)
  (w : World) :
  reads_then UpdateTs.BUILD_SCRIPT (UpdateTs.main print_number) w /\
  reads_then Part003.BUILD_SCRIPT (Part003.main print_number) w.
Proof.
  split; apply main_reads_then; intros latest.
  - apply UpdateTs_fetchSHA256_requests.
  - apply Part003_fetchSHA256_requests.
Qed.

(** ** The exit status *)

Section Outcome.
Variable print_number : jsstring -> jsstring.
Variable BUILD_SCRIPT : jsstring.
Variable compareVersions : jsstring -> jsstring -> sign.
Variable fetchSHA256 : jsstring -> prog (option jsstring).
Hypothesis fetchSHA256_fetches_only :
  forall packageName, fetches_only (fetchSHA256 packageName).

Let script := main print_number BUILD_SCRIPT compareVersions fetchSHA256.

(** A run of [main] that does not get as far as the checksum ends with
    [Deno.exit] or with an exception. *)
Lemma run_main_outcome (w : World) :
  (writes (fst (run w script [])) = [] /\
   filter is_command (fst (run w script [])) = [] /\
   (snd (run w script []) = Exited 0%Z \/
    snd (run w script []) = Exited 1%Z \/
    snd (run w script []) = Uncaught)) \/
  exists config latest sha256 t,
    writes t = [] /\ filter is_command t = [] /\
    run w script []
    = after_checksum print_number BUILD_SCRIPT config latest w t sha256.
Proof.
  destruct (run_readConfig w []) as (config & Hread). cbn [app] in Hread.
  set (t0 := [EvReadTextFile CONFIG_PATH (on_readTextFile w [] CONFIG_PATH)])
    in *.
  destruct (run_fetches_only w (fetchLatestTailscaleVersion compareVersions) t0
              (fetchLatestTailscaleVersion_fetches_only compareVersions))
    as (es1 & latest & Hlatest & Hes1).
  pose proof (quiet_before_compare compareVersions w config t0 (t0 ++ es1)
                latest Hread Hlatest) as Hq1.
  unfold script, main. rewrite run_bind, Hread. unfold check.
  destruct (truthy config) eqn:Htruthy; cbn [negb];
    [|left; cbn; auto].
  destruct config as [| | | | |props]; try (left; cbn; now auto).
  destruct (obj_get (str "tailscaleVersion") props)
    as [[| | |tailscaleVersion| |]|] eqn:Hprop; try (left; cbn; now auto).
  rewrite run_bind, Hlatest.
  destruct latest as [[|c latest]|];
    try (left; cbn [fst snd]; destruct Hq1; now auto).
  destruct (jsstring_eqb (extractVersion tailscaleVersion) (c :: latest));
    [left; cbn [fst snd]; destruct Hq1; now auto|].
  rewrite run_update.
  destruct (run_fetches_only w (fetchSHA256 (artifact (c :: latest)))
              (t0 ++ es1) (fetchSHA256_fetches_only _))
    as (es2 & sha & Hsha & Hes2).
  rewrite Hsha.
  assert (Hq2 : writes ((t0 ++ es1) ++ es2) = [] /\
                filter is_command ((t0 ++ es1) ++ es2) = []).
  { destruct Hq1 as [Hw Hc]. unfold writes in *.
    rewrite !(filter_app _ (t0 ++ es1) es2), Hw, Hc.
    split; eapply filter_all_false;
      eauto using fetch_not_write, fetch_not_command. }
  destruct sha as [[|d sha]|];
    try (left; cbn [fst snd]; destruct Hq2; now auto).
  right. exists props, (c :: latest), (d :: sha), ((t0 ++ es1) ++ es2).
  destruct Hq2. auto.
Qed.

Lemma main_exit_status (w : World) : exit_status_0_or_1 BUILD_SCRIPT script w.
Proof.
  unfold exit_status_0_or_1, ended_well. cbv zeta.
  destruct (run_main_outcome w)
    as [(Hw & Hc & Ho)|(config & latest & sha256 & t & Hw & Hc & Hrun)].
  - destruct Ho as [Ho|[Ho|Ho]]; rewrite Ho; cbn [exit_status].
    + split; [now left|]. split; [intros _; left; auto|reflexivity].
    + split; [now right|]. split; [discriminate|].
      intros [(H & _)|(H & _)]; discriminate.
    + split; [now right|]. split; [discriminate|].
      intros [(H & _)|(H & _)]; discriminate.
  - rewrite Hrun. unfold after_checksum. cbv zeta.
    destruct (on_writeTextFile w _ CONFIG_PATH _) eqn:Hwritten.
    + match goal with
      | |- context [on_commandOutput w ?a ?b ?c ?d] =>
          destruct (on_commandOutput w a b c d) as [code|]
      end.
      * destruct (code =? 0)%Z eqn:E; cbn [fst snd exit_status].
        -- apply Z.eqb_eq in E. subst code.
           split; [now left|]. split; [|reflexivity]. intros _. right.
           split; [reflexivity|].
           eexists (t ++ [EvNewDate (on_newDate w t)]), _.
           split; [now rewrite <- !app_assoc|].
           unfold writes in *. rewrite !filter_app, Hw, Hc. now split.
        -- split; [now right|]. split; [discriminate|].
           intros [(H & _)|(H & _)]; discriminate.
      * cbn [fst snd exit_status]. split; [now right|].
        split; [discriminate|]. intros [(H & _)|(H & _)]; discriminate.
    + cbn [fst snd exit_status]. split; [now right|].
      split; [discriminate|]. intros [(H & _)|(H & _)]; discriminate.
Qed.

End Outcome.

(** X8: the exit status of every run of either revision is [0] or [1];
    it is [0] only when the stored version is the latest one (nothing is
    written or built), or when [main] returns, which it does only after
    the configuration file was written and the build, the last event of
    the run, exited with code [0]. *)
Theorem exit_status_is_0_or_1 (print_number : jsstring -> jsstring)
  (w : World) :
  exit_status_0_or_1 UpdateTs.BUILD_SCRIPT (UpdateTs.main print_number) w /\
  exit_status_0_or_1 Part003.BUILD_SCRIPT (Part003.main print_number) w.
Proof.
  split; apply main_exit_status.
  - apply UpdateTs_fetchSHA256_fetches_only.
  - apply Part003_fetchSHA256_fetches_only.
Qed.

(** ** The first token of the checksum file *)

Lemma trimStart_spaces (lead s : jsstring) :
  forallb is_space lead = true -> trimStart (lead ++ s) = trimStart s.
Proof.
  induction lead as [|c lead IH]; cbn [forallb app trimStart]; [reflexivity|].
  intros H. apply andb_prop in H as [-> H]. auto.
Qed.

Lemma trimStart_app (x y : jsstring) :
  trimStart (x ++ y)
  = if forallb is_space x then trimStart y else trimStart x ++ y.
Proof.
  induction x as [|c x IH]; cbn [forallb app trimStart]; [reflexivity|].
  destruct (is_space c); cbn [andb]; auto.
Qed.

Lemma trimStart_all_spaces (x : jsstring) :
  forallb is_space x = true -> trimStart x = [].
Proof.
  intros H. rewrite <- (app_nil_r x). now rewrite trimStart_spaces.
Qed.

Lemma trimStart_token (hash s : jsstring) :
  hash <> [] -> no_space hash -> trimStart (hash ++ s) = hash ++ s.
Proof.
  destruct hash as [|c hash]; [congruence|]. intros _ H.
  unfold no_space in H. cbn [forallb] in H. apply andb_prop in H as [H _].
  cbn [app trimStart]. apply negb_true_iff in H. now rewrite H.
Qed.

Lemma no_space_rev (hash : jsstring) : no_space hash -> no_space (rev hash).
Proof.
  unfold no_space. rewrite !forallb_forall. intros H c Hc.
  apply H. now apply in_rev.
Qed.

(** What [trim] leaves of a token with white space before it. *)
Lemma trim_token (lead hash tail : jsstring) :
  forallb is_space lead = true -> hash <> [] -> no_space hash ->
  trim (lead ++ hash ++ tail) = hash ++ rev (trimStart (rev tail)).
Proof.
  intros Hlead Hne Hhash. unfold trim.
  rewrite trimStart_spaces, trimStart_token by assumption.
  rewrite rev_app_distr, trimStart_app.
  assert (Hrev : trimStart (rev hash) = rev hash).
  { rewrite <- (app_nil_r (rev hash)). apply trimStart_token.
    - intros E. apply Hne. rewrite <- (rev_involutive hash), E. reflexivity.
    - now apply no_space_rev. }
  destruct (forallb is_space (rev tail)) eqn:E.
  - rewrite Hrev, rev_involutive, trimStart_all_spaces by assumption.
    now rewrite app_nil_r.
  - now rewrite rev_app_distr, rev_involutive.
Qed.

Lemma ends_token_trimmed (tail : jsstring) :
  ends_token tail -> ends_token (rev (trimStart (rev tail))).
Proof.
  destruct tail as [|c tail]; [intros _; exact I|]. cbn [ends_token].
  intros Hc. cbn [rev]. rewrite trimStart_app.
  destruct (forallb is_space (rev tail)).
  - cbn [trimStart]. rewrite Hc. exact I.
  - rewrite rev_app_distr. cbn [rev app ends_token]. exact Hc.
Qed.

Lemma split_spaces_nonempty (in_space : bool) (s : jsstring) :
  split_spaces in_space s <> [].
Proof.
  revert in_space. induction s as [|c s IH]; intros in_space;
    cbn [split_spaces]; [discriminate|].
  destruct (is_space c); [destruct in_space; [apply IH|discriminate]|].
  destruct (split_spaces false s); discriminate.
Qed.

Lemma split_spaces_token (hash tail : jsstring) :
  no_space hash -> ends_token tail ->
  hd [] (split_spaces false (hash ++ tail)) = hash.
Proof.
  unfold no_space. induction hash as [|c hash IH]; intros Hhash Htail.
  - destruct tail as [|c tail]; [reflexivity|]. cbn [app split_spaces].
    cbn [ends_token] in Htail. now rewrite Htail.
  - cbn [forallb] in Hhash. apply andb_prop in Hhash as [Hc Hhash].
    apply negb_true_iff in Hc. cbn [app split_spaces]. rewrite Hc.
    specialize (IH Hhash Htail).
    pose proof (split_spaces_nonempty false (hash ++ tail)) as Hne.
    destruct (split_spaces false (hash ++ tail)) as [|t ts]; [congruence|].
    cbn [hd] in *. now rewrite IH.
Qed.

(** The token of a text that holds one: what stands between the white
    space at the front and the next white space. *)
Lemma first_token_token (lead hash tail : jsstring) :
  forallb is_space lead = true -> hash <> [] -> no_space hash ->
  ends_token tail ->
  first_token (lead ++ hash ++ tail) = hash.
Proof.
  intros Hlead Hne Hhash Htail. unfold first_token.
  rewrite trim_token by assumption.
  apply split_spaces_token; [assumption|now apply ends_token_trimmed].
Qed.

Lemma first_token_blank (text : jsstring) :
  forallb is_space text = true -> first_token text = [].
Proof.
  intros H. unfold first_token, trim.
  now rewrite (trimStart_all_spaces text H).
Qed.

(** X9: the checksum both revisions read from the [.sha256] file is its
    first token: white space at the front is skipped, and the token ends
    at the next white space or at the end of the text.  [src/update.ts]
    returns that token as it is; the second revision returns it when it
    is 64 hexadecimal digits. *)
Theorem checksum_is_first_token (w : World) (t : trace)
  (latest lead hash tail : jsstring) :
  forallb is_space lead = true -> hash <> [] -> no_space hash ->
  ends_token tail ->
  on_fetch w t (sha256Url latest) = Response true (Some (lead ++ hash ++ tail)) ->
  snd (run w (UpdateTs.fetchSHA256 (artifact latest)) t) = Returned (Some hash) /\
  snd (run w (Part003.fetchSHA256 (artifact latest)) t)
  = Returned (if is_sha256_hex hash then Some hash else None).
Proof.
  intros Hlead Hne Hhash Htail Hfetch.
  rewrite (run_UpdateTs_fetchSHA256 _ _ _ _ Hfetch).
  rewrite (run_Part003_fetchSHA256 _ _ _ _ Hfetch).
  now rewrite first_token_token.
Qed.

Lemma checksum_is_first_token_witness :
  snd (run (Sample.update_world 0) (UpdateTs.fetchSHA256 (artifact (str "1.92.0")))
         []) = Returned (Some Sample.digest) /\
  snd (run (Sample.update_world 0) (Part003.fetchSHA256 (artifact (str "1.92.0")))
         [])
  = Returned (if is_sha256_hex Sample.digest then Some Sample.digest else None).
Proof.
  apply (checksum_is_first_token (Sample.update_world 0) [] (str "1.92.0") []
           Sample.digest (str "  tailscale_1.92.0_amd64.tgz" ++ [10]));
    try reflexivity.
  discriminate.
Defined.

Section Blank.
Variable print_number : jsstring -> jsstring.
Variable BUILD_SCRIPT : jsstring.

Lemma blank_UpdateTs (w : World) (config : properties)
  (latest text : jsstring) (t : trace) :
  on_fetch w t (sha256Url latest) = Response true (Some text) ->
  forallb is_space text = true ->
  run w (update print_number BUILD_SCRIPT UpdateTs.fetchSHA256 config latest) t
  = (t ++ [EvFetch (sha256Url latest) (Response true (Some text))], Exited 1%Z).
Proof.
  intros Hfetch Hblank.
  rewrite run_update, (run_UpdateTs_fetchSHA256 _ _ _ _ Hfetch).
  now rewrite first_token_blank.
Qed.

Lemma blank_Part003 (w : World) (config : properties)
  (latest text : jsstring) (t : trace) :
  on_fetch w t (sha256Url latest) = Response true (Some text) ->
  forallb is_space text = true ->
  run w (update print_number BUILD_SCRIPT Part003.fetchSHA256 config latest) t
  = (t ++ [EvFetch (sha256Url latest) (Response true (Some text))], Exited 1%Z).
Proof.
  intros Hfetch Hblank.
  rewrite run_update, (run_Part003_fetchSHA256 _ _ _ _ Hfetch).
  now rewrite first_token_blank.
Qed.

End Blank.

(** X10: a checksum file that is empty or holds only white space gives no
    checksum: the update of either revision ends with exit status 1 right
    after the request for the file, before the date is read or anything
    is written. *)
Theorem blank_checksum_file_exits_1 (print_number : jsstring -> jsstring)
  (w : World) (config : properties) (latest text : jsstring) (t : trace) :
  on_fetch w t (sha256Url latest) = Response true (Some text) ->
  forallb is_space text = true ->
  run w (update print_number UpdateTs.BUILD_SCRIPT UpdateTs.fetchSHA256
           config latest) t
  = (t ++ [EvFetch (sha256Url latest) (Response true (Some text))], Exited 1%Z) /\
  run w (update print_number Part003.BUILD_SCRIPT Part003.fetchSHA256
           config latest) t
  = (t ++ [EvFetch (sha256Url latest) (Response true (Some text))], Exited 1%Z).
Proof.
  intros Hfetch Hblank. split; [now apply blank_UpdateTs|now apply blank_Part003].
Qed.

Lemma blank_checksum_file_exits_1_witness :
  let w := plain_world (Some Sample.config)
             (Sample.network Sample.listing [32; 10]) Sample.today (Some 0%Z) in
  let t := [EvFetch (sha256Url (str "1.92.0")) (Response true (Some [32; 10]))] in
  run w (update (fun lexeme => lexeme) UpdateTs.BUILD_SCRIPT UpdateTs.fetchSHA256
           Sample.config_props (str "1.92.0")) [] = (t, Exited 1%Z) /\
  run w (update (fun lexeme => lexeme) Part003.BUILD_SCRIPT Part003.fetchSHA256
           Sample.config_props (str "1.92.0")) [] = (t, Exited 1%Z).
Proof.
  cbv zeta.
  apply (blank_checksum_file_exits_1 (fun lexeme => lexeme)
           (plain_world (Some Sample.config)
              (Sample.network Sample.listing [32; 10]) Sample.today (Some 0%Z))
           Sample.config_props (str "1.92.0") [32; 10] []); reflexivity.
Defined.

(** ** The checksum found in the listing *)

Lemma take_hex_spec (n : nat) (s h : jsstring) :
  take_hex n s = Some h ->
  List.length h = n /\ forallb is_hex h = true /\ exists r, s = h ++ r.
Proof.
  revert s h. induction n as [|n IH]; intros s h; cbn [take_hex].
  - intros [= <-]. repeat split. now exists s.
  - destruct s as [|c s]; [discriminate|].
    destruct (is_hex c) eqn:Hc; [|discriminate].
    destruct (take_hex n s) as [h'|] eqn:E; [|discriminate].
    intros [= <-]. destruct (IH _ _ E) as (Hlen & Hhex & r & ->).
    cbn [List.length forallb]. rewrite Hc, Hhex, Hlen.
    repeat split. now exists r.
Qed.

Lemma match_hex64_spec (s h : jsstring) :
  match_hex64 s = Some h -> is_sha256_hex h = true /\ substring h s.
Proof.
  induction s as [|c s IH].
  - cbn. discriminate.
  - cbn [match_hex64].
    destruct (take_hex 64 (c :: s)) as [h'|] eqn:E.
    + intros [= <-]. apply take_hex_spec in E as (Hlen & Hhex & r & ->).
      split.
      * unfold is_sha256_hex. rewrite Hlen, Hhex. reflexivity.
      * now exists [], r.
    + intros H. destruct (IH H) as (Hhex & pre & post & ->).
      split; [assumption|]. now exists (c :: pre), post.
Qed.

Lemma includes_spec (p s : jsstring) : includes p s = true -> substring p s.
Proof.
  induction s as [|c s IH].
  - cbn [includes]. destruct (strip_prefix p []) as [r|] eqn:E; [|discriminate].
    intros _. apply strip_prefix_spec in E. now exists [], r.
  - cbn [includes].
    destruct (strip_prefix p (c :: s)) as [r|] eqn:E.
    + intros _. apply strip_prefix_spec in E. now exists [], r.
    + intros H. destruct (IH H) as (pre & post & ->).
      now exists (c :: pre), post.
Qed.

Lemma find_hash_spec (packageName : jsstring) (lines : list jsstring)
  (h : jsstring) :
  UpdateTs.find_hash packageName lines = Some h ->
  exists line,
    In line lines /\ includes packageName line = true /\
    match_hex64 line = Some h.
Proof.
  induction lines as [|line lines IH]; cbn [UpdateTs.find_hash];
    [discriminate|].
  destruct (includes packageName line) eqn:Hinc.
  - destruct (match_hex64 line) as [h'|] eqn:Hhex.
    + intros [= <-]. exists line. repeat split; auto. now left.
    + intros H. destruct (IH H) as (l & Hl & H1 & H2).
      exists l. repeat split; auto. now right.
  - intros H. destruct (IH H) as (l & Hl & H1 & H2).
    exists l. repeat split; auto. now right.
Qed.

(** X11: a checksum that [fetchSHA256] of [src/update.ts] returns has one
    of two sources.  Either the [.sha256] file was answered with [ok],
    and the checksum is the first token of its text, whatever that token
    is; or it was answered without [ok], the listing was fetched, and
    the checksum is 64 hexadecimal digits taken from a line of the
    listing that holds the name of the package. *)
Theorem UpdateTs_checksum_sources (w : World) (t t' : trace)
  (packageName h : jsstring) :
  let url := TAILSCALE_STABLE_URL ++ packageName ++ str ".sha256" in
  run w (UpdateTs.fetchSHA256 packageName) t = (t', Returned (Some h)) ->
  (exists text,
      on_fetch w t url = Response true (Some text) /\
      h = first_token text /\
      t' = t ++ [EvFetch url (Response true (Some text))]) \/
  (exists body html line,
      on_fetch w t url = Response false body /\
      t' = t ++ [EvFetch url (Response false body);
                 EvFetch TAILSCALE_STABLE_URL (Response true (Some html))] /\
      is_sha256_hex h = true /\
      In line (split_on 10 html) /\
      substring packageName line /\ substring h line).
Proof.
  cbv zeta. unfold UpdateTs.fetchSHA256. cbv zeta. cbn [run].
  destruct (on_fetch w t _) as [|[] [text|]] eqn:Hfetch; cbn [run];
    try discriminate.
  - intros [= <- <-]. left. now exists text.
  - destruct (on_fetch w _ TAILSCALE_STABLE_URL) as [|[] [html|]]; cbn [run];
      try discriminate.
    intros [= <- Hfind]. right.
    apply find_hash_spec in Hfind as (line & Hin & Hinc & Hhex).
    apply match_hex64_spec in Hhex as (Hh & Hsub).
    exists (Some text), html, line. rewrite <- app_assoc.
    repeat split; auto. now apply includes_spec.
  - destruct (on_fetch w _ TAILSCALE_STABLE_URL) as [|[] [html|]]; cbn [run];
      try discriminate.
    intros [= <- Hfind]. right.
    apply find_hash_spec in Hfind as (line & Hin & Hinc & Hhex).
    apply match_hex64_spec in Hhex as (Hh & Hsub).
    exists None, html, line. rewrite <- app_assoc.
    repeat split; auto. now apply includes_spec.
Qed.

Lemma UpdateTs_checksum_sources_witness :
  let page := str "<a href=tailscale_1.92.0_amd64.tgz>tailscale_1.92.0_amd64.tgz</a> "
              ++ Sample.digest in
  let w := plain_world None
             (fun url => if jsstring_eqb url TAILSCALE_STABLE_URL
                         then Response true (Some page)
                         else Response false None)
             Sample.today None in
  let url := TAILSCALE_STABLE_URL ++ artifact (str "1.92.0") ++ str ".sha256" in
  let t' := [EvFetch url (Response false None);
             EvFetch TAILSCALE_STABLE_URL (Response true (Some page))] in
  (exists text,
      on_fetch w [] url = Response true (Some text) /\
      Sample.digest = first_token text /\
      t' = [] ++ [EvFetch url (Response true (Some text))]) \/
  (exists body html line,
      on_fetch w [] url = Response false body /\
      t' = [] ++ [EvFetch url (Response false body);
                  EvFetch TAILSCALE_STABLE_URL (Response true (Some html))] /\
      is_sha256_hex Sample.digest = true /\
      In line (split_on 10 html) /\
      substring (artifact (str "1.92.0")) line /\
      substring Sample.digest line).
Proof.
  cbv zeta.
  refine (UpdateTs_checksum_sources
            (plain_world None
               (fun url => if jsstring_eqb url TAILSCALE_STABLE_URL
                           then Response true
                                  (Some (str "<a href=tailscale_1.92.0_amd64.tgz>tailscale_1.92.0_amd64.tgz</a> "
                                         ++ Sample.digest))
                           else Response false None)
               Sample.today None)
            [] _ (artifact (str "1.92.0")) Sample.digest _).
  vm_compute. reflexivity.
Defined.

(** ** The versions that [matchAll] finds *)

Lemma matchAll_fuel_occurs (fuel : nat) (tail s v : jsstring) :
  In v (matchAll_fuel fuel tail s) ->
  substring (str "tailscale_" ++ v ++ str "_amd64" ++ tail) s.
Proof.
  revert s. induction fuel as [|fuel IH]; intros s; cbn [matchAll_fuel];
    [intros []|].
  destruct (match_version_at tail s) as [[v' rest]|] eqn:E.
  - apply match_version_at_sound in E as (d1 & d2 & d3 & _ & _ & _ & _ & Hs).
    intros [<-|Hin].
    + exists [], rest. rewrite Hs. now app_norm.
    + destruct (IH _ Hin) as (pre & post & ->).
      exists (str "tailscale_" ++ v' ++ str "_amd64" ++ tail ++ pre), post.
      rewrite Hs. now app_norm.
  - destruct s as [|c s]; [intros []|]. intros Hin.
    destruct (IH _ Hin) as (pre & post & ->). now exists (c :: pre), post.
Qed.

(** A text without the letter [t] cannot hold the start of a later
    occurrence. *)
Lemma no_t_prefix (B Z P W : jsstring) :
  Forall (fun c => c <> 116) B -> B ++ Z = P ++ 116 :: W ->
  exists P', P = B ++ P' /\ Z = P' ++ 116 :: W.
Proof.
  intros HB. revert P. induction HB as [|b B Hb HB IH]; intros P; cbn [app].
  - intros ->. now exists P.
  - destruct P as [|p P]; cbn [app].
    + intros [= E _]. now destruct Hb.
    + intros [= <- E]. destruct (IH _ E) as (P' & -> & ->). now exists P'.
Qed.

Lemma digits_no_t (d : jsstring) :
  digit_run d -> Forall (fun c => c <> 116) d.
Proof.
  intros [_ H]. eapply Forall_impl; [|exact H].
  intros c Hc ->. discriminate.
Qed.

Lemma no_t_literal (l : jsstring) :
  forallb (fun c => negb (c =? 116)) l = true -> Forall (fun c => c <> 116) l.
Proof.
  intros H. apply Forall_forall. intros c Hc ->.
  rewrite forallb_forall in H. specialize (H _ Hc). discriminate.
Qed.

Lemma app_eq_longer {A : Type} (M rest pre X : list A) :
  M ++ rest = pre ++ X -> (List.length M <= List.length pre)%nat ->
  exists pre', pre = M ++ pre' /\ rest = pre' ++ X.
Proof.
  revert pre. induction M as [|m M IH]; intros pre; cbn [app List.length].
  - intros -> _. now exists pre.
  - destruct pre as [|p pre]; cbn [app List.length]; [lia|].
    intros [= <- E] Hlen. destruct (IH _ E) as (pre' & -> & ->); [lia|].
    now exists pre'.
Qed.

(** Two occurrences of the pattern of the listing do not overlap. *)
Lemma occurrences_apart (d1 d2 d3 rest pre Y : jsstring) :
  digit_run d1 -> digit_run d2 -> digit_run d3 ->
  str "tailscale_" ++ (d1 ++ str "." ++ d2 ++ str "." ++ d3)
    ++ (str "_amd64" ++ str ".tgz") ++ rest
  = pre ++ str "tailscale_" ++ Y ->
  pre <> [] ->
  exists pre',
    pre = str "tailscale_" ++ (d1 ++ str "." ++ d2 ++ str "." ++ d3)
            ++ (str "_amd64" ++ str ".tgz") ++ pre' /\
    rest = pre' ++ str "tailscale_" ++ Y.
Proof.
  intros H1 H2 H3 E Hne.
  destruct pre as [|p pre]; [congruence|].
  assert (Hp : p = 116) by (revert E; cbn; now intros [= <- _]).
  subst p.
  set (B := str "ailscale_" ++ (d1 ++ str "." ++ d2 ++ str "." ++ d3)
              ++ str "_amd64.").
  assert (HB : Forall (fun c => c <> 116) B).
  { unfold B. apply Forall_app; split; [apply no_t_literal; reflexivity|].
    apply Forall_app; split; [|apply no_t_literal; reflexivity].
    apply Forall_app; split; [now apply digits_no_t|].
    apply Forall_app; split; [apply no_t_literal; reflexivity|].
    apply Forall_app; split; [now apply digits_no_t|].
    apply Forall_app; split; [apply no_t_literal; reflexivity|].
    now apply digits_no_t. }
  assert (E' : B ++ [116; 103; 122] ++ rest
               = pre ++ 116 :: str "ailscale_" ++ Y).
  { unfold B. revert E. app_norm. intros [= E]. exact E. }
  apply no_t_prefix in E' as (P' & -> & E'); [|assumption].
  destruct P' as [|x [|y [|z P']]]; cbn in E'.
  - discriminate.
  - injection E' as _ E'. discriminate.
  - injection E' as _ _ E'. discriminate.
  - injection E' as <- <- <- ->.
    exists P'. split; [|reflexivity]. unfold B. now app_norm.
Qed.

Lemma matchAll_complete (n : nat) :
  forall html pre post d1 d2 d3,
    (List.length html <= n)%nat ->
    digit_run d1 -> digit_run d2 -> digit_run d3 ->
    html = pre ++ str "tailscale_" ++ (d1 ++ str "." ++ d2 ++ str "." ++ d3)
               ++ (str "_amd64" ++ str ".tgz") ++ post ->
    In (d1 ++ str "." ++ d2 ++ str "." ++ d3) (matchAll (str ".tgz") html).
Proof.
  induction n as [|n IH]; intros html pre post d1 d2 d3 Hlen H1 H2 H3 E.
  - subst html. rewrite !length_app in Hlen.
    change (List.length (str "tailscale_")) with 10%nat in Hlen. lia.
  - rewrite matchAll_step.
    pose proof (match_version_at_complete (str ".tgz") d1 d2 d3 post H1 H2 H3)
      as Hfront.
    destruct pre as [|p pre].
    + cbn [app] in E. subst html.
      replace (str "tailscale_" ++ (d1 ++ str "." ++ d2 ++ str "." ++ d3)
                 ++ (str "_amd64" ++ str ".tgz") ++ post)
        with (str "tailscale_" ++ d1 ++ str "." ++ d2 ++ str "." ++ d3
                ++ (str "_amd64" ++ str ".tgz") ++ post) by now app_norm.
      rewrite Hfront. now left.
    + destruct (match_version_at (str ".tgz") html) as [[v' rest]|] eqn:Hm.
      * pose proof (match_version_at_shorter _ _ _ _ Hm) as Hshort.
        apply match_version_at_sound in Hm
          as (e1 & e2 & e3 & He1 & He2 & He3 & -> & Hs).
        rewrite Hs in E.
        apply occurrences_apart in E as (pre' & _ & ->);
          [|assumption..|discriminate].
        right. apply (IH _ pre' post d1 d2 d3); auto. lia.
      * subst html. cbn [app]. cbn [app List.length] in Hlen.
        apply (IH _ pre post d1 d2 d3); auto. lia.
Qed.

(** X12: the versions [fetchLatestTailscaleVersion] takes from the listing
    are exactly the ones whose artifact name,
    [tailscale_<version>_amd64.tgz] with three runs of digits, occurs
    somewhere in the text: every occurrence is found, and nothing else
    is. *)
Theorem listing_versions_are_the_artifacts (html v : jsstring) :
  In v (matchAll (str ".tgz") html)
  <-> is_version v /\ substring (artifact v) html.
Proof.
  split.
  - intros H. split; [now apply matchAll_is_version in H|].
    apply matchAll_fuel_occurs in H. exact H.
  - intros ((d1 & d2 & d3 & H1 & H2 & H3 & ->) & pre & post & E).
    apply (matchAll_complete (List.length html) html pre post); auto.
    rewrite E. unfold artifact. now app_norm.
Qed.

(** ** The comparators on the versions of a listing *)

Lemma round_to_double_is_double (n : N) : is_double (round_to_double n).
Proof.
  unfold round_to_double.
  destruct (N.ltb_spec n (2 ^ 53)) as [H|_].
  - cbn [is_double]. unfold overflow.
    apply (N.lt_trans _ _ _ H). apply N.pow_lt_mono_r; lia.
  - cbv zeta.
    match goal with
    | |- context [2 ^ 1024 <=? ?x] => destruct (N.leb_spec (2 ^ 1024) x)
    end; [exact I|assumption].
Qed.

(** [Number] reads the three parts of a version as doubles. *)
Lemma version_parts_doubles (v : jsstring) :
  is_version v ->
  exists a1 a2 a3,
    version_parts v = [a1; a2; a3] /\
    is_double a1 /\ is_double a2 /\ is_double a3.
Proof.
  intros (d1 & d2 & d3 & H1 & H2 & H3 & ->). unfold version_parts.
  rewrite split_version by assumption. cbn [List.map].
  rewrite !Number_digit_run by assumption.
  eexists _, _, _. split; [reflexivity|].
  repeat split; apply round_to_double_is_double.
Qed.

Lemma or_zero_double (x : number) : is_double x -> or_zero (Some x) = Some x.
Proof. destruct x as [n| |]; [intros _; apply or_zero_Fin|reflexivity|intros []]. Qed.

Lemma strict_neq_doubles (a b : number) :
  is_double a -> is_double b ->
  strict_neq (Some a) (Some b) = negb (magnitude a =? magnitude b).
Proof.
  destruct a as [n| |], b as [m| |]; cbn [is_double magnitude strict_neq];
    try contradiction; intros Ha Hb.
  - reflexivity.
  - symmetry. apply negb_true_iff, N.eqb_neq. lia.
  - symmetry. apply negb_true_iff, N.eqb_neq. lia.
  - now rewrite N.eqb_refl.
Qed.

Lemma sign_of_difference_doubles (a b : number) :
  is_double a -> is_double b -> magnitude a <> magnitude b ->
  sign_of_difference (Some b) (Some a)
  = descending (magnitude a ?= magnitude b).
Proof.
  destruct a as [n| |], b as [m| |];
    cbn [is_double magnitude sign_of_difference]; try contradiction;
    intros Ha Hb Hne.
  - rewrite (N.compare_antisym n m).
    destruct (N.compare_spec n m); reflexivity.
  - destruct (N.compare_spec n overflow); try lia. reflexivity.
  - destruct (N.compare_spec overflow m); try lia. reflexivity.
Qed.

(** On triples of doubles both comparators are the dotted-numeric order
    of the magnitudes, descending. *)
Lemma UpdateTs_compare_doubles (a1 a2 a3 b1 b2 b3 : number) :
  is_double a1 -> is_double a2 -> is_double a3 ->
  is_double b1 -> is_double b2 -> is_double b3 ->
  UpdateTs.compare_from [a1; a2; a3] [b1; b2; b3] 3 0
  = descending (dotted_compare (List.map magnitude [a1; a2; a3])
                  (List.map magnitude [b1; b2; b3])).
Proof.
  intros A1 A2 A3 B1 B2 B3.
  cbn [UpdateTs.compare_from part nth_error List.map dotted_compare forallb].
  rewrite !strict_neq_doubles by assumption.
  destruct (N.eqb_spec (magnitude a1) (magnitude b1)) as [E1|N1]; cbn [negb].
  - rewrite E1, N.compare_refl.
    destruct (N.eqb_spec (magnitude a2) (magnitude b2)) as [E2|N2]; cbn [negb].
    + rewrite E2, N.compare_refl.
      destruct (N.eqb_spec (magnitude a3) (magnitude b3)) as [E3|N3];
        cbn [negb].
      * now rewrite E3, N.compare_refl.
      * rewrite sign_of_difference_doubles by assumption.
        destruct (N.compare_spec (magnitude a3) (magnitude b3)); first [reflexivity|contradiction].
    + rewrite sign_of_difference_doubles by assumption.
      destruct (N.compare_spec (magnitude a2) (magnitude b2)); first [reflexivity|contradiction].
  - rewrite sign_of_difference_doubles by assumption.
    destruct (N.compare_spec (magnitude a1) (magnitude b1)); first [reflexivity|contradiction].
Qed.

Lemma compare_from_agree (a1 a2 a3 b1 b2 b3 : number) :
  is_double a1 -> is_double a2 -> is_double a3 ->
  is_double b1 -> is_double b2 -> is_double b3 ->
  Part003.compare_from [a1; a2; a3] [b1; b2; b3] 3 0
  = UpdateTs.compare_from [a1; a2; a3] [b1; b2; b3] 3 0.
Proof.
  intros A1 A2 A3 B1 B2 B3.
  cbn [Part003.compare_from UpdateTs.compare_from part nth_error].
  now rewrite !or_zero_double by assumption.
Qed.

Lemma compareVersions_agree (a b : jsstring) :
  is_version a -> is_version b ->
  Part003.compareVersions a b = UpdateTs.compareVersions a b.
Proof.
  intros Ha Hb.
  destruct (version_parts_doubles a Ha) as (a1 & a2 & a3 & Ea & A1 & A2 & A3).
  destruct (version_parts_doubles b Hb) as (b1 & b2 & b3 & Eb & B1 & B2 & B3).
  unfold Part003.compareVersions, UpdateTs.compareVersions. cbv zeta.
  rewrite Ea, Eb. cbn [List.length Nat.max].
  now apply compare_from_agree.
Qed.

Lemma UpdateTs_compareVersions_doubles (a b : jsstring) :
  is_version a -> is_version b ->
  UpdateTs.compareVersions a b
  = descending (dotted_compare (doubles a) (doubles b)).
Proof.
  intros Ha Hb.
  destruct (version_parts_doubles a Ha) as (a1 & a2 & a3 & Ea & A1 & A2 & A3).
  destruct (version_parts_doubles b Hb) as (b1 & b2 & b3 & Eb & B1 & B2 & B3).
  unfold UpdateTs.compareVersions, doubles. cbv zeta. rewrite Ea, Eb.
  now apply UpdateTs_compare_doubles.
Qed.

Section SortExt.
Context {A : Type} (c1 c2 : A -> A -> sign).

Lemma insert_sorted_ext (x : A) (l : list A) :
  (forall y, In y l -> c1 x y = c2 x y) ->
  insert_sorted c1 x l = insert_sorted c2 x l.
Proof.
  induction l as [|y l IH]; intros H; [reflexivity|].
  cbn [insert_sorted]. unfold comes_after. rewrite (H y) by now left.
  destruct (c2 x y); try reflexivity.
  f_equal. apply IH. intros z Hz. apply H. now right.
Qed.

Lemma sort_ext (l : list A) :
  (forall x y, In x l -> In y l -> c1 x y = c2 x y) ->
  sort c1 l = sort c2 l.
Proof.
  induction l as [|x l IH]; intros H; [reflexivity|].
  change (sort c1 (x :: l)) with (insert_sorted c1 x (sort c1 l)).
  change (sort c2 (x :: l)) with (insert_sorted c2 x (sort c2 l)).
  rewrite IH by (intros; apply H; now right).
  apply insert_sorted_ext. intros y Hy. apply (proj1 (In_sort c2 _ _)) in Hy.
  apply H; [now left|now right].
Qed.

End SortExt.

Lemma latestInListing_agree (html : jsstring) :
  latestInListing Part003.compareVersions html
  = latestInListing UpdateTs.compareVersions html.
Proof.
  unfold latestInListing. cbv zeta.
  destruct (matchAll (str ".tgz") html) as [|x0 l0] eqn:Hall; [reflexivity|].
  rewrite <- Hall.
  rewrite (sort_ext Part003.compareVersions UpdateTs.compareVersions);
    [reflexivity|].
  intros x y Hx Hy. apply (proj1 (In_unique _ _)) in Hx, Hy.
  apply compareVersions_agree; now apply (matchAll_is_version (str ".tgz") html).
Qed.

(** X13: the comparators of the two revisions are written differently (three
    rounds against as many as the longer version has parts, with and
    without [|| 0]), but on the versions of a listing they return the
    same: both revisions take the same latest version from every listing,
    and their [fetchLatestTailscaleVersion] runs alike in every world. *)
Theorem revisions_agree_on_the_latest_version :
  (forall a b, is_version a -> is_version b ->
               Part003.compareVersions a b = UpdateTs.compareVersions a b) /\
  (forall html,
      latestInListing Part003.compareVersions html
      = latestInListing UpdateTs.compareVersions html) /\
  (forall w t,
      run w Part003.fetchLatestTailscaleVersion t
      = run w UpdateTs.fetchLatestTailscaleVersion t).
Proof.
  split; [exact compareVersions_agree|]. split; [exact latestInListing_agree|].
  intros w t.
  unfold Part003.fetchLatestTailscaleVersion,
    UpdateTs.fetchLatestTailscaleVersion, fetchLatestTailscaleVersion.
  cbn [run]. destruct (on_fetch w t TAILSCALE_STABLE_URL) as [|[] [html|]];
    try reflexivity.
  cbn [run]. now rewrite latestInListing_agree.
Qed.

(** ** The latest version of any listing *)

Section FirstGreatest.
Context {A : Type} (compareFn : A -> A -> sign).
Variable le : A -> A -> Prop.
Variable lt : A -> A -> Prop.
Variable P : A -> Prop.
Hypothesis le_refl : forall x, P x -> le x x.
Hypothesis le_trans :
  forall x y z, P x -> P y -> P z -> le x y -> le y z -> le x z.
Hypothesis after_lt :
  forall x y, P x -> P y -> comes_after compareFn x y = true -> lt x y.
Hypothesis not_after_le :
  forall x y, P x -> P y -> comes_after compareFn x y = false -> le y x.
Hypothesis lt_le : forall x y, P x -> P y -> lt x y -> le x y.

(** The sorted array starts with the first of the greatest elements. *)
Lemma sort_head_first_greatest (l : list A) :
  Forall P l ->
  forall h rest, sort compareFn l = h :: rest ->
  exists before after,
    l = before ++ h :: after /\
    (forall x, In x before -> lt x h) /\
    (forall x, In x after -> le x h).
Proof.
  induction l as [|y l IH]; intros HP h rest Hsort; [discriminate|].
  inversion HP as [|y' l' Py Pl]; subst.
  cbn [sort fold_right] in Hsort. fold (sort compareFn l) in Hsort.
  destruct (sort compareFn l) as [|h' rest'] eqn:Hl.
  - assert (l = []) as ->.
    { destruct l as [|z l]; [reflexivity|].
      assert (In z []) as [] by (rewrite <- Hl; apply In_sort; now left). }
    cbn in Hsort. injection Hsort as <- _.
    exists [], []. repeat split; intros x [].
  - destruct (IH Pl h' rest' eq_refl) as (before & after & -> & Hb & Ha).
    assert (Ph' : P h') by (rewrite Forall_forall in Pl; apply Pl, in_elt).
    assert (Pz : forall z, In z (before ++ h' :: after) -> P z)
      by (now apply Forall_forall).
    cbn [insert_sorted] in Hsort.
    destruct (comes_after compareFn y h') eqn:Hafter.
    + injection Hsort as <- _. exists (y :: before), after.
      repeat split; [|assumption].
      intros x [<-|Hx]; [now apply after_lt|now apply Hb].
    + injection Hsort as <- _. exists [], (before ++ h' :: after).
      repeat split; [intros x []|].
      intros x Hx. assert (Px : P x) by now apply Pz.
      apply (le_trans x h' y); auto.
      apply in_app_or in Hx as [Hx|[<-|Hx]]; auto.
Qed.

End FirstGreatest.

Lemma doubles_triple (v : jsstring) :
  is_version v -> exists n1 n2 n3, doubles v = [n1; n2; n3].
Proof.
  intros Hv. destruct (version_parts_doubles v Hv) as (a1 & a2 & a3 & E & _).
  unfold doubles. rewrite E. now eexists _, _, _.
Qed.

Lemma comes_after_doubles (a b : jsstring) :
  is_version a -> is_version b ->
  comes_after UpdateTs.compareVersions a b = true
  <-> dotted_compare (doubles a) (doubles b) = Lt.
Proof.
  intros Ha Hb. unfold comes_after.
  rewrite UpdateTs_compareVersions_doubles by assumption.
  destruct (dotted_compare (doubles a) (doubles b)); cbn [descending];
    split; congruence.
Qed.

Lemma latestInListing_first_greatest (html : jsstring) :
  matchAll (str ".tgz") html <> [] ->
  exists v,
    latestInListing UpdateTs.compareVersions html = Some v /\
    first_greatest v (unique (matchAll (str ".tgz") html)).
Proof.
  intros Hne. unfold latestInListing.
  destruct (matchAll (str ".tgz") html) as [|x0 l0] eqn:Hall; [contradiction|].
  rewrite <- Hall in *. clear Hne.
  assert (Hver : Forall is_version (unique (matchAll (str ".tgz") html))).
  { apply Forall_forall. intros v Hv. apply (proj1 (In_unique _ _)) in Hv.
    now apply (matchAll_is_version (str ".tgz") html). }
  destruct (sort UpdateTs.compareVersions (unique (matchAll (str ".tgz") html)))
    as [|v rest] eqn:Hsort.
  - exfalso.
    assert (In x0 (unique (matchAll (str ".tgz") html)))
      as Hin by (apply In_unique; rewrite Hall; now left).
    apply (In_sort UpdateTs.compareVersions) in Hin. now rewrite Hsort in Hin.
  - exists v. rewrite Hall. split; [reflexivity|]. rewrite <- Hall.
    apply (sort_head_first_greatest UpdateTs.compareVersions
             (fun a b => dotted_compare (doubles a) (doubles b) <> Gt)
             (fun a b => dotted_compare (doubles a) (doubles b) = Lt)
             is_version) with (rest := rest); try assumption.
    + intros a Ha. destruct (doubles_triple a Ha) as (n1 & n2 & n3 & ->).
      apply dotted_compare_triples_refl.
    + intros a b c Ha Hb Hc.
      destruct (doubles_triple a Ha) as (a1 & a2 & a3 & ->).
      destruct (doubles_triple b Hb) as (b1 & b2 & b3 & ->).
      destruct (doubles_triple c Hc) as (c1 & c2 & c3 & ->).
      apply dotted_compare_triples_trans.
    + intros a b Ha Hb Hafter. now apply comes_after_doubles.
    + intros a b Ha Hb Hafter.
      assert (Hnlt : dotted_compare (doubles a) (doubles b) <> Lt).
      { intros Hlt. apply (comes_after_doubles a b Ha Hb) in Hlt. congruence. }
      destruct (doubles_triple a Ha) as (a1 & a2 & a3 & Ea).
      destruct (doubles_triple b Hb) as (b1 & b2 & b3 & Eb).
      rewrite Ea, Eb in *. now apply dotted_compare_triples_total.
    + intros a b _ _ H. congruence.
Qed.

Lemma unique_from_not_seen (x : jsstring) (l : list jsstring) :
  forall seen, In x (unique_from seen l) -> ~ In x seen.
Proof.
  induction l as [|a l IH]; intros seen; cbn [unique_from]; [intros []|].
  destruct (existsb (jsstring_eqb a) seen) eqn:E; [apply IH|].
  intros [<-|Hin] Hseen.
  - assert (existsb (jsstring_eqb a) seen = true); [|congruence].
    apply existsb_exists. exists a. split; [assumption|apply jsstring_eqb_refl].
  - apply (IH _ Hin). now right.
Qed.

(** [[...new Set(versions)]] holds no string twice. *)
Lemma NoDup_unique (l : list jsstring) : NoDup (unique l).
Proof.
  unfold unique. generalize (@nil jsstring) as seen.
  induction l as [|a l IH]; intros seen; cbn [unique_from]; [constructor|].
  destruct (existsb (jsstring_eqb a) seen); [apply IH|].
  constructor; [|apply IH].
  intros Hin. apply unique_from_not_seen in Hin. apply Hin. now left.
Qed.

Lemma doubles_exact (v : jsstring) :
  is_version v -> exact_version v -> doubles v = components v.
Proof.
  intros Hv He. destruct (exact_version_read v Hv He) as (n1 & n2 & n3 & -> & E).
  unfold doubles. now rewrite E.
Qed.

(** X14: for every listing that names a version, both revisions return the
    first of its greatest versions, where the versions are taken once
    each, in the order of their first occurrence, and compared part by
    part as the doubles that [Number] reads ([Infinity] above every
    integer): every version that occurs before the result is smaller, and
    none is greater.  For a version with parts below [2^53] these doubles
    are the parts themselves. *)
Theorem latest_version_is_first_greatest_double (html : jsstring) :
  matchAll (str ".tgz") html <> [] ->
  (exists v,
      latestInListing UpdateTs.compareVersions html = Some v /\
      latestInListing Part003.compareVersions html = Some v /\
      first_greatest v (unique (matchAll (str ".tgz") html))) /\
  NoDup (unique (matchAll (str ".tgz") html)) /\
  (forall v, is_version v -> exact_version v -> doubles v = components v).
Proof.
  intros Hne. split; [|split; [apply NoDup_unique|exact doubles_exact]].
  destruct (latestInListing_first_greatest html Hne) as (v & Hv & Hfirst).
  exists v. now rewrite latestInListing_agree.
Qed.

Lemma latest_version_is_first_greatest_double_witness :
  (exists v,
      latestInListing UpdateTs.compareVersions Sample.huge_listing = Some v /\
      latestInListing Part003.compareVersions Sample.huge_listing = Some v /\
      first_greatest v (unique (matchAll (str ".tgz") Sample.huge_listing))) /\
  NoDup (unique (matchAll (str ".tgz") Sample.huge_listing)) /\
  (forall v, is_version v -> exact_version v -> doubles v = components v).
Proof.
  apply (latest_version_is_first_greatest_double Sample.huge_listing).
  vm_compute. discriminate.
Defined.

(** The comparator of the second revision on two versions of unequal
    length. *)
Lemma Part003_compareVersions_dotted_witness :
  Part003.compareVersions (str "1.90") (str "1.90.0.1")
  = descending (dotted_compare (components (str "1.90"))
                  (components (str "1.90.0.1"))).
Proof.
  assert (H : Forall exact_version [str "1.90"; str "1.90.0.1"])
    by (apply exact_versionsb_spec; vm_compute; reflexivity).
  apply Part003_compareVersions_dotted.
  - repeat constructor; discriminate.
  - repeat constructor; discriminate.
  - exact (Forall_inv H).
  - exact (Forall_inv (Forall_inv_tail H)).
Defined.

(** ** A second run after an update *)

Lemma obj_get_absent (key : jsstring) (props : properties) :
  ~ In key (List.map fst props) <-> obj_get key props = None.
Proof.
  induction props as [|[k v] ps IH]; cbn [List.map fst In obj_get].
  - split; auto.
  - destruct (jsstring_eqb k key) eqn:E.
    + apply jsstring_eqb_eq in E. split; [intros H; destruct H; auto|discriminate].
    + apply jsstring_eqb_neq in E. rewrite <- IH. tauto.
Qed.

(** What [JSON.parse] leaves under a key is the value of its last
    member. *)
Lemma obj_get_set_members (key : jsstring) (props : properties) :
  forall acc,
    obj_get key (set_members props acc)
    = match obj_get key (rev props) with
      | Some v => Some v
      | None => obj_get key acc
      end.
Proof.
  unfold set_members.
  induction props as [|[k v] ps IH]; intros acc; [reflexivity|].
  cbn [fold_left fst snd rev]. rewrite IH, obj_get_app.
  destruct (obj_get key (rev ps)); [reflexivity|]. cbn [obj_get].
  destruct (jsstring_eqb k key) eqn:E.
  - apply jsstring_eqb_eq in E. subst k. apply obj_get_set_same.
  - apply jsstring_eqb_neq in E. now apply obj_get_set_other.
Qed.

Lemma obj_get_rev (key : jsstring) (props : properties) :
  distinct_keys props -> obj_get key (rev props) = obj_get key props.
Proof.
  unfold distinct_keys.
  induction props as [|[k v] ps IH]; intros Hnd; [reflexivity|].
  cbn [List.map fst] in Hnd. inversion Hnd as [|k' l Hk Hps]; subst.
  cbn [rev obj_get]. rewrite obj_get_app, (IH Hps). cbn [obj_get].
  destruct (jsstring_eqb k key) eqn:E.
  - apply jsstring_eqb_eq in E. subst k.
    apply obj_get_absent in Hk. now rewrite Hk.
  - now destruct (obj_get key ps).
Qed.

Lemma keys_obj_replace (key : jsstring) (v : json) (props : properties) :
  List.map fst (obj_replace key v props) = List.map fst props.
Proof.
  induction props as [|[k v'] ps IH]; [reflexivity|]. cbn [obj_replace].
  destruct (jsstring_eqb k key); cbn [List.map fst]; [reflexivity|].
  now rewrite IH.
Qed.

Lemma distinct_keys_set (key : jsstring) (v : json) (props : properties) :
  array_index key = None -> distinct_keys props ->
  distinct_keys (obj_set key v props).
Proof.
  unfold distinct_keys, obj_set. intros Hkey Hnd.
  destruct (obj_get key props) eqn:E.
  - now rewrite keys_obj_replace.
  - rewrite Hkey, map_app. apply obj_get_absent in E.
    apply NoDup_app; [assumption|repeat constructor; intros []|].
    intros a Ha [<-|[]]. contradiction.
Qed.

Lemma string_valued_replace (key s : jsstring) (props : properties) :
  string_valued props -> string_valued (obj_replace key (JStr s) props).
Proof.
  unfold string_valued.
  induction 1 as [|[k v] ps Hv Hps IH]; [constructor|]. cbn [obj_replace].
  destruct (jsstring_eqb k key); constructor; auto. now exists s.
Qed.

Lemma string_valued_set (key s : jsstring) (props : properties) :
  array_index key = None -> string_valued props ->
  string_valued (obj_set key (JStr s) props).
Proof.
  unfold obj_set. intros Hkey Hstr.
  destruct (obj_get key props); [now apply string_valued_replace|].
  rewrite Hkey. apply Forall_app. split; [assumption|].
  repeat constructor. now exists s.
Qed.

Lemma updated_distinct_keys (config : properties)
  (date latest sha256 : jsstring) :
  distinct_keys config -> distinct_keys (updated config date latest sha256).
Proof.
  intros H. unfold updated.
  repeat (apply distinct_keys_set; [reflexivity|]). exact H.
Qed.

Lemma updated_string_valued (config : properties)
  (date latest sha256 : jsstring) :
  string_valued config -> string_valued (updated config date latest sha256).
Proof.
  intros H. unfold updated.
  repeat (apply string_valued_set; [reflexivity|]). exact H.
Qed.

(** From the text that [JSON.stringify] lays out for an object whose
    properties hold strings, [JSON.parse] builds the object member by
    member. *)
Lemma JSON_parse_stringify_members (print_number : jsstring -> jsstring)
  (props : properties) :
  string_valued props ->
  JSON_parse (JSON_stringify4 print_number (JObj props) ++ [10])
  = Some (JObj (set_members props [])).
Proof.
  intros Hstr. destruct props as [|p ps]; [reflexivity|].
  rewrite stringify_object_text.
  match goal with
  | |- context [join ?separator ?members] =>
      remember (join separator members) as body eqn:Hbody;
      assert (Hlen : (List.length (p :: ps) <= List.length body)%nat)
        by (subst body;
            eapply Nat.le_trans;
              [|apply join_length; apply Forall_forall; intros x Hx;
                apply in_map_iff in Hx as (kv & <- & _); discriminate];
            rewrite length_map; apply Nat.le_refl)
  end.
  unfold JSON_parse.
  remember (List.length (123 :: [10; 32; 32; 32; 32] ++ body
                           ++ 10 :: 125 :: [10])) as n eqn:Hn.
  assert (Hfuel : exists fuel, (2 * n = S fuel /\ List.length (p :: ps) <= fuel)%nat).
  { exists (Nat.pred (2 * n)). subst n. cbn [List.length app] in *.
    rewrite length_app. lia. }
  destruct Hfuel as (fuel & -> & Hfuel).
  cbn [parse_value]. unfold value_step.
  change (skip_ws (123 :: ?x)) with (123 :: x).
  change (123 =? 34) with false. change (123 =? 123) with true. cbv beta iota.
  replace (strip_prefix [125]
             (skip_ws ([10; 32; 32; 32; 32] ++ body ++ 10 :: 125 :: [10])))
    with (@None jsstring).
  - subst body. now rewrite parse_members_strings by assumption.
  - subst body. destruct p as [key v]. cbn [List.map].
    destruct ps; cbn [join]; cbv beta; unfold QuoteJSONString at 1;
      reflexivity.
Qed.

Lemma keys_insert_index (k' : jsstring) (n : N) (key : jsstring) (v : json)
  (props : properties) :
  In k' (List.map fst (obj_insert_index n key v props))
  <-> k' = key \/ In k' (List.map fst props).
Proof.
  induction props as [|[k v'] ps IH]; cbn [obj_insert_index List.map fst In].
  - intuition congruence.
  - destruct (array_index k) as [m|]; [destruct (m <? n)|];
      cbn [List.map fst In]; rewrite ?IH; intuition congruence.
Qed.

Lemma distinct_keys_insert_index (n : N) (key : jsstring) (v : json)
  (props : properties) :
  ~ In key (List.map fst props) -> distinct_keys props ->
  distinct_keys (obj_insert_index n key v props).
Proof.
  unfold distinct_keys.
  induction props as [|[k v'] ps IH]; cbn [obj_insert_index List.map fst In];
    intros Hkey Hnd.
  - repeat constructor. intros [].
  - inversion Hnd as [|k0 l Hk Hps]; subst.
    assert (Hcons : NoDup (key :: k :: List.map fst ps))
      by (constructor; [exact Hkey|exact Hnd]).
    destruct (array_index k) as [m|]; [destruct (m <? n)|];
      cbn [List.map fst]; try exact Hcons.
    constructor; [|apply IH; tauto].
    rewrite keys_insert_index. intros [->|Hin]; tauto.
Qed.

(** Setting a property keeps the keys distinct. *)
Lemma distinct_keys_obj_set (key : jsstring) (v : json) (props : properties) :
  distinct_keys props -> distinct_keys (obj_set key v props).
Proof.
  intros Hnd. unfold obj_set.
  destruct (obj_get key props) eqn:E.
  - unfold distinct_keys. now rewrite keys_obj_replace.
  - apply obj_get_absent in E.
    destruct (array_index key) as [n|] eqn:Hkey.
    + now apply distinct_keys_insert_index.
    + unfold distinct_keys. rewrite map_app.
      apply NoDup_app; [assumption|repeat constructor; intros []|].
      intros a Ha [<-|[]]. contradiction.
Qed.

Section DistinctSteps.
Variable value : jsstring -> parsed json.
Variable members : properties -> jsstring -> parsed json.
Variable elements : list json -> jsstring -> parsed json.
Hypothesis value_distinct :
  forall s v r, value s = Ok v r -> distinct_at_top v.
Hypothesis members_distinct :
  forall acc s v r,
    members acc s = Ok v r -> distinct_keys acc -> distinct_at_top v.
Hypothesis elements_distinct :
  forall acc s v r, elements acc s = Ok v r -> distinct_at_top v.

Lemma value_step_distinct (s : jsstring) (v : json) (r : jsstring) :
  value_step members elements s = Ok v r -> distinct_at_top v.
Proof.
  unfold value_step, parse_literal. intros H.
  repeat break_hyp H; try discriminate; try (injection H as <- <-);
    try exact I; try (now constructor).
  - apply (members_distinct _ _ _ _ H). constructor.
  - apply (elements_distinct _ _ _ _ H).
Qed.

Lemma members_step_distinct (acc : properties) (s : jsstring) (v : json)
  (r : jsstring) :
  members_step value members acc s = Ok v r -> distinct_keys acc ->
  distinct_at_top v.
Proof.
  unfold members_step. intros H Hacc.
  repeat break_hyp H; try discriminate; try (injection H as <- <-).
  - apply (members_distinct _ _ _ _ H). now apply distinct_keys_obj_set.
  - cbn [distinct_at_top]. now apply distinct_keys_obj_set.
Qed.

Lemma elements_step_distinct (acc : list json) (s : jsstring) (v : json)
  (r : jsstring) :
  elements_step value elements acc s = Ok v r -> distinct_at_top v.
Proof.
  unfold elements_step. intros H.
  repeat break_hyp H; try discriminate; try (injection H as <- <-);
    try exact I.
  apply (elements_distinct _ _ _ _ H).
Qed.

End DistinctSteps.

Lemma parse_distinct (fuel : nat) :
  (forall s v r, parse_value fuel s = Ok v r -> distinct_at_top v) /\
  (forall acc s v r,
      parse_members fuel acc s = Ok v r -> distinct_keys acc ->
      distinct_at_top v) /\
  (forall acc s v r, parse_elements fuel acc s = Ok v r -> distinct_at_top v).
Proof.
  induction fuel as [|fuel (IHv & IHm & IHe)];
    [repeat split; intros; discriminate|].
  split; [|split]; intros;
    match goal with
    | H : _ = Ok _ _ |- _ =>
        cbn [parse_value parse_members parse_elements] in H
    end.
  - eapply value_step_distinct; eauto.
  - eapply members_step_distinct; eauto.
  - eapply elements_step_distinct; eauto.
Qed.

(** The object that [JSON.parse] builds has no key twice. *)
Lemma JSON_parse_distinct_keys (text : jsstring) (props : properties) :
  JSON_parse text = Some (JObj props) -> distinct_keys props.
Proof.
  unfold JSON_parse.
  destruct (parse_value (S (2 * List.length text)) text) as [v rest| |] eqn:E;
    try discriminate.
  destruct (skip_ws rest); [|discriminate]. intros [= ->].
  exact (proj1 (parse_distinct _) _ _ _ E).
Qed.

(** What is read back from the text an update wrote holds the new
    identifier. *)
Lemma reread_updated (print_number : jsstring -> jsstring)
  (config : properties) (now : Date) (latest sha256 : jsstring) :
  string_valued config -> distinct_keys config ->
  exists props,
    JSON_parse (config_text print_number config now latest sha256)
    = Some (JObj props) /\
    obj_get (str "tailscaleVersion") props
    = Some (JStr (str "tailscale_" ++ latest ++ str "_amd64")).
Proof.
  intros Hstr Hnd. unfold config_text.
  exists (set_members (updated config (date_text now) latest sha256) []).
  split.
  - apply JSON_parse_stringify_members. now apply updated_string_valued.
  - rewrite obj_get_set_members, obj_get_rev
      by now apply updated_distinct_keys.
    now rewrite updated_tailscaleVersion.
Qed.

Section Rerun.
Variable print_number : jsstring -> jsstring.
Variable BUILD_SCRIPT : jsstring.
Variable compareVersions : jsstring -> jsstring -> sign.
Variable fetchSHA256 : jsstring -> prog (option jsstring).

Let script := main print_number BUILD_SCRIPT compareVersions fetchSHA256.

Lemma rerun_ends (w : World) (config : properties) (now : Date)
  (latest sha256 : jsstring) (t1 : trace) :
  string_valued config -> distinct_keys config -> is_version latest ->
  on_readTextFile w [] CONFIG_PATH
  = Some (config_text print_number config now latest sha256) ->
  run w (fetchLatestTailscaleVersion compareVersions)
    [EvReadTextFile CONFIG_PATH
       (Some (config_text print_number config now latest sha256))]
  = (t1, Returned (Some latest)) ->
  ends_up_to_date script w t1.
Proof.
  intros Hstr Hnd Hver Hread Hlatest.
  destruct (reread_updated print_number config now latest sha256 Hstr Hnd)
    as (props & Hparse & Hid).
  apply (same_version_ends print_number BUILD_SCRIPT compareVersions
           fetchSHA256 w props
           (str "tailscale_" ++ latest ++ str "_amd64") latest
           [EvReadTextFile CONFIG_PATH
              (Some (config_text print_number config now latest sha256))]);
    auto.
  - unfold readConfig. cbn [run app]. now rewrite Hread, Hparse.
  - now apply is_version_nonempty.
  - now apply extractVersion_identifier.
Qed.

End Rerun.

(** X15: an update is not repeated.  When the configuration file holds what
    an update to the version [latest] wrote (for a stored object whose
    values are strings), and [latest], three runs of digits with dots
    between them, is still the latest version, the next run of either
    revision ends with "already up to date": exit status 0, nothing
    written, nothing built. *)
Theorem rerun_after_update_is_up_to_date (print_number : jsstring -> jsstring)
  (w : World) (config : properties) (now : Date) (latest sha256 : jsstring)
  (t1 : trace) :
  string_valued config -> distinct_keys config -> is_version latest ->
  on_readTextFile w [] CONFIG_PATH
  = Some (config_text print_number config now latest sha256) ->
  (run w UpdateTs.fetchLatestTailscaleVersion
     [EvReadTextFile CONFIG_PATH
        (Some (config_text print_number config now latest sha256))]
   = (t1, Returned (Some latest)) ->
   ends_up_to_date (UpdateTs.main print_number) w t1) /\
  (run w Part003.fetchLatestTailscaleVersion
     [EvReadTextFile CONFIG_PATH
        (Some (config_text print_number config now latest sha256))]
   = (t1, Returned (Some latest)) ->
   ends_up_to_date (Part003.main print_number) w t1).
Proof.
  intros Hstr Hnd Hver Hread. split; intros Hlatest.
  - apply (rerun_ends print_number UpdateTs.BUILD_SCRIPT
             UpdateTs.compareVersions UpdateTs.fetchSHA256
             w config now latest sha256); auto.
  - apply (rerun_ends print_number Part003.BUILD_SCRIPT
             Part003.compareVersions Part003.fetchSHA256
             w config now latest sha256); auto.
Qed.

Lemma rerun_after_update_is_up_to_date_witness :
  let written := config_text (fun lexeme => lexeme) Sample.config_props
                   Sample.today (str "1.92.0") Sample.digest in
  let w := plain_world (Some written)
             (Sample.network Sample.listing Sample.checksum_file)
             Sample.today (Some 0%Z) in
  let t1 := [EvReadTextFile CONFIG_PATH (Some written);
             EvFetch TAILSCALE_STABLE_URL
               (Response true (Some Sample.listing))] in
  ends_up_to_date (UpdateTs.main (fun lexeme => lexeme)) w t1 /\
  ends_up_to_date (Part003.main (fun lexeme => lexeme)) w t1.
Proof.
  cbv zeta.
  destruct (rerun_after_update_is_up_to_date (fun lexeme => lexeme)
              (plain_world
                 (Some (config_text (fun lexeme => lexeme) Sample.config_props
                          Sample.today (str "1.92.0") Sample.digest))
                 (Sample.network Sample.listing Sample.checksum_file)
                 Sample.today (Some 0%Z))
              Sample.config_props Sample.today (str "1.92.0") Sample.digest
              [EvReadTextFile CONFIG_PATH
                 (Some (config_text (fun lexeme => lexeme) Sample.config_props
                          Sample.today (str "1.92.0") Sample.digest));
               EvFetch TAILSCALE_STABLE_URL
                 (Response true (Some Sample.listing))])
    as [HU HP].
  - repeat constructor; eexists; reflexivity.
  - unfold distinct_keys.
    repeat (constructor;
            [cbn; intros H;
             repeat (destruct H as [H|H]; [discriminate|]); exact H|]).
    constructor.
  - exists (str "1"), (str "92"), (str "0").
    repeat split; try discriminate; repeat constructor.
  - reflexivity.
  - split; [apply HU|apply HP]; vm_compute; reflexivity.
Defined.

(** ** A write that fails *)

Section WriteFails.
Variable print_number : jsstring -> jsstring.
Variable BUILD_SCRIPT : jsstring.
Variable compareVersions : jsstring -> jsstring -> sign.
Variable fetchSHA256 : jsstring -> prog (option jsstring).
Hypothesis fetchSHA256_fetches_only :
  forall packageName, fetches_only (fetchSHA256 packageName).

Let script := main print_number BUILD_SCRIPT compareVersions fetchSHA256.

Lemma In_writes (e : event) (t : trace) :
  In e t -> is_write e = true -> In e (writes t).
Proof. intros Hin He. apply filter_In. now split. Qed.

Lemma failed_write_ends (w : World) (path content : jsstring) :
  In (EvWriteTextFile path content false) (fst (run w script [])) ->
  snd (run w script []) = Exited 1%Z /\
  filter is_command (fst (run w script [])) = [] /\
  exists t, fst (run w script []) = t ++ [EvWriteTextFile path content false].
Proof.
  intros Hin.
  destruct (run_main_outcome print_number BUILD_SCRIPT compareVersions
              fetchSHA256 fetchSHA256_fetches_only w)
    as [(Hw & _)|(config & latest & sha256 & t & Hw & Hc & Hrun)].
  - apply In_writes in Hin; [|reflexivity]. fold script in Hw.
    rewrite Hw in Hin. destruct Hin.
  - fold script in Hrun. rewrite Hrun in *. clear Hrun.
    unfold after_checksum in *. cbv zeta in *.
    destruct (on_writeTextFile w _ CONFIG_PATH _) eqn:Hwritten;
      cbn [fst snd] in *.
    + exfalso. apply in_app_or in Hin as [Hin|[Hin|[]]]; [|discriminate].
      apply in_app_or in Hin as [Hin|[Hin|[]]]; [|discriminate].
      apply in_app_or in Hin as [Hin|[Hin|[]]]; [|discriminate].
      apply In_writes in Hin; [|reflexivity]. rewrite Hw in Hin.
      destruct Hin.
    + split; [reflexivity|]. split.
      * rewrite !filter_app, Hc. reflexivity.
      * apply in_app_or in Hin as [Hin|[Hin|[]]].
        -- exfalso. apply in_app_or in Hin as [Hin|[Hin|[]]]; [|discriminate].
           apply In_writes in Hin; [|reflexivity]. rewrite Hw in Hin.
           destruct Hin.
        -- injection Hin as <- <-. eexists. reflexivity.
Qed.

End WriteFails.

(** X16: when the write of the configuration file fails, the run of either
    revision ends there with exit status 1: the failed write is the last
    event, and the build is not run. *)
Theorem failed_write_exits_1 (print_number : jsstring -> jsstring)
  (w : World) (path content : jsstring) :
  (In (EvWriteTextFile path content false)
     (fst (run w (UpdateTs.main print_number) [])) ->
   snd (run w (UpdateTs.main print_number) []) = Exited 1%Z /\
   filter is_command (fst (run w (UpdateTs.main print_number) [])) = [] /\
   exists t, fst (run w (UpdateTs.main print_number) [])
             = t ++ [EvWriteTextFile path content false]) /\
  (In (EvWriteTextFile path content false)
     (fst (run w (Part003.main print_number) [])) ->
   snd (run w (Part003.main print_number) []) = Exited 1%Z /\
   filter is_command (fst (run w (Part003.main print_number) [])) = [] /\
   exists t, fst (run w (Part003.main print_number) [])
             = t ++ [EvWriteTextFile path content false]).
Proof.
  split; apply failed_write_ends.
  - apply UpdateTs_fetchSHA256_fetches_only.
  - apply Part003_fetchSHA256_fetches_only.
Qed.

Lemma failed_write_exits_1_witness :
  let w := read_only_world (Some Sample.config)
             (Sample.network Sample.listing Sample.checksum_file)
             Sample.today in
  let content := config_text (fun lexeme => lexeme) Sample.config_props
                   Sample.today (str "1.92.0") Sample.digest in
  snd (run w (UpdateTs.main (fun lexeme => lexeme)) []) = Exited 1%Z /\
  filter is_command (fst (run w (UpdateTs.main (fun lexeme => lexeme)) [])) = [] /\
  exists t, fst (run w (UpdateTs.main (fun lexeme => lexeme)) [])
            = t ++ [EvWriteTextFile CONFIG_PATH content false].
Proof.
  cbv zeta.
  apply (proj1 (failed_write_exits_1 (fun lexeme => lexeme)
                  (read_only_world (Some Sample.config)
                     (Sample.network Sample.listing Sample.checksum_file)
                     Sample.today)
                  CONFIG_PATH
                  (config_text (fun lexeme => lexeme) Sample.config_props
                     Sample.today (str "1.92.0") Sample.digest))).
  vm_compute. tauto.
Defined.

(** ** The order of the dates *)

Lemma jsstring_ltb_cons (x y : N) (a b : jsstring) :
  jsstring_ltb (x :: a) (y :: b) = true
  <-> x < y \/ (x = y /\ jsstring_ltb a b = true).
Proof.
  cbn [jsstring_ltb]. rewrite orb_true_iff, andb_true_iff, N.ltb_lt, N.eqb_eq.
  reflexivity.
Qed.

Lemma date_text_earlier (a b : Date) :
  calendar_date a -> calendar_date b ->
  (jsstring_ltb (date_text a) (date_text b) = true <-> earlier a b).
Proof.
  intros Ha Hb.
  destruct (date_text_format a Ha)
    as (y1 & y2 & y3 & y4 & m1 & m2 & d1 & d2 & Hy & Hm & Hd & -> & Ey & Em & Ed).
  destruct (date_text_format b Hb)
    as (z1 & z2 & z3 & z4 & n1 & n2 & e1 & e2 & Hz & Hn & He & -> & Fy & Fm & Fd).
  unfold earlier. rewrite !jsstring_ltb_cons. cbn [jsstring_ltb]. lia.
Qed.

Lemma date_text_injective (a b : Date) :
  calendar_date a -> calendar_date b -> date_text a = date_text b -> a = b.
Proof.
  intros Ha Hb.
  destruct (date_text_format a Ha)
    as (y1 & y2 & y3 & y4 & m1 & m2 & d1 & d2 & Hy & Hm & Hd & -> & Ey & Em & Ed).
  destruct (date_text_format b Hb)
    as (z1 & z2 & z3 & z4 & n1 & n2 & e1 & e2 & Hz & Hn & He & -> & Fy & Fm & Fd).
  intros E.
  pose proof (f_equal (fun l => nth 0 l 0) E) as E0.
  pose proof (f_equal (fun l => nth 1 l 0) E) as E1.
  pose proof (f_equal (fun l => nth 2 l 0) E) as E2.
  pose proof (f_equal (fun l => nth 3 l 0) E) as E3.
  pose proof (f_equal (fun l => nth 5 l 0) E) as E5.
  pose proof (f_equal (fun l => nth 6 l 0) E) as E6.
  pose proof (f_equal (fun l => nth 8 l 0) E) as E8.
  pose proof (f_equal (fun l => nth 9 l 0) E) as E9.
  cbv beta in *. cbn [nth] in *. clear E.
  destruct a as [ya ma da], b as [yb mb db].
  cbn [getFullYear getMonth getDate] in *.
  f_equal; lia.
Qed.

(** X17: the version text of [getCurrentDate] orders the days: for two
    dates of the calendar with years of four digits, the text of the one
    is below the text of the other, compared as strings, exactly when the
    day is earlier; and the texts are equal only for the same day. *)
Theorem date_text_orders_the_days (a b : Date) :
  calendar_date a -> calendar_date b ->
  (jsstring_ltb (date_text a) (date_text b) = true <-> earlier a b) /\
  (date_text a = date_text b -> a = b).
Proof.
  intros Ha Hb. split;
    [now apply date_text_earlier|now apply date_text_injective].
Qed.

Lemma date_text_orders_the_days_witness :
  (jsstring_ltb (str "2025.12.31") (str "2026.01.05") = true
   <-> earlier {| getFullYear := 2025; getMonth := 11; getDate := 31 |}
         Sample.today) /\
  (str "2025.12.31" = str "2026.01.05" ->
   {| getFullYear := 2025; getMonth := 11; getDate := 31 |} = Sample.today).
Proof.
  apply (date_text_orders_the_days
           {| getFullYear := 2025; getMonth := 11; getDate := 31 |}
           Sample.today); unfold calendar_date; cbn; lia.
Defined.

(** ** The version of GitHub in [main] *)

Lemma run_fetchLatestTailscaleVersion_fallback
  (compareVersions : jsstring -> jsstring -> sign) (w : World) (t : trace) :
  listing_failed (on_fetch w t TAILSCALE_STABLE_URL) ->
  run w (fetchLatestTailscaleVersion compareVersions) t
  = run w fetchLatestVersionFromGitHub
      (t ++ [EvFetch TAILSCALE_STABLE_URL (on_fetch w t TAILSCALE_STABLE_URL)]).
Proof.
  intros Hfail. unfold fetchLatestTailscaleVersion. cbn [run].
  destruct (on_fetch w t TAILSCALE_STABLE_URL) as [|[] [html|]];
    try reflexivity.
  now destruct (Hfail html).
Qed.

Lemma run_fetchLatestVersionFromGitHub_tag (w : World) (t : trace)
  (body : jsstring) (data : properties) (rest : jsstring) :
  on_fetch w t GITHUB_API_URL = Response true (Some body) ->
  JSON_parse body = Some (JObj data) ->
  obj_get (str "tag_name") data = Some (JStr (str "v" ++ rest)) ->
  run w fetchLatestVersionFromGitHub t
  = (t ++ [EvFetch GITHUB_API_URL (Response true (Some body))],
     Returned (Some rest)).
Proof.
  intros Hfetch Hparse Htag. unfold fetchLatestVersionFromGitHub. cbn [run].
  rewrite Hfetch, Hparse, Htag. reflexivity.
Qed.

Section Fallback.
Variable print_number : jsstring -> jsstring.
Variable BUILD_SCRIPT : jsstring.
Variable compareVersions : jsstring -> jsstring -> sign.
Variable fetchSHA256 : jsstring -> prog (option jsstring).
Hypothesis fetchSHA256_first :
  forall latest,
    exists k, fetchSHA256 (artifact latest) = Fetch (sha256Url latest) k.

Let script := main print_number BUILD_SCRIPT compareVersions fetchSHA256.

Lemma fallback_drives (w : World) (config : properties)
  (tailscaleVersion body : jsstring) (data : properties) (rest : jsstring)
  (t0 : trace) :
  let t1 := t0 ++ [EvFetch TAILSCALE_STABLE_URL
                     (on_fetch w t0 TAILSCALE_STABLE_URL)] in
  let t2 := t1 ++ [EvFetch GITHUB_API_URL (Response true (Some body))] in
  run w readConfig [] = (t0, Returned (JObj config)) ->
  obj_get (str "tailscaleVersion") config = Some (JStr tailscaleVersion) ->
  listing_failed (on_fetch w t0 TAILSCALE_STABLE_URL) ->
  on_fetch w t1 GITHUB_API_URL = Response true (Some body) ->
  JSON_parse body = Some (JObj data) ->
  obj_get (str "tag_name") data = Some (JStr (str "v" ++ rest)) ->
  rest <> [] ->
  (extractVersion tailscaleVersion = rest -> ends_up_to_date script w t2) /\
  (extractVersion tailscaleVersion <> rest ->
   goes_on_to_update script
     (update print_number BUILD_SCRIPT fetchSHA256 config rest) w t2 rest).
Proof.
  cbv zeta. intros Hread Hprop Hfail Hfetch Hparse Htag Hne.
  assert (Hlatest :
            run w (fetchLatestTailscaleVersion compareVersions) t0
            = ((t0 ++ [EvFetch TAILSCALE_STABLE_URL
                         (on_fetch w t0 TAILSCALE_STABLE_URL)])
                 ++ [EvFetch GITHUB_API_URL (Response true (Some body))],
               Returned (Some rest))).
  { rewrite run_fetchLatestTailscaleVersion_fallback by assumption.
    now apply (run_fetchLatestVersionFromGitHub_tag _ _ body data). }
  split; intros Hcmp.
  - now apply (same_version_ends print_number BUILD_SCRIPT compareVersions
                 fetchSHA256 w config tailscaleVersion rest t0).
  - now apply (other_version_updates print_number BUILD_SCRIPT compareVersions
                 fetchSHA256 fetchSHA256_first w config tailscaleVersion rest
                 t0).
Qed.

End Fallback.

(** X18: the version of GitHub takes the place of the one of the listing.
    When the listing cannot be fetched (the request is rejected, the
    response is not [ok], or its body cannot be read) and the release of
    GitHub has the tag [v<rest>], both revisions compare the stored
    version with [rest]: when they are equal the run ends with "already
    up to date", and when they differ the run goes on to the checksum of
    [tailscale_<rest>_amd64.tgz]. *)
Theorem github_version_drives_the_update
  (print_number : jsstring -> jsstring) (w : World) (config : properties)
  (tailscaleVersion body : jsstring) (data : properties) (rest : jsstring)
  (t0 : trace) :
  run w readConfig [] = (t0, Returned (JObj config)) ->
  obj_get (str "tailscaleVersion") config = Some (JStr tailscaleVersion) ->
  listing_failed (on_fetch w t0 TAILSCALE_STABLE_URL) ->
  on_fetch w
    (t0 ++ [EvFetch TAILSCALE_STABLE_URL (on_fetch w t0 TAILSCALE_STABLE_URL)])
    GITHUB_API_URL
  = Response true (Some body) ->
  JSON_parse body = Some (JObj data) ->
  obj_get (str "tag_name") data = Some (JStr (str "v" ++ rest)) ->
  rest <> [] ->
  let t2 := (t0 ++ [EvFetch TAILSCALE_STABLE_URL
                      (on_fetch w t0 TAILSCALE_STABLE_URL)])
              ++ [EvFetch GITHUB_API_URL (Response true (Some body))] in
  ((extractVersion tailscaleVersion = rest ->
    ends_up_to_date (UpdateTs.main print_number) w t2) /\
   (extractVersion tailscaleVersion <> rest ->
    goes_on_to_update (UpdateTs.main print_number)
      (update print_number UpdateTs.BUILD_SCRIPT UpdateTs.fetchSHA256
         config rest) w t2 rest)) /\
  ((extractVersion tailscaleVersion = rest ->
    ends_up_to_date (Part003.main print_number) w t2) /\
   (extractVersion tailscaleVersion <> rest ->
    goes_on_to_update (Part003.main print_number)
      (update print_number Part003.BUILD_SCRIPT Part003.fetchSHA256
         config rest) w t2 rest)).
Proof.
  intros Hread Hprop Hfail Hfetch Hparse Htag Hne. cbv zeta. split.
  - apply (fallback_drives print_number UpdateTs.BUILD_SCRIPT
             UpdateTs.compareVersions UpdateTs.fetchSHA256
             UpdateTs_fetchSHA256_first w config tailscaleVersion body data);
      assumption.
  - apply (fallback_drives print_number Part003.BUILD_SCRIPT
             Part003.compareVersions Part003.fetchSHA256
             Part003_fetchSHA256_first w config tailscaleVersion body data);
      assumption.
Qed.

Lemma github_version_drives_the_update_witness :
  let w := Sample.github_world (Sample.release_of (str "v1.92.0")) in
  let t2 := [EvReadTextFile CONFIG_PATH (Some Sample.config);
             EvFetch TAILSCALE_STABLE_URL FetchRejected;
             EvFetch GITHUB_API_URL
               (Response true (Some (Sample.release_of (str "v1.92.0"))))] in
  goes_on_to_update (UpdateTs.main (fun lexeme => lexeme))
    (update (fun lexeme => lexeme) UpdateTs.BUILD_SCRIPT UpdateTs.fetchSHA256
       Sample.config_props (str "1.92.0")) w t2 (str "1.92.0") /\
  goes_on_to_update (Part003.main (fun lexeme => lexeme))
    (update (fun lexeme => lexeme) Part003.BUILD_SCRIPT Part003.fetchSHA256
       Sample.config_props (str "1.92.0")) w t2 (str "1.92.0").
Proof.
  cbv zeta.
  destruct (github_version_drives_the_update (fun lexeme => lexeme)
              (Sample.github_world (Sample.release_of (str "v1.92.0")))
              Sample.config_props (str "tailscale_1.90.6_amd64")
              (Sample.release_of (str "v1.92.0"))
              [(str "tag_name", JStr (str "v1.92.0"))] (str "1.92.0")
              [EvReadTextFile CONFIG_PATH (Some Sample.config)])
    as [[_ HU] [_ HP]].
  - vm_compute. reflexivity.
  - reflexivity.
  - intros html. vm_compute. discriminate.
  - reflexivity.
  - vm_compute. reflexivity.
  - reflexivity.
  - discriminate.
  - split; [apply HU|apply HP]; vm_compute; discriminate.
Defined.

(** ** Writing any record of strings and reading it back *)

(** X19: [readConfig] after [writeConfig] gives back every field of the
    object that was written, for every object whose values are strings
    and whose keys are distinct, whatever the keys and the strings are:
    quotes, backslashes, control characters and lone surrogates
    included. *)
Theorem written_fields_read_back (print_number : jsstring -> jsstring)
  (props : properties) (w : World) (t : trace) :
  string_valued props -> distinct_keys props ->
  on_readTextFile w
    (t ++ [EvWriteTextFile CONFIG_PATH
             (JSON_stringify4 print_number (JObj props) ++ [10])
             (on_writeTextFile w t CONFIG_PATH
                (JSON_stringify4 print_number (JObj props) ++ [10]))])
    CONFIG_PATH
  = Some (JSON_stringify4 print_number (JObj props) ++ [10]) ->
  exists back,
    snd (run w (bind (writeConfig print_number (JObj props))
                  (fun _ => readConfig)) t)
    = Returned (JObj back) /\
    forall key, obj_get key back = obj_get key props.
Proof.
  intros Hstr Hnd Hread. exists (set_members props []).
  split.
  - unfold writeConfig. rewrite run_bind. cbn [run]. unfold readConfig.
    cbn [run]. rewrite Hread, JSON_parse_stringify_members by assumption.
    reflexivity.
  - intros key. rewrite obj_get_set_members, obj_get_rev by assumption.
    now destruct (obj_get key props).
Qed.

Lemma written_fields_read_back_witness :
  exists back,
    snd (run (file_world None)
           (bind (writeConfig (fun lexeme => lexeme) (JObj Sample.odd_props))
              (fun _ => readConfig)) [])
    = Returned (JObj back) /\
    forall key, obj_get key back = obj_get key Sample.odd_props.
Proof.
  apply (written_fields_read_back (fun lexeme => lexeme) Sample.odd_props
           (file_world None) []).
  - repeat constructor; eexists; reflexivity.
  - unfold distinct_keys.
    repeat (constructor;
            [cbn; intros H;
             repeat (destruct H as [H|H]; [discriminate|]); exact H|]).
    constructor.
  - reflexivity.
Defined.

(** ** What [readConfig] returns *)



(** ** An update in which everything goes well *)

Lemma is_sha256_hex_nonempty (h : jsstring) :
  is_sha256_hex h = true -> exists c s, h = c :: s.
Proof.
  unfold is_sha256_hex. destruct h as [|c s]; [discriminate|].
  intros _. now exists c, s.
Qed.

Section Happy.
Variable print_number : jsstring -> jsstring.
Variable BUILD_SCRIPT : jsstring.
Variable compareVersions : jsstring -> jsstring -> sign.
Variable fetchSHA256 : jsstring -> prog (option jsstring).

Let script := main print_number BUILD_SCRIPT compareVersions fetchSHA256.

Lemma happy_run (w : World) (content : jsstring) (config : properties)
  (stored html latest text : jsstring) :
  (forall t,
      on_fetch w t (sha256Url latest) = Response true (Some text) ->
      run w (fetchSHA256 (artifact latest)) t
      = (t ++ [EvFetch (sha256Url latest) (Response true (Some text))],
         Returned (Some (first_token text)))) ->
  JSON_parse content = Some (JObj config) ->
  obj_get (str "tailscaleVersion") config = Some (JStr stored) ->
  latestInListing compareVersions html = Some latest ->
  extractVersion stored <> latest ->
  is_sha256_hex (first_token text) = true ->
  answers_update print_number BUILD_SCRIPT w content config html latest text ->
  run w script []
  = (update_trace print_number BUILD_SCRIPT w content config html latest text,
     Returned tt).
Proof.
  intros Hsha Hparse Hprop Hlatest Hcmp Hhex. unfold answers_update.
  cbv zeta. intros (Hread & Hpage & Hsum & Hwrite & Hbuild).
  assert (Hne : latest <> []).
  { apply is_version_nonempty, (matchAll_is_version (str ".tgz") html).
    now apply (latestInListing_In compareVersions). }
  unfold script.
  rewrite (run_main_compare print_number BUILD_SCRIPT compareVersions
             fetchSHA256 w config stored latest
             [EvReadTextFile CONFIG_PATH (Some content)]
             ([EvReadTextFile CONFIG_PATH (Some content)]
                ++ [EvFetch TAILSCALE_STABLE_URL (Response true (Some html))]));
    try assumption.
  - apply jsstring_eqb_neq in Hcmp. rewrite Hcmp.
    rewrite run_update, (Hsha _ Hsum).
    destruct (is_sha256_hex_nonempty _ Hhex) as (c & s & Ehash).
    rewrite Ehash in *. unfold after_checksum, update_trace. cbv zeta.
    rewrite Hwrite, Hbuild, Ehash. reflexivity.
  - unfold readConfig. cbn [run app]. now rewrite Hread, Hparse.
  - rewrite (run_fetchLatestTailscaleVersion_listing _ _ _ _ Hpage).
    now rewrite Hlatest.
Qed.

End Happy.

(** X21: an update in which everything goes well.  When the stored
    configuration is read, the listing is fetched and names a latest
    version other than the stored one, the first token of the checksum
    file of its artifact is 64 hexadecimal digits, the write succeeds and
    the build exits with code [0], then [main] of either revision
    returns (exit status 0) after exactly six events: the read, the two
    requests, the reading of the clock, the write of the record with the
    three fields set, and the build. *)
Theorem successful_update_run (print_number : jsstring -> jsstring)
  (w : World) (content : jsstring) (config : properties)
  (stored html latest text : jsstring) :
  JSON_parse content = Some (JObj config) ->
  obj_get (str "tailscaleVersion") config = Some (JStr stored) ->
  latestInListing UpdateTs.compareVersions html = Some latest ->
  extractVersion stored <> latest ->
  is_sha256_hex (first_token text) = true ->
  (answers_update print_number UpdateTs.BUILD_SCRIPT w content config html
     latest text ->
   run w (UpdateTs.main print_number) []
   = (update_trace print_number UpdateTs.BUILD_SCRIPT w content config html
        latest text,
      Returned tt)) /\
  (answers_update print_number Part003.BUILD_SCRIPT w content config html
     latest text ->
   run w (Part003.main print_number) []
   = (update_trace print_number Part003.BUILD_SCRIPT w content config html
        latest text,
      Returned tt)).
Proof.
  intros Hparse Hprop Hlatest Hcmp Hhex. split; intros Hw.
  - apply (happy_run print_number UpdateTs.BUILD_SCRIPT
             UpdateTs.compareVersions UpdateTs.fetchSHA256 w content config
             stored html latest text); try assumption.
    intros t Ht. now apply run_UpdateTs_fetchSHA256.
  - apply (happy_run print_number Part003.BUILD_SCRIPT
             Part003.compareVersions Part003.fetchSHA256 w content config
             stored html latest text); try assumption.
    + intros t Ht. rewrite (run_Part003_fetchSHA256 _ _ _ _ Ht).
      now rewrite Hhex.
    + now rewrite latestInListing_agree.
Qed.

Lemma successful_update_run_witness :
  run (Sample.update_world 0) (UpdateTs.main (fun lexeme => lexeme)) []
  = (update_trace (fun lexeme => lexeme) UpdateTs.BUILD_SCRIPT
       (Sample.update_world 0) Sample.config Sample.config_props
       Sample.listing (str "1.92.0") Sample.checksum_file,
     Returned tt) /\
  run (Sample.update_world 0) (Part003.main (fun lexeme => lexeme)) []
  = (update_trace (fun lexeme => lexeme) Part003.BUILD_SCRIPT
       (Sample.update_world 0) Sample.config Sample.config_props
       Sample.listing (str "1.92.0") Sample.checksum_file,
     Returned tt).
Proof.
  destruct (successful_update_run (fun lexeme => lexeme)
              (Sample.update_world 0) Sample.config Sample.config_props
              (str "tailscale_1.90.6_amd64") Sample.listing (str "1.92.0")
              Sample.checksum_file) as [HU HP].
  - vm_compute. reflexivity.
  - reflexivity.
  - vm_compute. reflexivity.
  - vm_compute. discriminate.
  - vm_compute. reflexivity.
  - split; [apply HU|apply HP]; repeat split.
Defined.
